(** * buildstockbatch: the commercial Sobol sampler and the Peregrine batch driver

    A shallow embedding of [buildstockbatch/sample.py] (class
    [CommercialSobolSampler]) and [buildstockbatch/peregrine.py] (class
    [PeregrineBatch]), followed by the properties of the dependency
    resolver, the conditional sampler, the job partitioner, the resume
    scanner and the per-building runner.

    Conventions of the embedding:
    - a Python [dict] is an association list in insertion order, written to
      with [dict_set] (assignment keeps the position of an existing key);
    - an exception is the [Raise] branch of [result];
    - pandas' float weights and the Sobol coordinates are IEEE 754 binary64
      numbers, Rocq's primitive [float]: sums round and comparisons decide
      as those of numpy's float64;
    - strings are byte strings, so [\d] is an ASCII digit;
    - collaborators outside the two modules (the Sobol generator, the JSON
      codec, [random.shuffle], the scheduler, the sampling and simulation
      containers, the base class's [downselect], [create_osw] and
      [cleanup_sim_dir]) are parameters. *)

From Stdlib Require Import ZArith Floats DecimalString DecimalNat DecimalN.
From stdpp Require Import gmap strings list sorting.

#[local] Set Warnings "-inexact-float".

Local Open Scope string_scope.
Local Open Scope list_scope.

(** ** Exceptions *)

Inductive exn : Type :=
| KeyError (key : string)
| IndexError
| ValueError
| TypeError
| ZeroDivisionError
| JSONDecodeError
| FileNotFoundError (path : string)
| RuntimeError (msg : string)
| CalledProcessError
| OSError (path : string).

Inductive result (A : Type) : Type :=
| Ok (a : A)
| Raise (e : exn).

Arguments Ok {A} a.
Arguments Raise {A} e.

#[global] Instance result_bind : MBind result :=
  fun A B (k : A → result B) (r : result A) =>
    match r with
    | Ok a => k a
    | Raise e => Raise e
    end.

#[global] Instance result_ret : MRet result := fun A a => Ok a.

Definition or_raise {A : Type} (e : exn) (o : option A) : result A :=
  match o with
  | Some a => Ok a
  | None => Raise e
  end.

(** A [for] loop whose body may raise: the first exception ends the loop. *)
Fixpoint for_each {A S : Type} (body : S → A → result S) (xs : list A) (s : S)
  : result S :=
  match xs with
  | [] => Ok s
  | x :: xs' => s' ← body s x ; for_each body xs' s'
  end.

(** ** Python strings *)

(** [sub in s]. *)
Fixpoint str_contains (sub s : string) : bool :=
  String.prefix sub s ||
  match s with
  | EmptyString => false
  | String _ s' => str_contains sub s'
  end.

(** [s.replace(old, new)] for a non-empty [old]: occurrences are replaced
    from the left, without overlap. [skip] counts the characters of the
    occurrence just replaced that are still to be dropped. *)
Fixpoint str_replace_from (old new : string) (skip : nat) (s : string) : string :=
  match s with
  | EmptyString => EmptyString
  | String c s' =>
      match skip with
      | S k => str_replace_from old new k s'
      | O =>
          if String.prefix old s
          then new +:+ str_replace_from old new (String.length old - 1) s'
          else String c (str_replace_from old new 0 s')
      end
  end.

Definition str_replace (old new s : string) : string :=
  str_replace_from old new 0 s.

(** [sep.join(items)]. *)
Fixpoint str_join (sep : string) (items : list string) : string :=
  match items with
  | [] => EmptyString
  | [x] => x
  | x :: rest => x +:+ sep +:+ str_join sep rest
  end.

(** [str(n)] for an integer. *)
Definition str_of_nat (n : nat) : string := NilZero.string_of_uint (Nat.to_uint n).
Definition str_of_Z (z : Z) : string := NilZero.string_of_int (Z.to_int z).

(** The characters of a string, as Python iterates over it. *)
Fixpoint str_chars (s : string) : list string :=
  match s with
  | EmptyString => []
  | String c s' => String c EmptyString :: str_chars s'
  end.

(** ** Python dictionaries (insertion ordered) *)

Definition dict (V : Type) : Type := list (string * V).

Fixpoint dict_get {V : Type} (k : string) (d : dict V) : option V :=
  match d with
  | [] => None
  | (k', v) :: d' => if String.eqb k k' then Some v else dict_get k d'
  end.

(** [d[k] = v]: an existing key keeps its position, a new one goes last. *)
Fixpoint dict_set {V : Type} (k : string) (v : V) (d : dict V) : dict V :=
  match d with
  | [] => [(k, v)]
  | (k', v') :: d' =>
      if String.eqb k k' then (k', v) :: d' else (k', v') :: dict_set k v d'
  end.

Definition dict_keys {V : Type} (d : dict V) : list string := map fst d.

(** [d[k]], raising [KeyError]. *)
Definition dict_item {V : Type} (k : string) (d : dict V) : result V :=
  or_raise (KeyError k) (dict_get k d).

(** [x in xs] for a list of strings. *)
Definition str_in (x : string) (xs : list string) : bool :=
  existsb (String.eqb x) xs.

(** ** pandas data frames, as far as the sampler uses them *)

Inductive cell : Type :=
| CStr (s : string)
| CNum (q : float).

Record DataFrame : Type := mkDataFrame {
  df_columns : list string;       (* list(df) *)
  df_values : list (list cell)    (* df.values, one list per row *)
}.

Definition df_shape0 (df : DataFrame) : nat := length (df_values df).

Fixpoint column_index (name : string) (cols : list string) : option nat :=
  match cols with
  | [] => None
  | c :: cols' =>
      if String.eqb name c then Some 0%nat
      else option_map S (column_index name cols')
  end.

Fixpoint remove_nth {A : Type} (j : nat) (l : list A) : list A :=
  match l, j with
  | [], _ => []
  | _ :: l', O => l'
  | x :: l', S j' => x :: remove_nth j' l'
  end.

(** A value stored in the per-sample dependency hash: the dependency list
    copied from [dependency_hash], or the option already sampled. *)
Inductive pyval : Type :=
| PList (items : list string)
| PStr (s : string).

Definition cell_eq_str (c : option cell) (s : string) : bool :=
  match c with
  | Some (CStr s') => String.eqb s' s
  | _ => false
  end.

Fixpoint zip_eq (col : list (option cell)) (items : list string) : list bool :=
  match col, items with
  | c :: col', s :: items' => cell_eq_str c s :: zip_eq col' items'
  | _, _ => []
  end.

(** [series == value]: against a string the comparison is element-wise;
    against a list pandas compares position by position and raises
    [ValueError] when the lengths differ. *)
Definition series_eq (col : list (option cell)) (v : pyval) : result (list bool) :=
  match v with
  | PStr s => Ok (map (fun c => cell_eq_str c s) col)
  | PList items =>
      if Nat.eqb (length col) (length items) then Ok (zip_eq col items)
      else Raise ValueError
  end.

(** [df.loc[mask]] on the rows. *)
Fixpoint select_rows (rows : list (list cell)) (mask : list bool) : list (list cell) :=
  match rows, mask with
  | r :: rows', b :: mask' =>
      if b then r :: select_rows rows' mask' else select_rows rows' mask'
  | _, _ => []
  end.

(** [df.drop(name, axis=1)] once the position of [name] is known. *)
Definition drop_column (j : nat) (df : DataFrame) : DataFrame :=
  mkDataFrame (remove_nth j (df_columns df)) (map (remove_nth j) (df_values df)).

(** [df.values.cumsum()]: the running sums of the flattened values, each
    the float64 sum of the running sum before it and the next value. *)
Fixpoint cumsum_from (acc : float) (l : list float) : list float :=
  match l with
  | [] => []
  | x :: l' => (acc + x)%float :: cumsum_from (acc + x)%float l'
  end.

Definition cumsum (l : list float) : list float :=
  match l with
  | [] => []
  | x :: l' => x :: cumsum_from x l'
  end.

(** The numbers of a row; adding or comparing a string cell raises. *)
Fixpoint numbers (cells : list cell) : result (list float) :=
  match cells with
  | [] => Ok []
  | CNum q :: cells' => qs ← numbers cells' ; Ok (q :: qs)
  | CStr _ :: _ => Raise TypeError
  end.

(** [c > x] on float64: false when either side is not a number. *)
Definition float_gt (c x : float) : bool := (x <? c)%float.

(** [itertools.compress(data, selectors)]: stops at the shorter input. *)
Fixpoint compress {A : Type} (data : list A) (selectors : list bool) : list A :=
  match data, selectors with
  | d :: data', s :: selectors' =>
      if s then d :: compress data' selectors' else compress data' selectors'
  | _, _ => []
  end.

(** [l[0]]. *)
Definition first_item {A : Type} (l : list A) : result A :=
  or_raise IndexError (head l).

(** * sample.py: CommercialSobolSampler *)

(** ** [_com_order_tsvs] *)

(** [[item.replace('Dependency=', '') for item in list(df) if 'Dependency=' in item]] *)
Definition tsv_dependencies (df : DataFrame) : list string :=
  map (str_replace "Dependency=" "")
      (List.filter (str_contains "Dependency=") (df_columns df)).

(** First loop: [dependency_hash[attr] = ...] for every key of [tsv_hash]. *)
Definition build_dependency_hash (tsv_hash : dict DataFrame)
  : result (dict (list string)) :=
  for_each
    (fun dependency_hash attr =>
       df ← dict_item attr tsv_hash;
       Ok (dict_set attr (tsv_dependencies df) dependency_hash))
    (dict_keys tsv_hash) [].

(** Second loop: [if dependency_hash[attr]: attr_order.append(attr)]. A list
    is true when it is not empty. *)
Definition seed_attr_order (dependency_hash : dict (list string))
  : result (list string) :=
  for_each
    (fun attr_order attr =>
       deps ← dict_item attr dependency_hash;
       Ok (match deps with
           | [] => attr_order
           | _ :: _ => attr_order ++ [attr]
           end))
    (dict_keys dependency_hash) [].

(** The inner [for dependency in dependency_hash[attr]] loop. *)
Definition dependencies_met (deps attr_order : list string) : bool :=
  forallb (fun dependency => str_in dependency attr_order) deps.

(** One execution of the body of [while True], up to the length test. *)
Definition order_pass (dependency_hash : dict (list string)) (attr_order : list string)
  : result (list string) :=
  for_each
    (fun attr_order attr =>
       if str_in attr attr_order then Ok attr_order
       else
         deps ← dict_item attr dependency_hash;
         Ok (if dependencies_met deps attr_order
             then attr_order ++ [attr] else attr_order))
    (dict_keys dependency_hash) attr_order.

Definition unresolved_message : string :=
  "Unable to resolve the dependency tree within the set iteration limit".

(** The [while True] loop; its counter [max_iterations] bounds it. *)
Fixpoint order_loop (max_iterations : nat) (dependency_hash : dict (list string))
    (attr_order : list string) : result (list string) :=
  attr_order' ← order_pass dependency_hash attr_order;
  if Nat.eqb (length (dict_keys dependency_hash)) (length attr_order')
  then Ok attr_order'
  else
    match max_iterations with
    | S m => order_loop m dependency_hash attr_order'
    | O => Raise (RuntimeError unresolved_message)
    end.

Definition _com_order_tsvs (tsv_hash : dict DataFrame)
  : result (dict (list string) * list string) :=
  dependency_hash ← build_dependency_hash tsv_hash;
  attr_order ← seed_attr_order dependency_hash;
  attr_order ← order_loop 5 dependency_hash attr_order;
  Ok (dependency_hash, attr_order).

(** ** [_com_execute_sobol_sampling] *)

(** [DataFrame.replace(1.0, 0.999999)] on one entry. *)
Definition replace_one (q : float) : float :=
  if (q =? 1)%float then 0.999999%float else q.

Section SobolSampling.
(** [sobol_lib.i4_sobol_generate(dim_num, n, skip)]: a [dim_num] by [n]
    array, one row per dimension. *)
Variable i4_sobol_generate : nat → nat → nat → list (list float).

Definition _com_execute_sobol_sampling (n_dims n_samples : nat) : list (list float) :=
  map (map replace_one) (i4_sobol_generate n_dims n_samples 0).
End SobolSampling.

(** ** [_com_execute_sample] *)

(** [list(sample_matrix.loc[:, sample_index])]: the column of the sample,
    one coordinate per dimension. *)
Definition sample_column (sample_matrix : list (list float)) (sample_index : nat)
  : result (list float) :=
  for_each
    (fun sample_vector row =>
       x ← or_raise (KeyError (str_of_nat sample_index)) (row !! sample_index);
       Ok (sample_vector ++ [x]))
    sample_matrix [].

(** [deepcopy(dependency_hash)]: every value is still a dependency list. *)
Definition deepcopy (dependency_hash : dict (list string)) : dict pyval :=
  map (fun '(attr, deps) => (attr, PList deps)) dependency_hash.

(** What [for dependency in sample_dependency_hash[attr]] iterates over:
    the items of a list, the characters of a string. *)
Definition iter_items (v : pyval) : list string :=
  match v with
  | PList items => items
  | PStr s => str_chars s
  end.

(** The body of the dependency loop: keep the rows whose dependency column
    equals the value in the hash, then drop that column. *)
Definition filter_dependency (sample_dependency_hash : dict pyval)
    (tsv_lkup : DataFrame) (dependency : string) : result DataFrame :=
  let name := "Dependency=" +:+ dependency in
  j ← or_raise (KeyError name) (column_index name (df_columns tsv_lkup));
  v ← dict_item dependency sample_dependency_hash;
  mask ← series_eq (map (fun row => row !! j) (df_values tsv_lkup)) v;
  Ok (drop_column j
        (mkDataFrame (df_columns tsv_lkup) (select_rows (df_values tsv_lkup) mask))).

(** Lines 293-295: the cumulative test, the option names, and element 0 of
    the compressed list. *)
Definition select_option (tsv_lkup : DataFrame) (tsv_dist_val : float)
  : result string :=
  weights ← numbers (concat (df_values tsv_lkup));
  let tsv_lkup_cdf := map (fun c => float_gt c tsv_dist_val) (cumsum weights) in
  let option_values :=
    map (str_replace "Option=" "")
        (List.filter (str_contains "Option=") (df_columns tsv_lkup)) in
  first_item (compress option_values tsv_lkup_cdf).

Definition not_one_row_message (attr : string) (sample_index : nat) : string :=
  "Unable to reduce tsv for " +:+ attr +:+ " to 1 row, index " +:+ str_of_nat sample_index.

(** The warning of line 288: attribute, sample index, dependency hash. *)
Record Warning : Type := mkWarning {
  warn_attr : string;
  warn_index : nat;
  warn_dep_hash : dict pyval
}.

(** How the [for attr_index] loop ends when it does not raise. *)
Inductive resolution : Type :=
| Resolved (result_vector : list string)
| ReducedToZero (w : Warning).

(** The [for attr_index in range(len(attr_order))] loop, from position
    [attr_index] on; [attrs] is [attr_order[attr_index:]]. *)
Fixpoint sample_attrs (tsv_hash : dict DataFrame) (sample_vector : list float)
    (sample_index : nat) (attrs : list string) (attr_index : nat)
    (sample_dependency_hash : dict pyval) (result_vector : list string)
  : result resolution :=
  match attrs with
  | [] => Ok (Resolved result_vector)
  | attr :: attrs' =>
      tsv_lkup ← dict_item attr tsv_hash;
      tsv_dist_val ← or_raise IndexError (sample_vector !! attr_index);
      deps ← dict_item attr sample_dependency_hash;
      tsv_lkup ← for_each (filter_dependency sample_dependency_hash)
                          (iter_items deps) tsv_lkup;
      match df_shape0 tsv_lkup with
      | 0%nat => Ok (ReducedToZero (mkWarning attr sample_index sample_dependency_hash))
      | 1%nat =>
          attr_result ← select_option tsv_lkup tsv_dist_val;
          sample_attrs tsv_hash sample_vector sample_index attrs' (S attr_index)
            (dict_set attr (PStr attr_result) sample_dependency_hash)
            (result_vector ++ [attr_result])
      | _ => Raise (RuntimeError (not_one_row_message attr sample_index))
      end
  end.

Definition newline : string := String (Ascii.ascii_of_nat 10) EmptyString.

(** [s[0:-1]]. *)
Fixpoint str_drop_last (s : string) : string :=
  match s with
  | EmptyString => EmptyString
  | String c EmptyString => EmptyString
  | String c s' => String c (str_drop_last s')
  end.

(** Lines 298-301. *)
Definition csv_row_of (sample_index : nat) (result_vector : list string) : string :=
  let csv_row :=
    fold_left (fun csv_row item => csv_row +:+ item +:+ ",") result_vector
              (str_of_nat (sample_index + 1) +:+ ",") in
  str_drop_last csv_row +:+ newline.

(** What a sampling run leaves behind: the text of buildstock.csv and the
    warnings emitted. *)
Record sampler_io : Type := mkIO {
  csv_file : string;
  warnings : list Warning
}.

(** [_com_execute_sample]; holding the lock makes the append atomic, so the
    function maps the file before to the file after. *)
Definition _com_execute_sample (tsv_hash : dict DataFrame)
    (dependency_hash : dict (list string)) (attr_order : list string)
    (sample_matrix : list (list float)) (sample_index : nat) (io : sampler_io)
  : result sampler_io :=
  sample_vector ← sample_column sample_matrix sample_index;
  let sample_dependency_hash := deepcopy dependency_hash in
  r ← sample_attrs tsv_hash sample_vector sample_index attr_order 0
        sample_dependency_hash [];
  match r with
  | ReducedToZero w => Ok (mkIO (csv_file io) (warnings io ++ [w]))
  | Resolved result_vector =>
      Ok (mkIO (csv_file io +:+ csv_row_of sample_index result_vector) (warnings io))
  end.

(** The header written by [run_sampling] (lines 198-201). *)
Definition csv_header (attr_order : list string) : string :=
  let header :=
    fold_left (fun header item => header +:+ item +:+ ",") attr_order "Building," in
  str_drop_last header +:+ newline.

(** The [Parallel(...)(delayed(self._com_execute_sample)(...) for index in
    range(n_samples))] call. The worker pool runs [_com_execute_sample] once
    per index; the lock serialises the appends, in an order the pool
    decides: [schedule] is that order. An exception in a worker ends the
    run. *)
Definition run_samples (tsv_hash : dict DataFrame)
    (dependency_hash : dict (list string)) (attr_order : list string)
    (sample_matrix : list (list float)) (schedule : list nat) (io : sampler_io)
  : result sampler_io :=
  for_each
    (fun io index =>
       _com_execute_sample tsv_hash dependency_hash attr_order sample_matrix index io)
    schedule io.

Section RunSampling.
Variable i4_sobol_generate : nat → nat → nat → list (list float).

(** [run_sampling] from the ordering on; [schedule] orders
    [range(n_samples)]. *)
Definition run_sampling (tsv_hash : dict DataFrame) (n_samples : nat)
    (schedule : list nat) : result sampler_io :=
  '(dependency_hash, attr_order) ← _com_order_tsvs tsv_hash;
  let sample_matrix :=
    _com_execute_sobol_sampling i4_sobol_generate (length attr_order) n_samples in
  run_samples tsv_hash dependency_hash attr_order sample_matrix schedule
              (mkIO (csv_header attr_order) []).
End RunSampling.

(** * peregrine.py: PeregrineBatch *)

(** A simulation unit [(i, upgrade_idx)]; the baseline has [None]. *)
Definition sim : Type := (nat * option nat)%type.

(** The dictionary written to and read from [jobNNN.json]. *)
Record job_d : Type := mkJob {
  job_num : nat;
  batch : list sim
}.

(** ['{:0Nd}'.format(n)] applied to the decimal digits of [n]: zeros in
    front, up to the width. *)
Fixpoint zeros (k : nat) : string :=
  match k with
  | O => EmptyString
  | S k' => String (Ascii.ascii_of_nat 48) (zeros k')
  end.

Definition zfill (width : nat) (s : string) : string :=
  zeros (width - String.length s) +:+ s.

(** ['job{:03d}.json'.format(i)], a name inside the output directory. *)
Definition job_json_filename (i : nat) : string :=
  "job" +:+ zfill 3 (str_of_nat i) +:+ ".json".

(** [math.ceil(a / b)] for a non-zero [b]: the ceiling of the quotient,
    which is what the ceiling of the float64 quotient is as long as the
    operands are below 2^53. *)
Definition ceil_div (a b : Z) : Z := (- ((- a) / b))%Z.

(** Lines 205-207. *)
Definition sims_per_job (n_sims n_jobs : Z) : result Z :=
  if Z.eqb n_jobs 0 then Raise ZeroDivisionError
  else Ok (Z.max (ceil_div n_sims n_jobs) 48).

(** [zip(range(1, n_datapoints + 1), itertools.repeat(None))] *)
Definition baseline_sims (n_datapoints : nat) : list sim :=
  map (fun i => (i, None)) (seq 1 n_datapoints).

(** [itertools.product(range(1, n_datapoints + 1), range(len(upgrades)))] *)
Definition upgrade_sims (n_datapoints n_upgrades : nat) : list sim :=
  map (fun '(i, u) => (i, Some u)) (list_prod (seq 1 n_datapoints) (seq 0 n_upgrades)).

(** The [for i in itertools.count(1)] loop: [islice] takes the next
    [n_sims_per_job] items and the loop ends at the first empty batch.
    Every batch but the last empty one consumes an item, so [fuel], the
    number of items, bounds the number of batches. *)
Fixpoint batches_from {A : Type} (fuel n_sims_per_job : nat) (all_sims_iter : list A)
  : list (list A) :=
  match fuel with
  | O => []
  | S fuel' =>
      match take n_sims_per_job all_sims_iter with
      | [] => []
      | batch => batch :: batches_from fuel' n_sims_per_job (drop n_sims_per_job all_sims_iter)
      end
  end.

Definition islice_batches {A : Type} (n_sims_per_job : nat) (all_sims : list A)
  : list (list A) :=
  batches_from (length all_sims) n_sims_per_job all_sims.

(** The descriptors of the loop, numbered from [i]. *)
Fixpoint number_jobs (i : nat) (bs : list (list sim)) : list job_d :=
  match bs with
  | [] => []
  | b :: bs' => mkJob i b :: number_jobs (S i) bs'
  end.

(** The scheduler-facing state: the files of the output directory by name,
    and the argument lists of the [qsub] calls made so far. *)
Record cluster : Type := mkCluster {
  files : gmap string string;
  submitted : list (list string)
}.

(** ** The output directory as a file system

    A file below the output directory is kept under its path relative to
    it; a directory is there through the files below it. *)

(** [shutil.rmtree(dir)] on a directory: every file below it goes. *)
Definition rmtree (dir : string) (fs : gmap string string) : gmap string string :=
  filter (fun entry => String.prefix (dir +:+ "/") entry.1 = false) fs.

(** [os.path.exists(path)]: a file of that name, or a file below it. *)
Definition fs_exists (path : string) (fs : gmap string string) : bool :=
  bool_decide (is_Some (fs !! path))
  || negb (bool_decide
             (filter (fun entry => String.prefix (path +:+ "/") entry.1 = true) fs = ∅)).

(** [shutil.copytree(src, dst)] for a source given by its files, each under
    its path relative to [src]. *)
Definition copytree (src_files : list (string * string)) (dst : string)
    (fs : gmap string string) : gmap string string :=
  fold_left (fun fs '(name, text) => <[dst +:+ "/" +:+ name := text]> fs) src_files fs.

(** [nodes_per_nodetype] *)
Definition nodes_per_nodetype : dict Z :=
  [("16core", 16%Z); ("64GB", 24%Z); ("256GB", 16%Z); ("24core", 24%Z); ("haswell", 24%Z)].

Section Peregrine.
(** [json.dump] on job dictionaries; [random.shuffle]; the answer of [qsub]
    to an argument list (its stripped standard output, or the failed return
    code); the paths of the output directory and of peregrine.sh. *)
Variable json_dump : job_d → string.
Variable shuffle : list sim → list sim.
Variable qsub : list string → result string.
Variable output_dir : string.
Variable peregrine_sh : string.
(** [downselect] of the base class, as a change of the output directory;
    the container of [run_sampling] on its argument list: the text it
    leaves in [buildstock_dir/resources/buildstock.csv], [None] when the
    file is not there afterwards, or the [CalledProcessError] of
    [check=True]; the paths that go into the argument list; and the files
    of [project_dir/housing_characteristics], each under its path relative
    to that directory, [None] when the directory does not exist. *)
Variable downselect : gmap string string → result (gmap string string).
Variable singularity_sampling : list string → result (option string).
Variable buildstock_dir : string.
Variable singularity_image : string.
Variable project_directory : string.
Variable project_housing_characteristics : option (list (string * string)).

(** [os.path.join(dir, name)]: an absolute [name] stands alone, and no
    separator is added to an empty [dir] or to one that ends with one. *)
Definition path_join (dir name : string) : string :=
  if String.prefix "/" name then name
  else if String.eqb dir "" || String.eqb (String.substring (String.length dir - 1) 1 dir) "/"
  then dir +:+ name
  else dir +:+ "/" +:+ name.

(** The [args] of [_queue_jobs]. *)
Definition queue_jobs_args (walltime : Z) (array_spec queue nodetype allocation : string)
  : list string :=
  ["qsub"; "-v"; "PROJECTFILE"; "-q"; queue; "-A"; allocation;
   "-l"; "feature=" +:+ nodetype; "-l"; "walltime=" +:+ str_of_Z walltime;
   "-N"; "buildstock"; "-t"; array_spec;
   "-o"; path_join output_dir "job.out"; peregrine_sh].

Definition _queue_jobs (n_sims_per_job minutes_per_sim : Z) (array_spec : string)
    (queue nodetype allocation : string) (c : cluster) : result (string * cluster) :=
  nodes ← dict_item nodetype nodes_per_nodetype;
  let walltime := (ceil_div n_sims_per_job nodes * minutes_per_sim * 60)%Z in
  let args := queue_jobs_args walltime array_spec queue nodetype allocation in
  jobid ← qsub args;
  Ok (jobid, mkCluster (files c) (submitted c ++ [args])).

(** The [args] of [_queue_post_processing]. *)
Definition post_processing_args (after_jobid allocation : string) : list string :=
  ["qsub"; "-v"; "PROJECTFILE,POSTPROCESS";
   "-W"; "depend=afterokarray:" +:+ after_jobid;
   "-q"; "bigmem"; "-A"; allocation; "-l"; "feature=256GB";
   "-l"; "walltime=1:30:00"; "-N"; "buildstock_post";
   "-o"; path_join output_dir "postprocessing.out"; peregrine_sh].

Definition _queue_post_processing (after_jobid allocation : string) (c : cluster)
  : cluster :=
  mkCluster (files c) (submitted c ++ [post_processing_args after_jobid allocation]).

(** The body of the [for i] loop for one batch: [json.dump] into
    [jobNNN.json]. *)
Definition write_job (fs : gmap string string) (job : job_d) : gmap string string :=
  <[job_json_filename (job_num job) := json_dump job]> fs.

(** The [args] of [run_sampling]. *)
Definition run_sampling_args (n_datapoints : nat) : list string :=
  ["singularity"; "exec"; "--contain"; "--home"; buildstock_dir; singularity_image;
   "ruby"; "resources/run_sampling.rb"; "-p"; project_directory;
   "-n"; str_of_nat n_datapoints; "-o"; "buildstock.csv"].

(** [PeregrineBatch.run_sampling]: the container writes buildstock.csv, the
    directory [housing_characteristics] of the output directory is removed
    and copied afresh from the project, and buildstock.csv is moved into
    it. [rmtree] refuses a plain file, [copytree] a source that is not
    there, [shutil.move] a destination that exists and, after that test, a
    file that is not there. The image named in the argument list is in
    place since the constructor read [self.singularity_image]. *)
Definition PeregrineBatch_run_sampling (n_datapoints : nat) (fs : gmap string string)
  : result (gmap string string) :=
  buildstock_csv ← singularity_sampling (run_sampling_args n_datapoints);
  let destination_dir := "housing_characteristics" in
  fs ← (if bool_decide (is_Some (fs !! destination_dir))
        then Raise (OSError destination_dir)
        else Ok (rmtree destination_dir fs));
  src_files ← or_raise (FileNotFoundError destination_dir)
                       project_housing_characteristics;
  let fs := copytree src_files destination_dir fs in
  let real_dst := destination_dir +:+ "/" +:+ "buildstock.csv" in
  if fs_exists real_dst fs then Raise (OSError real_dst)
  else
    buildstock_csv ← or_raise (FileNotFoundError "buildstock.csv") buildstock_csv;
    Ok (<[real_dst := buildstock_csv]> fs).

(** Lines 197-200 of [run_batch]: [self.downselect()] when the
    configuration has the key [downselect], [self.run_sampling()]
    otherwise. *)
Definition sampling_step (downselect_in_cfg : bool) (n_datapoints : nat)
    (fs : gmap string string) : result (gmap string string) :=
  if downselect_in_cfg then downselect fs
  else PeregrineBatch_run_sampling n_datapoints fs.

(** The job dictionaries [run_batch] writes, in order. *)
Definition plan_jobs (n_datapoints n_upgrades : nat) (n_sims_per_job : Z) : list job_d :=
  let all_sims :=
    shuffle (baseline_sims n_datapoints ++ upgrade_sims n_datapoints n_upgrades) in
  number_jobs 1 (islice_batches (Z.to_nat n_sims_per_job) all_sims).

(** [run_batch]; [downselect_in_cfg], [n_datapoints] and [n_upgrades] are
    what it reads from [self.cfg]. *)
Definition run_batch (downselect_in_cfg : bool) (n_datapoints n_upgrades : nat)
    (n_jobs : Z) (nodetype queue allocation : string) (minutes_per_sim : Z)
    (c : cluster) : result cluster :=
  fs ← sampling_step downselect_in_cfg n_datapoints (files c);
  let n_sims := (Z.of_nat n_datapoints * (Z.of_nat n_upgrades + 1))%Z in
  n_sims_per_job ← sims_per_job n_sims n_jobs;
  let jobs := plan_jobs n_datapoints n_upgrades n_sims_per_job in
  let c := mkCluster (fold_left write_job jobs fs) (submitted c) in
  let i := (1 + length jobs)%nat in
  '(jobid, c) ← _queue_jobs n_sims_per_job minutes_per_sim
                  ("1-" +:+ str_of_nat (i - 1)) queue nodetype allocation c;
  Ok (_queue_post_processing jobid allocation c).
End Peregrine.

(** ** The regular expressions of [pick_up_where_left_off] *)

Definition is_digit (c : Ascii.ascii) : bool :=
  (48 <=? Ascii.nat_of_ascii c)%nat && (Ascii.nat_of_ascii c <=? 57)%nat.

Definition is_newline (c : Ascii.ascii) : bool := Ascii.eqb c (Ascii.ascii_of_nat 10).

(** The longest run of digits at the front of [s], and what follows it. *)
Fixpoint span_digits (s : string) : string * string :=
  match s with
  | EmptyString => (EmptyString, EmptyString)
  | String c s' =>
      if is_digit c
      then let '(ds, rest) := span_digits s' in (String c ds, rest)
      else (EmptyString, s)
  end.

(** [s] without the literal [p] at its front. *)
Fixpoint strip_prefix (p s : string) : option string :=
  match p, s with
  | EmptyString, _ => Some s
  | String a p', String b s' => if Ascii.eqb a b then strip_prefix p' s' else None
  | String _ _, EmptyString => None
  end.

Definition str_nonempty (s : string) : bool :=
  match s with
  | EmptyString => false
  | String _ _ => true
  end.

(** [re.match(r'job.out-(\d+)$', filename)]: group 1 on a match. The dot
    takes any character but a newline; [$] holds at the end and before a
    final newline. *)
Definition m_jobout (filename : string) : option string :=
  match strip_prefix "job" filename with
  | Some (String c rest) =>
      if is_newline c then None
      else
        match strip_prefix "out-" rest with
        | Some rest' =>
            let '(ds, tail) := span_digits rest' in
            if str_nonempty ds && (String.eqb tail "" || String.eqb tail newline)
            then Some ds else None
        | None => None
        end
  | _ => None
  end.

(** [re.match(r'job(\d+).json', filename)], as a test. Either the group is
    the whole run of digits and the dot takes the next character, or the
    dot takes the last digit of a run of two or more. *)
Definition m_jobjson (filename : string) : bool :=
  match strip_prefix "job" filename with
  | Some rest =>
      let '(ds, tail) := span_digits rest in
      str_nonempty ds &&
      (match tail with
       | String c tail' => negb (is_newline c) && String.prefix "json" tail'
       | EmptyString => false
       end
       || (2 <=? String.length ds)%nat && String.prefix "json" tail)
  | None => false
  end.

(** The pattern [PBS: job killed: walltime \d+ exceeded limit \d+] at the
    front of [s]. *)
Definition walltime_exceeded_here (s : string) : bool :=
  match strip_prefix "PBS: job killed: walltime " s with
  | Some rest =>
      let '(ds, tail) := span_digits rest in
      str_nonempty ds &&
      match strip_prefix " exceeded limit " tail with
      | Some rest' => str_nonempty (fst (span_digits rest'))
      | None => false
      end
  | None => false
  end.

(** [re.search] of that pattern: a match at some position. *)
Fixpoint walltime_exceeded (s : string) : bool :=
  walltime_exceeded_here s ||
  match s with
  | EmptyString => false
  | String _ s' => walltime_exceeded s'
  end.

(** [int(digits)] *)
Definition int_of_digits (ds : string) : N :=
  match NilEmpty.uint_of_string ds with
  | Some u => N.of_uint u
  | None => 0%N
  end.

Definition str_of_N (n : N) : string := NilZero.string_of_uint (N.to_uint n).

(** [open(path, 'a')] followed by the writes of [text]. *)
Definition append_file (path text : string) (fs : gmap string string)
  : gmap string string :=
  <[path := default "" (fs !! path) +:+ text]> fs.

(** ** [pick_up_where_left_off] *)

Record scan : Type := mkScan {
  scan_files : gmap string string;
  jobs_to_restart : list N;
  n_sims_per_job : nat
}.

Section PickUp.
(** [json.load] on the text of a job file, with the exceptions of a text
    that is not a job dictionary; the scheduler and the paths as above. *)
Variable json_load : string → result job_d.
Variable qsub : list string → result string.
Variable output_dir : string.
Variable peregrine_sh : string.

(** The body of [for filename in os.listdir(self.output_dir)]. *)
Definition scan_file (st : scan) (filename : string) : result scan :=
  match m_jobout filename with
  | Some digits =>
      let array_id := int_of_digits digits in
      logfile_contents ←
        or_raise (FileNotFoundError filename) (scan_files st !! filename);
      if walltime_exceeded logfile_contents
      then
        let fs := append_file (filename +:+ ".bak") (newline +:+ logfile_contents)
                              (scan_files st) in
        Ok (mkScan (delete filename fs) (jobs_to_restart st ++ [array_id])
                   (n_sims_per_job st))
      else Ok st
  | None =>
      if m_jobjson filename
      then
        contents ← or_raise (FileNotFoundError filename) (scan_files st !! filename);
        job ← json_load contents;
        Ok (mkScan (scan_files st) (jobs_to_restart st)
                   (Nat.max (length (batch job)) (n_sims_per_job st)))
      else Ok st
  end.

(** The loop over the listing that [os.listdir] returned, followed by
    [jobs_to_restart.sort()]. *)
Definition scan_output_dir (listing : list string) (fs : gmap string string)
  : result scan :=
  st ← for_each scan_file listing (mkScan fs [] 0);
  Ok (mkScan (scan_files st) (merge_sort N.le (jobs_to_restart st)) (n_sims_per_job st)).

(** [pick_up_where_left_off]; the four settings are those read from
    [cfg['peregrine']] with their defaults. *)
Definition pick_up_where_left_off (listing : list string) (minutes_per_sim : Z)
    (queue nodetype allocation : string) (c : cluster) : result cluster :=
  st ← scan_output_dir listing (files c);
  let c := mkCluster (scan_files st) (submitted c) in
  '(jobid, c) ← _queue_jobs qsub output_dir peregrine_sh
                  (Z.of_nat (n_sims_per_job st)) minutes_per_sim
                  (str_join "," (map str_of_N (jobs_to_restart st)))
                  queue nodetype allocation c;
  Ok (_queue_post_processing output_dir peregrine_sh jobid allocation c).
End PickUp.

(** What [os.listdir] may return for a directory: its names, each once, in
    any order. *)
Definition listdir (fs : gmap string string) (listing : list string) : Prop :=
  NoDup listing ∧ ∀ name, name ∈ listing ↔ is_Some (fs !! name).

(** ** [run_building] *)

(** The results directory: for each simulation directory that exists, its
    entries by path relative to it. *)
Definition sim_id_of (i : nat) (upgrade_idx : option nat) : string :=
  "bldg" +:+ zfill 7 (str_of_nat i) +:+ "up" +:+
  zfill 2 (str_of_nat (match upgrade_idx with
                       | None => 0
                       | Some u => u + 1
                       end)).

Inductive run_event : Type :=
| Rmtree (sim_id : string)
| Simulated (sim_id : string).

Section RunBuilding.
(** [create_osw] followed by [json.dump]; the container run, as a change
    of the mounted simulation directory ([singularity_output.log]
    included); [cleanup_sim_dir]; the base name of the weather
    directory. *)
Variable osw_text : string → nat → option nat → string.
Variable singularity_exec : string → gmap string string → gmap string string.
Variable cleanup_sim_dir : gmap string string → gmap string string.
Variable weather_name : string.

Definition path_exists (entries : gmap string string) (path : string) : bool :=
  bool_decide (is_Some (entries !! path)).

(** Lines 303-363: the simulation of a unit whose directory does not
    exist. *)
Definition simulate (results : gmap string (gmap string string)) (sim_id : string)
    (i : nat) (upgrade_idx : option nat) : gmap string (gmap string string) :=
  let sim_dir : gmap string string := ∅ in
  let sim_dir := <["in.osw" := osw_text sim_id i upgrade_idx]> sim_dir in
  let sim_dir := <["singularity_output.log" := ""]> sim_dir in
  let sim_dir := singularity_exec sim_id sim_dir in
  let sim_dir :=
    fold_left (fun d name => delete name d)
              ["measures"; "seeds"; weather_name; "lib"] sim_dir in
  <[sim_id := cleanup_sim_dir sim_dir]> results.

Definition run_building (results : gmap string (gmap string string)) (i : nat)
    (upgrade_idx : option nat) : gmap string (gmap string string) * list run_event :=
  let sim_id := sim_id_of i upgrade_idx in
  match results !! sim_id with
  | Some sim_dir =>
      if path_exists sim_dir "run/finished.job" then (results, [])
      else if path_exists sim_dir "run/failed.job" then (results, [])
      else (simulate (delete sim_id results) sim_id i upgrade_idx,
            [Rmtree sim_id; Simulated sim_id])
  | None => (simulate results sim_id i upgrade_idx, [Simulated sim_id])
  end.
End RunBuilding.

(** ** [run_job_batch] *)

Section RunJobBatch.
(** [json.load] on the text of a job file, and the collaborators of
    [run_building]. *)
Variable json_load : string → result job_d.
Variable osw_text : string → nat → option nat → string.
Variable singularity_exec : string → gmap string string → gmap string string.
Variable cleanup_sim_dir : gmap string string → gmap string string.
Variable weather_name : string.

(** [parallel(itertools.starmap(run_building_d, units))]: one call of
    [run_building] per unit, taken here in the order of the list; each call
    works on the results directory as the calls before it left it. *)
Definition run_buildings (results : gmap string (gmap string string)) (units : list sim)
  : gmap string (gmap string string) * list run_event :=
  fold_left
    (fun (acc : gmap string (gmap string string) * list run_event) (unit : sim) =>
       let '(results, events) := acc in
       let '(i, upgrade_idx) := unit in
       let '(results', events') :=
         run_building osw_text singularity_exec cleanup_sim_dir weather_name
                      results i upgrade_idx in
       (results', events ++ events'))
    units (results, []).

(** [run_job_batch]: the job file of the array number is opened and
    loaded, then its batch is run. *)
Definition run_job_batch (output_files : gmap string string)
    (results : gmap string (gmap string string)) (job_array_number : nat)
  : result (gmap string (gmap string string) * list run_event) :=
  let job_json_filename := job_json_filename job_array_number in
  contents ← or_raise (FileNotFoundError job_json_filename)
                       (output_files !! job_json_filename);
  args ← json_load contents;
  Ok (run_buildings results (batch args)).
End RunJobBatch.

(** * Vocabulary of the statements *)

(** An entry of the dependency hash with a non-empty dependency list. *)
Definition has_deps (item : string * list string) : bool :=
  match item.2 with
  | [] => false
  | _ :: _ => true
  end.

(** The order [_com_order_tsvs] computes from a dependency hash: the
    attributes with dependencies, then those without, each group in key
    order. *)
Definition dependents_first (dependency_hash : dict (list string)) : list string :=
  map fst (List.filter has_deps dependency_hash) ++
  map fst (List.filter (fun item => negb (has_deps item)) dependency_hash).

(** The position of [x] in a list: [list.index]. *)
Fixpoint index_of (x : string) (xs : list string) : option nat :=
  match xs with
  | [] => None
  | y :: xs' => if String.eqb x y then Some 0%nat else option_map S (index_of x xs')
  end.

(** Two tables of the sampler: "A" has no dependency, "B" depends on "A". *)
Definition tsv_A : DataFrame :=
  mkDataFrame ["Option=x"; "Option=y"] [[CNum 0.5; CNum 0.5]].

Definition tsv_B : DataFrame :=
  mkDataFrame ["Dependency=A"; "Option=p"; "Option=q"]
    [[CStr "x"; CNum 0.25; CNum 0.75];
     [CStr "y"; CNum 0.75; CNum 0.25]].

(** Two tables that depend on each other, and one that names a table that
    does not exist. *)
Definition tsv_cyc_A : DataFrame :=
  mkDataFrame ["Dependency=B"; "Option=x"] [[CStr "p"; CNum 1]].

Definition tsv_cyc_B : DataFrame :=
  mkDataFrame ["Dependency=A"; "Option=p"] [[CStr "x"; CNum 1]].

Definition tsv_dangling : DataFrame :=
  mkDataFrame ["Dependency=Nowhere"; "Option=x"] [[CStr "p"; CNum 1]].

(** The table of [attr] after the dependency loop, under the dependency
    hash reached so far: the "dependency-filtered table". *)
Definition filtered_lookup (tsv_hash : dict DataFrame)
    (sample_dependency_hash : dict pyval) (attr : string) : result DataFrame :=
  tsv_lkup ← dict_item attr tsv_hash;
  deps ← dict_item attr sample_dependency_hash;
  for_each (filter_dependency sample_dependency_hash) (iter_items deps) tsv_lkup.

(** The number of option names line 294 collects. *)
Definition n_options (tsv_lkup : DataFrame) : nat :=
  length (List.filter (str_contains "Option=") (df_columns tsv_lkup)).

(** The option names of a table: what line 294 collects from its headers. *)
Definition option_names (df : DataFrame) : list string :=
  map (str_replace "Option=" "")
      (List.filter (str_contains "Option=") (df_columns df)).

(** [v] is the first option of [tsv_lkup], in column order, whose cumulative
    weight is above [x]: column [j] is named [Option=v], the running sum of
    the row at [j] is above [x], and at no option column before [j] is the
    running sum above [x]. *)
Definition first_exceeding (tsv_lkup : DataFrame) (x : float) (v : string) : Prop :=
  ∃ (weights : list float) (j : nat) (name : string) (c : float),
    numbers (concat (df_values tsv_lkup)) = Ok weights
    ∧ df_columns tsv_lkup !! j = Some name
    ∧ str_contains "Option=" name = true
    ∧ v = str_replace "Option=" "" name
    ∧ cumsum weights !! j = Some c
    ∧ (x <? c)%float = true
    ∧ ∀ (j' : nat) (name' : string) (c' : float),
        (j' < j)%nat → df_columns tsv_lkup !! j' = Some name' →
        str_contains "Option=" name' = true →
        cumsum weights !! j' = Some c' → (x <? c')%float = false.

(** [v] is the option name number [j] of [tsv_lkup], [j] being the first
    position of the row whose running sum is above [x]: the names are
    counted among the option names, the running sums among all the values
    of the row. *)
Definition first_exceeding_by_position (tsv_lkup : DataFrame) (x : float) (v : string)
  : Prop :=
  ∃ (weights : list float) (j : nat) (c : float),
    numbers (concat (df_values tsv_lkup)) = Ok weights
    ∧ option_names tsv_lkup !! j = Some v
    ∧ cumsum weights !! j = Some c
    ∧ (x <? c)%float = true
    ∧ ∀ (j' : nat) (c' : float),
        (j' < j)%nat → cumsum weights !! j' = Some c' → (x <? c')%float = false.

(** The running sum of the weights is above [x] at the column of some
    option. *)
Definition option_column_exceeds (tsv_lkup : DataFrame) (x : float) : Prop :=
  ∃ (weights : list float) (j : nat) (name : string) (c : float),
    numbers (concat (df_values tsv_lkup)) = Ok weights
    ∧ df_columns tsv_lkup !! j = Some name
    ∧ str_contains "Option=" name = true
    ∧ cumsum weights !! j = Some c
    ∧ (x <? c)%float = true.

(** One of the first [n_options] running sums is above [x]. *)
Definition leading_sum_exceeds (tsv_lkup : DataFrame) (x : float) : Prop :=
  ∃ (weights : list float) (j : nat) (c : float),
    numbers (concat (df_values tsv_lkup)) = Ok weights
    ∧ (j < n_options tsv_lkup)%nat
    ∧ cumsum weights !! j = Some c
    ∧ (x <? c)%float = true.

Section Walk.
(** How one attribute gets its value from its one-row table and its
    coordinate. *)
Variable choose : DataFrame → float → string → Prop.
Variable tsv_hash : dict DataFrame.
Variable sample_vector : list float.

(** [walk k ctx attrs vs ctx']: starting at position [k] with dependency
    hash [ctx], every attribute of [attrs] has a filtered table of exactly
    one row and gets the value [choose] gives it; each value is recorded
    in the hash before the next attribute is looked up; [vs] are the
    values and [ctx'] the hash at the end. *)
Inductive walk : nat → dict pyval → list string → list string → dict pyval → Prop :=
| walk_nil k ctx : walk k ctx [] [] ctx
| walk_cons k ctx attr attrs x t v vs ctx' :
    sample_vector !! k = Some x →
    filtered_lookup tsv_hash ctx attr = Ok t →
    df_shape0 t = 1%nat →
    choose t x v →
    walk (S k) (dict_set attr (PStr v) ctx) attrs vs ctx' →
    walk k ctx (attr :: attrs) (v :: vs) ctx'.
End Walk.

(** The walk in which each value is the option name at the first position
    whose running sum is above the coordinate. *)
Definition resolves := walk first_exceeding_by_position.

(** The walk of the code: each value is what lines 293-295 select. *)
Definition selects := walk (fun t x v => select_option t x = Ok v).

(** A table with a count column in front of its only option, and one with
    a count column in front of two options. *)
Definition tsv_counted : DataFrame :=
  mkDataFrame ["Count"; "Option=A"] [[CNum 0.1; CNum 0.9]].

Definition tsv_counted_two : DataFrame :=
  mkDataFrame ["Count"; "Option=A"; "Option=B"] [[CNum 0.1; CNum 0.5; CNum 0.4]].

(** A table of three options whose first two weights add up, in float64, to
    a little more than 0.3. *)
Definition tsv_tenths : DataFrame :=
  mkDataFrame ["Option=a"; "Option=b"; "Option=c"] [[CNum 0.1; CNum 0.2; CNum 0.7]].

(** The text of buildstock.csv a run ends with, or the exception it
    raises. *)
Definition csv_of (r : result sampler_io) : result string :=
  io ← r; Ok (csv_file io).

(** The dependency hash of the tables "A" and "B", and two sample points:
    the rows are the dimensions, the columns the samples. *)
Definition example_dependency_hash : dict (list string) :=
  [("A", []); ("B", ["A"])].

Definition example_matrix : list (list float) :=
  [[0.25; 0.75]; [0.5; 0.1]]%float.

(** "B" without a row for the value "y" of "A", and "B" with two rows for
    the value "x". *)
Definition tsv_B_gap : DataFrame :=
  mkDataFrame ["Dependency=A"; "Option=p"; "Option=q"]
    [[CStr "x"; CNum 0.25; CNum 0.75]].

Definition tsv_B_dup : DataFrame :=
  mkDataFrame ["Dependency=A"; "Option=p"; "Option=q"]
    [[CStr "x"; CNum 0.25; CNum 0.75];
     [CStr "x"; CNum 0.75; CNum 0.25]].

(** The lines a sample appends to the file: one, or none when it is
    rejected. *)
Definition accepted_row (tsv_hash : dict DataFrame)
    (dependency_hash : dict (list string)) (attr_order : list string)
    (sample_matrix : list (list float)) (index : nat) : result (list string) :=
  sample_vector ← sample_column sample_matrix index;
  r ← sample_attrs tsv_hash sample_vector index attr_order 0
        (deepcopy dependency_hash) [];
  Ok (match r with
      | Resolved result_vector => [csv_row_of index result_vector]
      | ReducedToZero _ => []
      end).

(** The lines of the samples of a schedule, an exception counting for
    none. *)
Definition accepted_rows (tsv_hash : dict DataFrame)
    (dependency_hash : dict (list string)) (attr_order : list string)
    (sample_matrix : list (list float)) (schedule : list nat) : list string :=
  schedule ≫= (fun index =>
    match accepted_row tsv_hash dependency_hash attr_order sample_matrix index with
    | Ok rows => rows
    | Raise _ => []
    end).

Definition sample_returns (tsv_hash : dict DataFrame)
    (dependency_hash : dict (list string)) (attr_order : list string)
    (sample_matrix : list (list float)) (index : nat) : Prop :=
  ∃ rows, accepted_row tsv_hash dependency_hash attr_order sample_matrix index = Ok rows.

(** The text made of lines written one after the other. *)
Definition str_concat (lines : list string) : string :=
  fold_right String.append "" lines.

(** Two runs of the sampler end alike: both end with an exception, or both
    leave the header followed by the same lines, up to their order. *)
Definition same_accepted_rows (header : string) (r r' : result sampler_io) : Prop :=
  (∃ e e', r = Raise e ∧ r' = Raise e')
  ∨ (∃ io io' rows rows',
       r = Ok io ∧ r' = Ok io'
       ∧ csv_file io = header +:+ str_concat rows
       ∧ csv_file io' = header +:+ str_concat rows'
       ∧ rows ≡ₚ rows').

(** Modelled from the spec: [sobol_lib.i4_sobol_generate] is not part of the
    two modules; the specification says it yields an N x D point set over
    the unit hyper-cube, so every coordinate is between 0 and 1. *)
Definition unit_hypercube (i4_sobol_generate : nat → nat → nat → list (list float)) : Prop :=
  ∀ n_dims n_samples skip,
    Forall (Forall (fun q => (0 <=? q)%float = true ∧ (q <=? 1)%float = true))
           (i4_sobol_generate n_dims n_samples skip).

(** A point set to run the sampler on: coordinate [i] of every dimension
    is 1, 1/2, 1/4 for the first three and 3/4 from then on, so the first
    one touches the upper bound. *)
Definition example_coordinate (i : nat) : float :=
  match i with
  | 0%nat => 1%float
  | 1%nat => 0.5%float
  | 2%nat => 0.25%float
  | _ => 0.75%float
  end.

Definition example_points (n_dims n_samples skip : nat) : list (list float) :=
  repeat (map (fun i => example_coordinate (i + skip)) (seq 0 n_samples)) n_dims.

(** The header of a run: what [run_sampling] writes before the samples. *)
Definition header_of (tsv_hash : dict DataFrame) : string :=
  match _com_order_tsvs tsv_hash with
  | Ok (_, attr_order) => csv_header attr_order
  | Raise _ => ""
  end.

(** The job number a descriptor file name carries. *)
Definition job_number_of (filename : string) : option nat :=
  match strip_prefix "job" filename with
  | Some rest => Nat.of_uint <$> NilEmpty.uint_of_string (fst (span_digits rest))
  | None => None
  end.

(** The sizes of the batches cut from [len] items, [n] at a time. *)
Fixpoint batch_sizes (fuel n len : nat) : list nat :=
  match fuel with
  | O => []
  | S fuel' =>
      match Nat.min n len with
      | O => []
      | S k => S k :: batch_sizes fuel' n (len - n)
      end
  end.

(** The whole workload of a batch run, before the shuffle. *)
Definition workload (n_datapoints n_upgrades : nat) : list sim :=
  baseline_sims n_datapoints ++ upgrade_sims n_datapoints n_upgrades.

(** A string of decimal digits. *)
Fixpoint only_digits (s : string) : bool :=
  match s with
  | EmptyString => true
  | String c s' => is_digit c && only_digits s'
  end.

(** The first character of [s], if any, is not a digit. *)
Definition no_leading_digit (s : string) : bool :=
  match s with
  | EmptyString => true
  | String c _ => negb (is_digit c)
  end.

(** A log of the listing that the scan finds timed out in the directory
    [fs0]: the digits of its name and its contents. *)
Definition log_timed_out (fs0 : gmap string string) (f : string)
  : option (string * string) :=
  match m_jobout f with
  | Some ds =>
      match fs0 !! f with
      | Some contents => if walltime_exceeded contents then Some (ds, contents) else None
      | None => None
      end
  | None => None
  end.

(** The archiving of one log: its contents go to the end of the [.bak]
    file, after a newline, and the log is removed. *)
Definition archive (f contents : string) (fs : gmap string string)
  : gmap string string :=
  delete f (append_file (f +:+ ".bak") (newline +:+ contents) fs).

(** The directory after the timed-out logs of a listing have been
    archived. *)
Fixpoint archived (fs0 : gmap string string) (l : list string)
    (fs : gmap string string) : gmap string string :=
  match l with
  | [] => fs
  | f :: l' =>
      match log_timed_out fs0 f with
      | Some (_, contents) => archived fs0 l' (archive f contents fs)
      | None => archived fs0 l' fs
      end
  end.

(** The task numbers of the timed-out logs of a listing, in its order. *)
Definition restarts (fs0 : gmap string string) (l : list string) : list N :=
  omap (fun f => (fun p : string * string => int_of_digits p.1) <$> log_timed_out fs0 f) l.

(** A name the scan reads as a job descriptor: the second pattern matches
    and the first does not. *)
Definition is_descriptor (g : string) : bool :=
  match m_jobout g with
  | Some _ => false
  | None => m_jobjson g
  end.

(** A name the scan opens. *)
Definition scanned (g : string) : bool :=
  match m_jobout g with
  | Some _ => true
  | None => m_jobjson g
  end.

(** The scan can read [g]: the file is there and, for a descriptor, its
    JSON loads. *)
Definition readable (json_load : string → result job_d) (fs0 : gmap string string)
    (g : string) : bool :=
  match fs0 !! g with
  | Some contents =>
      if is_descriptor g
      then match json_load contents with
           | Ok _ => true
           | Raise _ => false
           end
      else true
  | None => false
  end.

(** The batch length of a descriptor of the directory. *)
Definition descriptor_size (json_load : string → result job_d)
    (fs0 : gmap string string) (g : string) : option nat :=
  if is_descriptor g
  then match fs0 !! g with
       | Some contents =>
           match json_load contents with
           | Ok job => Some (length (batch job))
           | Raise _ => None
           end
       | None => None
       end
  else None.

(** [max(len(job_d['batch']), n_sims_per_job)] over the descriptors of a
    listing. *)
Definition max_size (json_load : string → result job_d) (fs0 : gmap string string)
    (l : list string) (n : nat) : nat :=
  fold_left (fun n k => Nat.max k n) (omap (descriptor_size json_load fs0) l) n.

(** A stand-in for [json.load] in the examples: a file of [k] characters
    holds a batch of [k] baseline units. *)
Definition toy_json_load (contents : string) : result job_d :=
  Ok (mkJob 0 (repeat (1%nat, None) (String.length contents))).

(** An output directory after a batch: two logs of tasks killed at the
    wall-time limit, one log of a task that ended, the archive of an
    earlier restart, and two job descriptors. *)
Definition example_logs : list (string * string) :=
  [("job.out-10", "=>> PBS: job killed: walltime 3605 exceeded limit 3600");
   ("job.out-1", "Simulation time: 41.50 minutes");
   ("job.out-2", "=>> PBS: job killed: walltime 3611 exceeded limit 3600");
   ("job.out-2.bak", "earlier");
   ("job001.json", "ab");
   ("job002.json", "abc")].

Definition example_output_dir : gmap string string := list_to_map example_logs.

(** The same directory after the resume scan. *)
Definition example_resumed : list (string * string) :=
  [("job.out-10.bak",
    newline +:+ "=>> PBS: job killed: walltime 3605 exceeded limit 3600");
   ("job.out-1", "Simulation time: 41.50 minutes");
   ("job.out-2.bak",
    "earlier" +:+ newline +:+ "=>> PBS: job killed: walltime 3611 exceeded limit 3600");
   ("job001.json", "ab");
   ("job002.json", "abc")].

(** The cluster before the resume, and as the resume leaves it when the
    scheduler answers the job id 77. *)
Definition example_cluster : cluster := mkCluster example_output_dir [].

Definition example_cluster_resumed : cluster :=
  mkCluster (list_to_map example_resumed)
    [["qsub"; "-v"; "PROJECTFILE"; "-q"; "batch-h"; "-A"; "res_stock";
      "-l"; "feature=haswell"; "-l"; "walltime=180"; "-N"; "buildstock";
      "-t"; "2,10"; "-o"; "/scratch/out/job.out"; "peregrine.sh"];
     ["qsub"; "-v"; "PROJECTFILE,POSTPROCESS"; "-W"; "depend=afterokarray:77";
      "-q"; "bigmem"; "-A"; "res_stock"; "-l"; "feature=256GB";
      "-l"; "walltime=1:30:00"; "-N"; "buildstock_post";
      "-o"; "/scratch/out/postprocessing.out"; "peregrine.sh"]].

(** The number at the front of a line of buildstock.csv. *)
Definition row_index_of (csv_row : string) : option nat :=
  Nat.of_uint <$> NilEmpty.uint_of_string (fst (span_digits csv_row)).

(** The unit a simulation directory name stands for: the number after
    [bldg], and the number after [up], where 0 is the baseline and [k + 1]
    the upgrade [k]. *)
Definition unit_of_sim_id (sim_id : string) : option sim :=
  match strip_prefix "bldg" sim_id with
  | Some rest =>
      let '(ds, tail) := span_digits rest in
      match Nat.of_uint <$> NilEmpty.uint_of_string ds, strip_prefix "up" tail with
      | Some i, Some rest' =>
          match Nat.of_uint <$> NilEmpty.uint_of_string (fst (span_digits rest')) with
          | Some O => Some (i, None)
          | Some (S upgrade_idx) => Some (i, Some upgrade_idx)
          | None => None
          end
      | _, _ => None
      end
  | None => None
  end.

(** A simulation directory that holds one of the two markers
    [run_building] looks for. *)
Definition has_marker (sim_dir : gmap string string) : Prop :=
  is_Some (sim_dir !! "run/finished.job") ∨ is_Some (sim_dir !! "run/failed.job").

(** A text that holds the wall-time signature of PBS: the two literals,
    each followed by at least one digit. *)
Definition has_walltime_signature (s : string) : Prop :=
  ∃ pre a b post,
    s = pre +:+ "PBS: job killed: walltime " +:+ a +:+ " exceeded limit " +:+ b +:+ post
    ∧ only_digits a = true ∧ str_nonempty a = true
    ∧ only_digits b = true ∧ str_nonempty b = true.

(** A codec to run the job files through in the examples: a job is
    written as the decimal digits of the code that stdpp's [encode] gives
    its number and batch, and read back with [decode]. *)
Definition example_json_dump (job : job_d) : string :=
  str_of_N (Npos (encode (job_num job, batch job))).

Definition example_json_load (contents : string) : result job_d :=
  match int_of_digits contents with
  | Npos code =>
      match decode code with
      | Some (job_num, batch) => Ok (mkJob job_num batch)
      | None => Raise JSONDecodeError
      end
  | N0 => Raise JSONDecodeError
  end.

(** * Properties *)

(** ** Dictionaries and loops *)

Lemma str_in_true x xs : str_in x xs = true ↔ x ∈ xs.
Proof.
  unfold str_in. rewrite existsb_exists. split.
  - intros (y & Hy & Heq). apply String.eqb_eq in Heq. subst. by apply list_elem_of_In.
  - intros Hx. exists x. split; [by apply list_elem_of_In | apply String.eqb_refl].
Qed.

Lemma str_in_false x xs : str_in x xs = false ↔ x ∉ xs.
Proof.
  rewrite <- str_in_true. destruct (str_in x xs); split; intros; congruence.
Qed.

Lemma dict_get_first {V} k (v : V) (d : dict V) :
  NoDup (dict_keys d) → (k, v) ∈ d → dict_get k d = Some v.
Proof.
  induction d as [|[k' v'] d IH]; simpl; intros Hnd Hin.
  - by apply not_elem_of_nil in Hin.
  - apply NoDup_cons in Hnd as [Hk' Hnd].
    destruct (String.eqb_spec k k') as [->|Hne].
    + apply elem_of_cons in Hin as [Heq|Hin]; [congruence|].
      exfalso. apply Hk'. apply list_elem_of_fmap. by exists (k', v).
    + apply elem_of_cons in Hin as [Heq|Hin]; [congruence|]. by apply IH.
Qed.

Lemma dict_get_key {V} k (d : dict V) :
  k ∈ dict_keys d → is_Some (dict_get k d).
Proof.
  induction d as [|[k' v'] d IH]; simpl; intros Hin.
  - by apply not_elem_of_nil in Hin.
  - destruct (String.eqb_spec k k') as [->|Hne]; [by eexists|].
    apply elem_of_cons in Hin as [Heq|Hin]; [congruence|]. by apply IH.
Qed.

Lemma dict_keys_set {V} k (v : V) (d : dict V) :
  dict_keys (dict_set k v d) =
  if str_in k (dict_keys d) then dict_keys d else dict_keys d ++ [k].
Proof.
  induction d as [|[k' v'] d IH]; simpl; [done|].
  destruct (String.eqb_spec k k') as [->|Hne]; simpl; [done|].
  rewrite IH. unfold dict_keys. by destruct (str_in k (map fst d)).
Qed.

Lemma dict_set_NoDup {V} k (v : V) (d : dict V) :
  NoDup (dict_keys d) → NoDup (dict_keys (dict_set k v d)).
Proof.
  intros Hnd. rewrite dict_keys_set.
  destruct (str_in k (dict_keys d)) eqn:Hin; [done|].
  apply str_in_false in Hin. apply NoDup_app. split_and!; [done| |apply NoDup_singleton].
  intros x Hx Hx'. apply list_elem_of_singleton in Hx'. by subst.
Qed.

(** ** The dependency resolver *)

Lemma build_dependency_hash_loop tsv_hash attrs acc :
  (∀ attr, attr ∈ attrs → attr ∈ dict_keys tsv_hash) →
  NoDup (dict_keys acc) →
  ∃ dependency_hash,
    for_each
      (fun dependency_hash attr =>
         df ← dict_item attr tsv_hash;
         Ok (dict_set attr (tsv_dependencies df) dependency_hash))
      attrs acc = Ok dependency_hash
    ∧ NoDup (dict_keys dependency_hash).
Proof.
  revert acc. induction attrs as [|attr attrs IH]; simpl; intros acc Hin Hnd.
  - by exists acc.
  - destruct (dict_get_key attr tsv_hash) as [df Hdf]; [apply Hin; left|].
    unfold dict_item. rewrite Hdf. simpl.
    apply IH; [intros a Ha; apply Hin; by right|by apply dict_set_NoDup].
Qed.

Lemma build_dependency_hash_ok tsv_hash :
  ∃ dependency_hash,
    build_dependency_hash tsv_hash = Ok dependency_hash
    ∧ NoDup (dict_keys dependency_hash).
Proof. apply build_dependency_hash_loop; [done|apply NoDup_nil_2]. Qed.

Lemma seed_attr_order_loop (d : dict (list string)) items acc :
  (∀ k v, (k, v) ∈ items → dict_get k d = Some v) →
  for_each
    (fun attr_order attr =>
       deps ← dict_item attr d;
       Ok (match deps with
           | [] => attr_order
           | _ :: _ => attr_order ++ [attr]
           end))
    (map fst items) acc
  = Ok (acc ++ map fst (List.filter has_deps items)).
Proof.
  revert acc. induction items as [|[k v] items IH]; simpl; intros acc Hget.
  - by rewrite app_nil_r.
  - unfold dict_item. rewrite (Hget k v); [|left]. simpl.
    rewrite IH; [|intros; apply Hget; by right].
    unfold has_deps at 2. simpl. destruct v; simpl; [done|].
    by rewrite <- app_assoc.
Qed.

Lemma seed_attr_order_ok d :
  NoDup (dict_keys d) →
  seed_attr_order d = Ok (map fst (List.filter has_deps d)).
Proof.
  intros Hnd. unfold seed_attr_order, dict_keys.
  rewrite seed_attr_order_loop; [done|]. intros k v. by apply dict_get_first.
Qed.

Lemma elem_of_filter_keys (f : string * list string → bool) k (d : dict (list string)) :
  k ∈ map fst (List.filter f d) → ∃ v, (k, v) ∈ d ∧ f (k, v) = true.
Proof.
  intros Hin. apply list_elem_of_fmap in Hin as ([k' v] & -> & Hin).
  apply list_elem_of_In, filter_In in Hin as [Hin Hf].
  exists v. split; [by apply list_elem_of_In|done].
Qed.

Lemma order_pass_loop (d : dict (list string)) pre suf :
  d = pre ++ suf →
  NoDup (dict_keys d) →
  for_each
    (fun attr_order attr =>
       if str_in attr attr_order then Ok attr_order
       else
         deps ← dict_item attr d;
         Ok (if dependencies_met deps attr_order
             then attr_order ++ [attr] else attr_order))
    (map fst suf)
    (map fst (List.filter has_deps d)
       ++ map fst (List.filter (fun item => negb (has_deps item)) pre))
  = Ok (dependents_first d).
Proof.
  revert pre. induction suf as [|[k v] suf IH]; intros pre Hd Hnd.
  - rewrite app_nil_r in Hd. by subst.
  - simpl.
    assert (Hkv : (k, v) ∈ d) by (subst d; apply elem_of_app; right; left).
    assert (Hget : dict_get k d = Some v) by by apply dict_get_first.
    assert (Hpre : d = (pre ++ [(k, v)]) ++ suf) by by rewrite <- app_assoc.
    specialize (IH _ Hpre Hnd). rewrite List.filter_app, map_app in IH. simpl in IH.
    destruct (has_deps (k, v)) eqn:Hdeps; simpl in IH.
    + rewrite app_nil_r in IH.
      assert (Hin : k ∈ map fst (List.filter has_deps d)).
      { apply list_elem_of_fmap. exists (k, v). split; [done|].
        apply list_elem_of_In, filter_In. split; [by apply list_elem_of_In|done]. }
      assert (str_in k (map fst (List.filter has_deps d)
                ++ map fst (List.filter (fun item => negb (has_deps item)) pre)) = true)
        as -> by (apply str_in_true, elem_of_app; by left).
      done.
    + assert (v = []) as -> by (unfold has_deps in Hdeps; simpl in Hdeps; by destruct v).
      assert (str_in k (map fst (List.filter has_deps d)
                ++ map fst (List.filter (fun item => negb (has_deps item)) pre)) = false)
        as ->.
      { apply str_in_false. intros Hin. apply elem_of_app in Hin as [Hin|Hin].
        - apply elem_of_filter_keys in Hin as (v' & Hin & Hv').
          rewrite (dict_get_first _ _ _ Hnd Hin) in Hget.
          injection Hget as ->. done.
        - apply elem_of_filter_keys in Hin as (v' & Hin & _).
          subst d. unfold dict_keys in Hnd. rewrite map_app in Hnd.
          apply NoDup_app in Hnd as (_ & Hdisj & _).
          apply (Hdisj k); [apply list_elem_of_fmap; by exists (k, v')|by left]. }
      unfold dict_item. rewrite Hget. simpl.
      by rewrite <- app_assoc.
Qed.

Lemma order_pass_ok d :
  NoDup (dict_keys d) →
  order_pass d (map fst (List.filter has_deps d)) = Ok (dependents_first d).
Proof.
  intros Hnd. unfold order_pass, dict_keys.
  rewrite <- (order_pass_loop d [] d eq_refl Hnd). simpl. by rewrite app_nil_r.
Qed.

Lemma dependents_first_length (d : dict (list string)) :
  length (dependents_first d) = length (dict_keys d).
Proof.
  unfold dependents_first, dict_keys. rewrite length_app, !length_map.
  induction d as [|item d IH]; simpl; [done|].
  destruct (has_deps item); simpl; lia.
Qed.

(** For every set of tables, [_com_order_tsvs] returns, on its first pass:
    the attributes with dependencies come first, those without follow. *)
Lemma com_order_tsvs_returns tsv_hash :
  ∃ dependency_hash,
    build_dependency_hash tsv_hash = Ok dependency_hash
    ∧ _com_order_tsvs tsv_hash = Ok (dependency_hash, dependents_first dependency_hash).
Proof.
  destruct (build_dependency_hash_ok tsv_hash) as (d & Hd & Hnd).
  exists d. split; [done|]. unfold _com_order_tsvs. rewrite Hd. simpl.
  rewrite (seed_attr_order_ok _ Hnd). simpl.
  rewrite (order_pass_ok _ Hnd). simpl.
  by rewrite dependents_first_length, Nat.eqb_refl.
Qed.

Lemma dict_get_elem {V} k (v : V) (d : dict V) : dict_get k d = Some v → (k, v) ∈ d.
Proof.
  induction d as [|[k' v'] d IH]; simpl; [done|].
  destruct (String.eqb_spec k k') as [->|Hne].
  - intros [= ->]. by left.
  - intros H. right. by apply IH.
Qed.

Lemma index_of_app_l x (xs ys : list string) :
  x ∈ xs → ∃ i, index_of x (xs ++ ys) = Some i ∧ (i < length xs)%nat.
Proof.
  induction xs as [|y xs IH]; intros Hx; [by apply not_elem_of_nil in Hx|]. simpl.
  destruct (String.eqb_spec x y) as [->|Hne]; [exists 0%nat; split; [done|lia]|].
  apply elem_of_cons in Hx as [?|Hx]; [done|].
  destruct (IH Hx) as (i & -> & Hi). exists (S i). split; [done|lia].
Qed.

Lemma index_of_app_r x (xs ys : list string) :
  x ∉ xs → x ∈ ys → ∃ j, index_of x (xs ++ ys) = Some j ∧ (length xs <= j)%nat.
Proof.
  intros Hx Hy. induction xs as [|y xs IH]; simpl.
  - destruct (index_of_app_l x ys [] Hy) as (j & Hj & _). rewrite app_nil_r in Hj.
    exists j. split; [done|lia].
  - apply not_elem_of_cons in Hx as [Hne Hx].
    destruct (String.eqb_spec x y) as [->|_]; [done|].
    destruct (IH Hx) as (j & -> & Hj). exists (S j). split; [done|lia].
Qed.

(** The ordering is wrong whenever there is something to order: an
    attribute that depends on a dependency-free attribute is placed before
    it. *)
Lemma com_order_tsvs_dependency_comes_later tsv_hash dependency_hash attr_order
    attr deps dep :
  _com_order_tsvs tsv_hash = Ok (dependency_hash, attr_order) →
  dict_get attr dependency_hash = Some deps →
  dep ∈ deps →
  dict_get dep dependency_hash = Some [] →
  ∃ i j, index_of attr attr_order = Some i ∧ index_of dep attr_order = Some j
         ∧ (i < j)%nat.
Proof.
  intros Hrun Hattr Hdep Hfree.
  destruct (build_dependency_hash_ok tsv_hash) as (d & Hd & Hnd).
  destruct (com_order_tsvs_returns tsv_hash) as (d' & Hd' & Hret).
  assert (d' = d) as -> by congruence.
  rewrite Hret in Hrun. injection Hrun as <- <-. unfold dependents_first.
  destruct (index_of_app_l attr (map fst (List.filter has_deps d))
              (map fst (List.filter (fun item => negb (has_deps item)) d)))
    as (i & Hi & Hilt).
  { apply list_elem_of_fmap. exists (attr, deps). split; [done|].
    apply list_elem_of_In, filter_In. split; [by apply list_elem_of_In, dict_get_elem|].
    unfold has_deps. simpl. destruct deps; [by apply not_elem_of_nil in Hdep|done]. }
  destruct (index_of_app_r dep (map fst (List.filter has_deps d))
              (map fst (List.filter (fun item => negb (has_deps item)) d)))
    as (j & Hj & Hjge).
  { intros Hin. apply elem_of_filter_keys in Hin as (v & Hin & Hv).
    rewrite (dict_get_first _ _ _ Hnd Hin) in Hfree. by injection Hfree as ->. }
  { apply list_elem_of_fmap. exists (dep, []). split; [done|].
    apply list_elem_of_In, filter_In. split; [by apply list_elem_of_In, dict_get_elem|done]. }
  exists i, j. split_and!; [done..|lia].
Qed.

(** C1. The claim: for an acyclic dependency mapping whose dependencies are
    all keys, the order returned by [_com_order_tsvs] places every attribute
    after the attributes it depends on. The code does not: for the tables
    "A" (no dependency) and "B" (depends on "A") it returns "B" at index 0
    and "A" at index 1, because the order is seeded with the attributes that
    have dependencies. *)
Theorem com_order_tsvs_puts_dependent_first :
  ∃ dependency_hash attr_order,
    _com_order_tsvs [("A", tsv_A); ("B", tsv_B)] = Ok (dependency_hash, attr_order)
    ∧ dependency_hash = [("A", []); ("B", ["A"])]
    ∧ attr_order = ["B"; "A"]
    ∧ index_of "B" attr_order = Some 0%nat
    ∧ index_of "A" attr_order = Some 1%nat.
Proof. eexists _, _. split; [vm_compute; reflexivity|]. by repeat split. Qed.

(** C2. The claim: a cyclic mapping, or one that names an attribute that
    does not exist, makes [_com_order_tsvs] raise the "Unable to resolve the
    dependency tree" error. The code never raises it: after the seeding and
    one pass every key is in the order, so the loop leaves at once. Two
    tables depending on each other are returned in key order, so is a table
    whose dependency does not exist, and every input returns. *)
Theorem com_order_tsvs_never_reports_a_cycle :
  _com_order_tsvs [("A", tsv_cyc_A); ("B", tsv_cyc_B)]
    = Ok ([("A", ["B"]); ("B", ["A"])], ["A"; "B"])
  ∧ _com_order_tsvs [("A", tsv_dangling)] = Ok ([("A", ["Nowhere"])], ["A"])
  ∧ ∀ tsv_hash, ∃ dependency_hash attr_order,
      _com_order_tsvs tsv_hash = Ok (dependency_hash, attr_order).
Proof.
  split; [vm_compute; reflexivity|]. split; [vm_compute; reflexivity|].
  intros tsv_hash. destruct (com_order_tsvs_returns tsv_hash) as (d & _ & Hd).
  by eexists _, _.
Qed.

(** ** The conditional sampler *)

(** Element 0 of [compress data selectors] is the item at the first
    position selected. *)
Lemma compress_first {A} (data : list A) (selectors : list bool) j d :
  data !! j = Some d →
  selectors !! j = Some true →
  (∀ j', (j' < j)%nat → selectors !! j' = Some false) →
  head (compress data selectors) = Some d.
Proof.
  revert data selectors. induction j as [|j IH]; intros [|d0 data] [|s selectors];
    simpl; intros Hd Hs Hbefore; try done.
  - by simplify_eq.
  - specialize (Hbefore 0%nat ltac:(lia)) as H0. simpl in H0. simplify_eq.
    apply IH; [done..|]. intros j' Hj'. apply (Hbefore (S j')). lia.
Qed.

(** [compress data selectors] has an element 0 exactly when a position
    inside [data] is selected. *)
Lemma compress_head_iff {A} (data : list A) (selectors : list bool) :
  is_Some (head (compress data selectors)) ↔
  ∃ j, (j < length data)%nat ∧ selectors !! j = Some true.
Proof.
  revert selectors. induction data as [|d data IH]; intros [|s selectors]; simpl.
  - split; [by intros [? ?]|intros (j & Hj & _); lia].
  - split; [by intros [? ?]|intros (j & Hj & _); lia].
  - split; [by intros [? ?]|by intros (j & _ & ?)].
  - destruct s; simpl.
    + split; [intros _; exists 0%nat; split; [lia|done]|by eexists].
    + rewrite IH. split.
      * intros (j & Hj & Hs). exists (S j). split; [lia|done].
      * intros ([|j] & Hj & Hs); [done|]. exists j. split; [lia|done].
Qed.

Lemma filter_all_true {A} (f : A → bool) (l : list A) :
  Forall (fun a => f a = true) l → List.filter f l = l.
Proof.
  induction 1 as [|a l Ha _ IH]; simpl; [done|]. by rewrite Ha, IH.
Qed.

(** Element 0 of [compress data selectors], when there is one, is the item
    at the first position selected. *)
Lemma compress_head_inv {A} (data : list A) (selectors : list bool) d :
  head (compress data selectors) = Some d →
  ∃ j, data !! j = Some d ∧ selectors !! j = Some true
       ∧ ∀ j', (j' < j)%nat → selectors !! j' = Some false.
Proof.
  revert selectors. induction data as [|d0 data IH]; intros [|s selectors]; simpl;
    try done.
  destruct s; simpl.
  - intros [= <-]. exists 0%nat. split_and!; [done..|]. intros j' Hj'. lia.
  - intros H. apply IH in H as (j & Hd & Hs & Hbefore).
    exists (S j). split_and!; [done..|].
    intros [|j'] Hj'; [done|]. apply Hbefore. lia.
Qed.

(** Lines 293-295 return the option name at the first position whose
    running sum is above the coordinate, and nothing else. *)
Lemma select_option_by_position tsv_lkup x v :
  select_option tsv_lkup x = Ok v ↔ first_exceeding_by_position tsv_lkup x v.
Proof.
  unfold select_option, first_exceeding_by_position, option_names, first_item. split.
  - destruct (numbers (concat (df_values tsv_lkup))) as [weights|e]; simpl; [|done].
    destruct (head _) as [v'|] eqn:Hhead; simpl; [|done]. intros [= ->].
    apply compress_head_inv in Hhead as (j & Hv & Hflag & Hbefore).
    rewrite list_lookup_fmap in Hflag.
    destruct (cumsum weights !! j) as [c|] eqn:Hc; simpl in Hflag; [|done].
    injection Hflag as Hflag.
    exists weights, j, c. split_and!; [done..|].
    intros j' c' Hj' Hc'. specialize (Hbefore j' Hj').
    rewrite list_lookup_fmap, Hc' in Hbefore. simpl in Hbefore. by injection Hbefore.
  - intros (weights & j & c & -> & Hv & Hc & Hlt & Hbefore). simpl.
    erewrite compress_first; [done|done| |].
    + rewrite list_lookup_fmap, Hc. simpl. by rewrite <- Hlt.
    + intros j' Hj'. rewrite list_lookup_fmap.
      destruct (cumsum weights !! j') as [c'|] eqn:Hc'; simpl.
      * f_equal. by eapply Hbefore.
      * apply lookup_ge_None in Hc'. apply lookup_lt_Some in Hc. lia.
Qed.

(** When every remaining column is an option column, the option at the
    first position whose running sum is above the coordinate is the first
    option whose cumulative weight is. *)
Lemma first_exceeding_by_position_options tsv_lkup x v :
  Forall (fun name => str_contains "Option=" name = true) (df_columns tsv_lkup) →
  first_exceeding_by_position tsv_lkup x v ↔ first_exceeding tsv_lkup x v.
Proof.
  intros Hopt. unfold first_exceeding_by_position, first_exceeding, option_names.
  rewrite (filter_all_true _ _ Hopt). split.
  - intros (weights & j & c & Hw & Hv & Hc & Hlt & Hbefore).
    rewrite list_lookup_fmap in Hv.
    destruct (df_columns tsv_lkup !! j) as [name|] eqn:Hname; simpl in Hv; [|done].
    injection Hv as <-. exists weights, j, name, c. split_and!; try done.
    + rewrite Forall_forall in Hopt. apply Hopt. by eapply list_elem_of_lookup_2.
    + intros j' name' c' Hj' _ _ Hc'. by eapply Hbefore.
  - intros (weights & j & name & c & Hw & Hname & _ & -> & Hc & Hlt & Hbefore).
    exists weights, j, c. split_and!; try done.
    + by rewrite list_lookup_fmap, Hname.
    + intros j' c' Hj' Hc'.
      destruct (lookup_lt_is_Some_2 (df_columns tsv_lkup) j') as [name' Hname'].
      { apply lookup_lt_Some in Hname. lia. }
      eapply Hbefore; [done..| |done].
      rewrite Forall_forall in Hopt. apply Hopt. by eapply list_elem_of_lookup_2.
Qed.

(** The two readings of "the running sum is above the coordinate at an
    option" agree when every remaining column is an option column. *)
Lemma leading_sum_exceeds_options tsv_lkup x :
  Forall (fun name => str_contains "Option=" name = true) (df_columns tsv_lkup) →
  leading_sum_exceeds tsv_lkup x ↔ option_column_exceeds tsv_lkup x.
Proof.
  intros Hopt. unfold leading_sum_exceeds, option_column_exceeds, n_options.
  rewrite (filter_all_true _ _ Hopt). split.
  - intros (weights & j & c & Hw & Hj & Hc & Hlt).
    destruct (lookup_lt_is_Some_2 _ _ Hj) as [name Hname].
    exists weights, j, name, c. split_and!; try done.
    rewrite Forall_forall in Hopt. apply Hopt.
    by eapply list_elem_of_lookup_2.
  - intros (weights & j & name & c & Hw & Hname & _ & Hc & Hlt).
    exists weights, j, c. split_and!; try done. by eapply lookup_lt_Some.
Qed.

Lemma walk_weaken (choose choose' : DataFrame → float → string → Prop)
    tsv_hash sample_vector k ctx attrs vs ctx' :
  (∀ t x v, choose t x v → choose' t x v) →
  walk choose tsv_hash sample_vector k ctx attrs vs ctx' →
  walk choose' tsv_hash sample_vector k ctx attrs vs ctx'.
Proof.
  intros Himp. induction 1; econstructor; eauto.
Qed.

Lemma resolves_selects tsv_hash sample_vector k ctx attrs vs ctx' :
  resolves tsv_hash sample_vector k ctx attrs vs ctx' →
  selects tsv_hash sample_vector k ctx attrs vs ctx'.
Proof. apply walk_weaken. intros t x v. apply select_option_by_position. Qed.

Lemma walk_length choose tsv_hash sample_vector k ctx attrs vs ctx' :
  walk choose tsv_hash sample_vector k ctx attrs vs ctx' → length vs = length attrs.
Proof. induction 1; simpl; congruence. Qed.

(** One turn of the [for attr_index] loop, once the coordinate and the
    filtered table are known. *)
Lemma sample_attrs_step tsv_hash sample_vector sample_index attr attrs k ctx rv x t :
  sample_vector !! k = Some x →
  filtered_lookup tsv_hash ctx attr = Ok t →
  sample_attrs tsv_hash sample_vector sample_index (attr :: attrs) k ctx rv =
  match df_shape0 t with
  | 0%nat => Ok (ReducedToZero (mkWarning attr sample_index ctx))
  | 1%nat =>
      attr_result ← select_option t x;
      sample_attrs tsv_hash sample_vector sample_index attrs (S k)
        (dict_set attr (PStr attr_result) ctx) (rv ++ [attr_result])
  | _ => Raise (RuntimeError (not_one_row_message attr sample_index))
  end.
Proof.
  intros Hx Ht. unfold filtered_lookup in Ht. simpl.
  destruct (dict_item attr tsv_hash) as [t0|e]; simpl in *; [|done].
  rewrite Hx. simpl.
  destruct (dict_item attr ctx) as [deps|e]; simpl in *; [|done].
  rewrite Ht. simpl. done.
Qed.

(** The loop follows a walk: after the attributes of the walk it goes on
    from the hash and the values the walk ends with. *)
Lemma sample_attrs_walk tsv_hash sample_vector sample_index k ctx pre vs ctx' :
  selects tsv_hash sample_vector k ctx pre vs ctx' →
  ∀ rest rv,
    sample_attrs tsv_hash sample_vector sample_index (pre ++ rest) k ctx rv =
    sample_attrs tsv_hash sample_vector sample_index rest (k + length pre) ctx' (rv ++ vs).
Proof.
  induction 1 as [k ctx|k ctx attr attrs x t v vs ctx' Hx Ht Hone Hsel _ IH];
    intros rest rv.
  - simpl. by rewrite Nat.add_0_r, app_nil_r.
  - rewrite <- app_comm_cons.
    rewrite (sample_attrs_step _ _ _ _ _ _ _ _ _ _ Hx Ht), Hone, Hsel. simpl.
    rewrite IH. f_equal; [lia|]. by rewrite <- app_assoc.
Qed.

Lemma str_app_cons (x : Ascii.ascii) (a b : string) :
  String x a +:+ b = String x (a +:+ b).
Proof. reflexivity. Qed.

Lemma str_app_nil_l (b : string) : "" +:+ b = b.
Proof. reflexivity. Qed.

Lemma str_app_assoc (a b c : string) : (a +:+ b) +:+ c = a +:+ (b +:+ c).
Proof.
  induction a as [|x a IH]; [done|]. by rewrite !str_app_cons, IH.
Qed.

Lemma str_app_nil_r (a : string) : a +:+ "" = a.
Proof.
  induction a as [|x a IH]; [done|]. by rewrite str_app_cons, IH.
Qed.

Lemma str_drop_last_snoc (s : string) (c : Ascii.ascii) :
  str_drop_last (s +:+ String c "") = s.
Proof.
  induction s as [|x s IH]; [done|].
  rewrite str_app_cons. cbn [str_drop_last]. rewrite IH. by destruct s.
Qed.

Lemma str_join_cons_cons sep (a b : string) (rest : list string) :
  str_join sep ((a +:+ sep +:+ b) :: rest) = str_join sep (a :: b :: rest).
Proof.
  destruct rest as [|c rest]; simpl; [done|]. by rewrite !str_app_assoc.
Qed.

(** Lines 298-301 build the comma-separated line of the 1-based index and
    the values. *)
Lemma csv_row_of_join sample_index result_vector :
  csv_row_of sample_index result_vector =
  str_join "," (str_of_nat (sample_index + 1) :: result_vector) +:+ newline.
Proof.
  unfold csv_row_of. f_equal.
  generalize (str_of_nat (sample_index + 1)) as h.
  induction result_vector as [|v vs IH]; intros h.
  - simpl. apply str_drop_last_snoc.
  - cbn [fold_left]. rewrite <- str_join_cons_cons, <- IH.
    by rewrite !str_app_assoc.
Qed.

Lemma for_each_app {A S} (body : S → A → result S) (xs ys : list A) (s : S) :
  for_each body (xs ++ ys) s = (s' ← for_each body xs s; for_each body ys s').
Proof.
  revert s. induction xs as [|x xs IH]; intros s; simpl; [done|].
  destruct (body s x); simpl; [apply IH|done].
Qed.

(** What a sample does to the file does not depend on the warnings emitted
    before it. *)
Lemma execute_sample_csv tsv_hash dependency_hash attr_order sample_matrix index io io' :
  csv_file io = csv_file io' →
  csv_of (_com_execute_sample tsv_hash dependency_hash attr_order sample_matrix index io)
  = csv_of (_com_execute_sample tsv_hash dependency_hash attr_order sample_matrix index io').
Proof.
  intros Hcsv. unfold _com_execute_sample.
  destruct (sample_column sample_matrix index) as [sv|e]; simpl; [|done].
  destruct (sample_attrs _ _ _ _ _ _ _) as [[rv|w]|e]; simpl; by rewrite ?Hcsv.
Qed.

Lemma run_samples_csv tsv_hash dependency_hash attr_order sample_matrix schedule io io' :
  csv_file io = csv_file io' →
  csv_of (run_samples tsv_hash dependency_hash attr_order sample_matrix schedule io)
  = csv_of (run_samples tsv_hash dependency_hash attr_order sample_matrix schedule io').
Proof.
  revert io io'. unfold run_samples.
  induction schedule as [|index schedule IH]; intros io io' Hcsv; simpl.
  - by rewrite Hcsv.
  - pose proof (execute_sample_csv tsv_hash dependency_hash attr_order sample_matrix
                  index io io' Hcsv) as Hstep.
    destruct (_com_execute_sample _ _ _ _ index io) as [io1|e1],
             (_com_execute_sample _ _ _ _ index io') as [io1'|e1'];
      simpl in *; try done. apply IH. congruence.
Qed.

(** The sample whose walk reaches [attr] with the hash [ctx], having given
    the attributes before it the values [vs]. *)
Lemma execute_sample_reaches tsv_hash dependency_hash attr_order sample_matrix
    sample_index sample_vector pre attr post vs ctx x t io :
  sample_column sample_matrix sample_index = Ok sample_vector →
  attr_order = pre ++ attr :: post →
  selects tsv_hash sample_vector 0 (deepcopy dependency_hash) pre vs ctx →
  sample_vector !! length pre = Some x →
  filtered_lookup tsv_hash ctx attr = Ok t →
  _com_execute_sample tsv_hash dependency_hash attr_order sample_matrix sample_index io =
  (r ← match df_shape0 t with
       | 0%nat => Ok (ReducedToZero (mkWarning attr sample_index ctx))
       | 1%nat =>
           attr_result ← select_option t x;
           sample_attrs tsv_hash sample_vector sample_index post (S (length pre))
             (dict_set attr (PStr attr_result) ctx) (vs ++ [attr_result])
       | _ => Raise (RuntimeError (not_one_row_message attr sample_index))
       end;
   match r with
   | ReducedToZero w => Ok (mkIO (csv_file io) (warnings io ++ [w]))
   | Resolved result_vector =>
       Ok (mkIO (csv_file io +:+ csv_row_of sample_index result_vector) (warnings io))
   end).
Proof.
  intros Hsv -> Hwalk Hx Ht. unfold _com_execute_sample. rewrite Hsv. simpl.
  rewrite (sample_attrs_walk _ _ sample_index _ _ _ _ _ Hwalk).
  rewrite Nat.add_0_l, app_nil_l.
  by rewrite (sample_attrs_step _ _ _ _ _ _ _ _ _ _ Hx Ht).
Qed.

Lemma run_samples_app tsv_hash dependency_hash attr_order sample_matrix before after io :
  run_samples tsv_hash dependency_hash attr_order sample_matrix (before ++ after) io =
  (io' ← run_samples tsv_hash dependency_hash attr_order sample_matrix before io;
   run_samples tsv_hash dependency_hash attr_order sample_matrix after io').
Proof. apply for_each_app. Qed.

(** A sample that raises ends the run, whatever was sampled before it. *)
Lemma run_samples_raises tsv_hash dependency_hash attr_order sample_matrix index e :
  (∀ io, _com_execute_sample tsv_hash dependency_hash attr_order sample_matrix index io
         = Raise e) →
  ∀ before after io io',
    run_samples tsv_hash dependency_hash attr_order sample_matrix before io = Ok io' →
    run_samples tsv_hash dependency_hash attr_order sample_matrix
                (before ++ index :: after) io = Raise e.
Proof.
  intros Hraise before after io io' Hbefore.
  rewrite run_samples_app, Hbefore. simpl. unfold run_samples. simpl.
  by rewrite Hraise.
Qed.

(** A sample that leaves the file as it is can be taken out of the run
    without a change to the file. *)
Lemma run_samples_skips tsv_hash dependency_hash attr_order sample_matrix index :
  (∀ io, csv_of (_com_execute_sample tsv_hash dependency_hash attr_order sample_matrix
                   index io) = Ok (csv_file io)) →
  ∀ before after io,
    csv_of (run_samples tsv_hash dependency_hash attr_order sample_matrix
              (before ++ index :: after) io)
    = csv_of (run_samples tsv_hash dependency_hash attr_order sample_matrix
                (before ++ after) io).
Proof.
  intros Hskip before after io. rewrite !run_samples_app.
  destruct (run_samples _ _ _ _ before io) as [io1|e]; simpl; [|done].
  specialize (Hskip io1). unfold run_samples at 1. simpl.
  destruct (_com_execute_sample _ _ _ _ index io1) as [io2|e]; simpl in *; [|done].
  apply run_samples_csv. congruence.
Qed.

(** C3. When the walk of a sample reaches an attribute whose
    dependency-filtered table has no row, [_com_execute_sample] returns
    without raising: the file is left as it was, one warning carrying the
    attribute, the sample index and the dependency hash is emitted, and the
    file a run ends with is the one it ends with when that sample is left
    out. When the filtered table has more than one row, the sample raises
    the "Unable to reduce tsv ... to 1 row" error and so does every run
    that gets to it. *)
Theorem execute_sample_zero_or_many_rows tsv_hash dependency_hash attr_order
    sample_matrix sample_index sample_vector pre attr post vs ctx x t :
  sample_column sample_matrix sample_index = Ok sample_vector →
  attr_order = pre ++ attr :: post →
  selects tsv_hash sample_vector 0 (deepcopy dependency_hash) pre vs ctx →
  sample_vector !! length pre = Some x →
  filtered_lookup tsv_hash ctx attr = Ok t →
  (df_shape0 t = 0%nat →
     (∀ io, _com_execute_sample tsv_hash dependency_hash attr_order sample_matrix
              sample_index io
            = Ok (mkIO (csv_file io)
                       (warnings io ++ [mkWarning attr sample_index ctx])))
     ∧ ∀ before after io,
         csv_of (run_samples tsv_hash dependency_hash attr_order sample_matrix
                   (before ++ sample_index :: after) io)
         = csv_of (run_samples tsv_hash dependency_hash attr_order sample_matrix
                     (before ++ after) io))
  ∧ ((1 < df_shape0 t)%nat →
     (∀ io, _com_execute_sample tsv_hash dependency_hash attr_order sample_matrix
              sample_index io
            = Raise (RuntimeError (not_one_row_message attr sample_index)))
     ∧ ∀ before after io io',
         run_samples tsv_hash dependency_hash attr_order sample_matrix before io = Ok io' →
         run_samples tsv_hash dependency_hash attr_order sample_matrix
                     (before ++ sample_index :: after) io
         = Raise (RuntimeError (not_one_row_message attr sample_index))).
Proof.
  intros Hsv Horder Hwalk Hx Ht.
  pose proof (fun io => execute_sample_reaches tsv_hash dependency_hash attr_order
                sample_matrix sample_index sample_vector pre attr post vs ctx x t io
                Hsv Horder Hwalk Hx Ht) as Hreach.
  split.
  - intros Hzero. rewrite Hzero in Hreach. simpl in Hreach.
    split; [done|]. apply run_samples_skips. intros io. by rewrite Hreach.
  - intros Hmany.
    destruct (df_shape0 t) as [|[|n]]; [lia..|]. simpl in Hreach.
    split; [done|]. by apply run_samples_raises.
Qed.

(** A sample whose loop resolves has walked the order: every attribute had
    a filtered table of one row, under the hash that holds the values
    selected before it. *)
Lemma sample_attrs_selects tsv_hash sample_vector sample_index attrs :
  ∀ k ctx rv rv',
    sample_attrs tsv_hash sample_vector sample_index attrs k ctx rv = Ok (Resolved rv') →
    ∃ vs ctx', rv' = rv ++ vs ∧ selects tsv_hash sample_vector k ctx attrs vs ctx'.
Proof.
  induction attrs as [|attr attrs IH]; intros k ctx rv rv' H.
  - simpl in H. injection H as <-. exists [], ctx. split; [by rewrite app_nil_r|].
    apply walk_nil.
  - destruct (sample_vector !! k) as [x|] eqn:Hx; cycle 1.
    { simpl in H. destruct (dict_item attr tsv_hash); simpl in H; [|done].
      by rewrite Hx in H. }
    destruct (filtered_lookup tsv_hash ctx attr) as [t|e] eqn:Ht; cycle 1.
    { simpl in H. unfold filtered_lookup in Ht.
      destruct (dict_item attr tsv_hash); simpl in *; [|done].
      rewrite Hx in H. simpl in H.
      destruct (dict_item attr ctx); simpl in *; [|done].
      by rewrite Ht in H. }
    rewrite (sample_attrs_step _ _ _ _ _ _ _ _ _ _ Hx Ht) in H.
    destruct (df_shape0 t) as [|[|n]] eqn:Hone; [done| |done].
    destruct (select_option t x) as [v|e] eqn:Hv; simpl in H; [|done].
    apply IH in H as (vs & ctx' & -> & Hwalk).
    exists (v :: vs), ctx'. split; [by rewrite <- app_assoc|].
    by eapply walk_cons.
Qed.



Lemma numbers_flags_lookup (weights : list float) (x : float) (j : nat) :
  map (fun c => float_gt c x) (cumsum weights) !! j = Some true ↔
  ∃ c, cumsum weights !! j = Some c ∧ (x <? c)%float = true.
Proof.
  rewrite list_lookup_fmap. split.
  - destruct (cumsum weights !! j) as [c|]; simpl; [|done].
    intros [= H]. by exists c.
  - intros (c & -> & Hlt). simpl. by rewrite <- Hlt.
Qed.

(** Lines 293-295 on a row of numbers: element 0 exists exactly when one of
    the first [n_options] running sums is above the coordinate, and its
    absence is an [IndexError]. *)
Lemma select_option_cases tsv_lkup x weights :
  numbers (concat (df_values tsv_lkup)) = Ok weights →
  (leading_sum_exceeds tsv_lkup x ↔ ∃ v, select_option tsv_lkup x = Ok v)
  ∧ (¬ leading_sum_exceeds tsv_lkup x → select_option tsv_lkup x = Raise IndexError).
Proof.
  intros Hw.
  assert (Hiff : leading_sum_exceeds tsv_lkup x ↔
    is_Some (head (compress
      (map (str_replace "Option=" "")
           (List.filter (str_contains "Option=") (df_columns tsv_lkup)))
      (map (fun c => float_gt c x) (cumsum weights))))).
  { rewrite compress_head_iff, length_map. unfold leading_sum_exceeds, n_options. split.
    - intros (w & j & c & Hw' & Hj & Hc & Hlt).
      assert (w = weights) as -> by congruence.
      exists j. split; [done|]. apply numbers_flags_lookup. by exists c.
    - intros (j & Hj & Hflag). apply numbers_flags_lookup in Hflag as (c & Hc & Hlt).
      by exists weights, j, c. }
  unfold select_option. rewrite Hw. simpl. unfold first_item.
  destruct (head _) as [v|] eqn:Hhead; simpl.
  - split; [|intros Hn; exfalso; apply Hn, Hiff; by eexists].
    split; [by eexists|]. intros _. apply Hiff. by eexists.
  - split; [|done]. split.
    + intros H. apply Hiff in H as [? ?]. done.
    + intros [v ?]. done.
Qed.

(** C10. Element 0 of [compress(option_values, tsv_lkup_cdf)] is taken
    without a guard. On a surviving row of numbers the selection succeeds
    exactly when one of the first [k] running sums of the row is above the
    coordinate, [k] being the number of headers that contain [Option=]:
    [compress] pairs the option names with the running sums by position.
    Otherwise it raises [IndexError], which nothing catches: the sample
    raises it, and so does every run that gets to the sample. *)
Theorem select_option_unguarded tsv_hash dependency_hash attr_order
    sample_matrix sample_index sample_vector pre attr post vs ctx x t weights :
  sample_column sample_matrix sample_index = Ok sample_vector →
  attr_order = pre ++ attr :: post →
  selects tsv_hash sample_vector 0 (deepcopy dependency_hash) pre vs ctx →
  sample_vector !! length pre = Some x →
  filtered_lookup tsv_hash ctx attr = Ok t →
  df_shape0 t = 1%nat →
  numbers (concat (df_values t)) = Ok weights →
  (leading_sum_exceeds t x ↔ ∃ v, select_option t x = Ok v)
  ∧ (¬ leading_sum_exceeds t x →
       select_option t x = Raise IndexError
       ∧ (∀ io, _com_execute_sample tsv_hash dependency_hash attr_order sample_matrix
                  sample_index io = Raise IndexError)
       ∧ ∀ before after io io',
           run_samples tsv_hash dependency_hash attr_order sample_matrix before io
             = Ok io' →
           run_samples tsv_hash dependency_hash attr_order sample_matrix
                       (before ++ sample_index :: after) io = Raise IndexError).
Proof.
  intros Hsv Horder Hwalk Hx Ht Hone Hw.
  destruct (select_option_cases t x weights Hw) as [Hiff Hraise].
  split; [done|]. intros Hnot. specialize (Hraise Hnot).
  assert (Hsample : ∀ io, _com_execute_sample tsv_hash dependency_hash attr_order
                            sample_matrix sample_index io = Raise IndexError).
  { intros io.
    rewrite (execute_sample_reaches tsv_hash dependency_hash attr_order sample_matrix
               sample_index sample_vector pre attr post vs ctx x t io
               Hsv Horder Hwalk Hx Ht).
    by rewrite Hone, Hraise. }
  split; [done|]. split; [done|]. by apply run_samples_raises.
Qed.

(** C10, as first stated, fails on a table with a count column in front of
    its option: at the coordinate 0.5 the running sum at the column
    [Option=A] is 1, above the coordinate, and yet the selection raises
    [IndexError], because the name "A" is paired with the running sum 0.1
    of the count column. *)
Lemma option_column_exceeds_yet_index_error :
  option_column_exceeds tsv_counted 0.5
  ∧ select_option tsv_counted 0.5 = Raise IndexError
  ∧ ¬ ((∃ v, select_option tsv_counted 0.5 = Ok v)
       ↔ option_column_exceeds tsv_counted 0.5).
Proof.
  assert (Hex : option_column_exceeds tsv_counted 0.5).
  { exists [0.1; 0.9]%float, 1%nat, "Option=A", (0.1 + 0.9)%float.
    split_and!; reflexivity. }
  split; [done|]. split; [reflexivity|].
  intros [_ Hiff]. destruct (Hiff Hex) as [v Hv]. vm_compute in Hv. discriminate.
Qed.

(** Sample 1 of the example walks "A" to "y"; the gapped "B" has no row for
    it. Sample 0 walks "A" to "x"; the doubled "B" has two rows for it. *)
Lemma execute_sample_zero_or_many_rows_witness :
  (sample_column example_matrix 1 = Ok [0.75; 0.1]%float
   ∧ df_shape0 (mkDataFrame ["Option=p"; "Option=q"] []) = 0%nat
   ∧ ∀ io, _com_execute_sample [("A", tsv_A); ("B", tsv_B_gap)] example_dependency_hash
             ["A"; "B"] example_matrix 1 io
           = Ok (mkIO (csv_file io)
                      (warnings io ++
                       [mkWarning "B" 1 [("A", PStr "y"); ("B", PList ["A"])]])))
  ∧ (sample_column example_matrix 0 = Ok [0.25; 0.5]%float
     ∧ ∀ io, _com_execute_sample [("A", tsv_A); ("B", tsv_B_dup)] example_dependency_hash
               ["A"; "B"] example_matrix 0 io
             = Raise (RuntimeError (not_one_row_message "B" 0))).
Proof.
  split.
  - split; [reflexivity|]. split; [reflexivity|].
    refine (proj1 (proj1 (execute_sample_zero_or_many_rows
      [("A", tsv_A); ("B", tsv_B_gap)] example_dependency_hash ["A"; "B"]
      example_matrix 1 [0.75; 0.1]%float ["A"] "B" [] ["y"]
      [("A", PStr "y"); ("B", PList ["A"])] 0.1%float
      (mkDataFrame ["Option=p"; "Option=q"] []) _ _ _ _ _) _)).
    + reflexivity.
    + reflexivity.
    + eapply walk_cons; [reflexivity|reflexivity|reflexivity|reflexivity|apply walk_nil].
    + reflexivity.
    + reflexivity.
    + reflexivity.
  - split; [reflexivity|].
    refine (proj1 (proj2 (execute_sample_zero_or_many_rows
      [("A", tsv_A); ("B", tsv_B_dup)] example_dependency_hash ["A"; "B"]
      example_matrix 0 [0.25; 0.5]%float ["A"] "B" [] ["x"]
      [("A", PStr "x"); ("B", PList ["A"])] 0.5%float
      (mkDataFrame ["Option=p"; "Option=q"]
         [[CNum 0.25; CNum 0.75]; [CNum 0.75; CNum 0.25]]) _ _ _ _ _) _)).
    + reflexivity.
    + reflexivity.
    + eapply walk_cons; [reflexivity|reflexivity|reflexivity|reflexivity|apply walk_nil].
    + reflexivity.
    + reflexivity.
    + unfold df_shape0. simpl. lia.
Defined.


(** The counted table at the coordinate 0.5: its only leading running sum
    is 0.1, so the sample raises [IndexError]. *)
Lemma select_option_unguarded_witness :
  sample_column [[0.5]%float] 0 = Ok [0.5]%float
  ∧ filtered_lookup [("C", tsv_counted)] (deepcopy [("C", [])]) "C" = Ok tsv_counted
  ∧ df_shape0 tsv_counted = 1%nat
  ∧ numbers (concat (df_values tsv_counted)) = Ok [0.1; 0.9]%float
  ∧ ¬ leading_sum_exceeds tsv_counted 0.5
  ∧ ∀ io, _com_execute_sample [("C", tsv_counted)] [("C", [])] ["C"] [[0.5]%float] 0 io
          = Raise IndexError.
Proof.
  assert (Hnot : ¬ leading_sum_exceeds tsv_counted 0.5).
  { intros (w & j & c & Hw & Hj & Hc & Hlt).
    injection Hw as <-. destruct j as [|j]; [|vm_compute in Hj; lia].
    injection Hc as <-. discriminate. }
  split; [reflexivity|]. split; [reflexivity|]. split; [reflexivity|].
  split; [reflexivity|]. split; [exact Hnot|].
  refine (proj1 (proj2 (proj2 (select_option_unguarded
    [("C", tsv_counted)] [("C", [])] ["C"] [[0.5]%float] 0 [0.5]%float [] "C" [] []
    (deepcopy [("C", [])]) 0.5%float tsv_counted [0.1; 0.9]%float _ _ _ _ _ _ _) Hnot))).
  - reflexivity.
  - reflexivity.
  - apply walk_nil.
  - reflexivity.
  - reflexivity.
  - reflexivity.
  - reflexivity.
Defined.

(** ** Reproducibility of a sampling run *)

(** On float64, [q <= 1] without [q == 1] is [q < 1]. *)
Lemma float_le_ne_lt (q r : float) :
  (q <=? r)%float = true → (q =? r)%float = false → (q <? r)%float = true.
Proof.
  rewrite FloatAxioms.leb_spec, FloatAxioms.eqb_spec, FloatAxioms.ltb_spec.
  unfold SFleb, SFeqb, SFltb. by destruct (SFcompare _ _) as [[]|].
Qed.

Lemma replace_one_range q :
  (0 <=? q)%float = true → (q <=? 1)%float = true →
  (0 <=? replace_one q)%float = true ∧ (replace_one q <? 1)%float = true.
Proof.
  intros H0 H1. unfold replace_one. destruct (q =? 1)%float eqn:Heq.
  - split; reflexivity.
  - split; [done|]. by apply float_le_ne_lt.
Qed.

Lemma replace_one_at_bound q :
  (q =? 1)%float = true → replace_one q = 0.999999%float.
Proof. intros Heq. unfold replace_one. by rewrite Heq. Qed.

Lemma sobol_sampling_range gen n_dims n_samples :
  unit_hypercube gen →
  Forall (Forall (fun q => (0 <=? q)%float = true ∧ (q <? 1)%float = true))
         (_com_execute_sobol_sampling gen n_dims n_samples).
Proof.
  intros Hcube. unfold _com_execute_sobol_sampling.
  specialize (Hcube n_dims n_samples 0%nat).
  induction Hcube as [|row rows Hrow _ IH]; simpl; constructor; [|done].
  induction Hrow as [|q qs [H0 H1] _ IHq]; simpl; constructor; [|done].
  by apply replace_one_range.
Qed.

Lemma execute_sample_row tsv_hash dependency_hash attr_order sample_matrix index io :
  csv_of (_com_execute_sample tsv_hash dependency_hash attr_order sample_matrix index io)
  = (rows ← accepted_row tsv_hash dependency_hash attr_order sample_matrix index;
     Ok (csv_file io +:+ str_concat rows)).
Proof.
  unfold _com_execute_sample, accepted_row.
  destruct (sample_column sample_matrix index) as [sv|e]; simpl; [|done].
  destruct (sample_attrs _ _ _ _ _ _ _) as [[rv|w]|e]; simpl; [|by rewrite str_app_nil_r|done].
  by rewrite str_app_nil_r.
Qed.

Lemma str_concat_app (xs ys : list string) :
  str_concat (xs ++ ys) = str_concat xs +:+ str_concat ys.
Proof.
  induction xs as [|x xs IH]; simpl; [done|]. by rewrite IH, str_app_assoc.
Qed.

#[local] Arguments accepted_rows : simpl never.

Lemma accepted_rows_cons tsv_hash dependency_hash attr_order sample_matrix index schedule :
  accepted_rows tsv_hash dependency_hash attr_order sample_matrix (index :: schedule) =
  match accepted_row tsv_hash dependency_hash attr_order sample_matrix index with
  | Ok rows => rows
  | Raise _ => []
  end ++ accepted_rows tsv_hash dependency_hash attr_order sample_matrix schedule.
Proof. reflexivity. Qed.

(** A run over a schedule either meets a sample that raises, or appends the
    lines of its samples in the order of the schedule. *)
Lemma run_samples_rows tsv_hash dependency_hash attr_order sample_matrix schedule :
  ∀ io,
    match run_samples tsv_hash dependency_hash attr_order sample_matrix schedule io with
    | Ok io' =>
        Forall (sample_returns tsv_hash dependency_hash attr_order sample_matrix) schedule
        ∧ csv_file io' = csv_file io +:+
            str_concat (accepted_rows tsv_hash dependency_hash attr_order sample_matrix
                          schedule)
    | Raise _ =>
        ¬ Forall (sample_returns tsv_hash dependency_hash attr_order sample_matrix) schedule
    end.
Proof.
  unfold run_samples. induction schedule as [|index schedule IH]; intros io; simpl.
  - split; [constructor|]. by rewrite str_app_nil_r.
  - pose proof (execute_sample_row tsv_hash dependency_hash attr_order sample_matrix
                  index io) as Hrow.
    destruct (_com_execute_sample _ _ _ _ index io) as [io1|e]; simpl in *.
    + destruct (accepted_row _ _ _ _ index) as [rows|e] eqn:Hrows; simpl in Hrow; [|done].
      injection Hrow as Hcsv. specialize (IH io1).
      destruct (for_each _ schedule io1) as [io2|e].
      * destruct IH as [Hall Hio2]. split; [constructor; [by eexists|done]|].
        rewrite accepted_rows_cons, Hrows.
        by rewrite Hio2, Hcsv, str_concat_app, str_app_assoc.
      * intros Hall. apply IH. by inversion Hall.
    + destruct (accepted_row _ _ _ _ index) as [rows|e'] eqn:Hrows; simpl in Hrow; [done|].
      intros Hall. inversion Hall as [|?? [rows Hok] _]. congruence.
Qed.

(** The order in which the pool runs the samples changes neither whether
    the run ends with an exception nor the set of lines written. *)
Lemma run_samples_schedule tsv_hash dependency_hash attr_order sample_matrix
    schedule schedule' io :
  schedule ≡ₚ schedule' →
  same_accepted_rows (csv_file io)
    (run_samples tsv_hash dependency_hash attr_order sample_matrix schedule io)
    (run_samples tsv_hash dependency_hash attr_order sample_matrix schedule' io).
Proof.
  intros Hperm.
  pose proof (run_samples_rows tsv_hash dependency_hash attr_order sample_matrix
                schedule io) as H1.
  pose proof (run_samples_rows tsv_hash dependency_hash attr_order sample_matrix
                schedule' io) as H2.
  destruct (run_samples _ _ _ _ schedule io) as [io1|e1],
           (run_samples _ _ _ _ schedule' io) as [io2|e2].
  - right. destruct H1 as [_ H1], H2 as [_ H2].
    eexists io1, io2, _, _. split_and!; [done..|].
    unfold accepted_rows. by rewrite Hperm.
  - exfalso. apply H2. rewrite <- Hperm. apply H1.
  - exfalso. apply H1. rewrite Hperm. apply H2.
  - left. by eexists _, _.
Qed.


Lemma example_points_unit_hypercube : unit_hypercube example_points.
Proof.
  intros n_dims n_samples skip. unfold example_points.
  apply Forall_forall. intros row Hrow. apply list_elem_of_In, repeat_spec in Hrow.
  subst row. apply Forall_forall. intros q Hq.
  apply list_elem_of_fmap in Hq as (i & -> & _).
  unfold example_coordinate. by destruct (i + skip)%nat as [|[|[|n]]].
Defined.


(** ** The job partitioner *)

(** [ceil_div] is the ceiling of the quotient. *)
Lemma ceil_div_spec (a b : Z) :
  (0 < b)%Z → (b * (ceil_div a b - 1) < a)%Z ∧ (a <= b * ceil_div a b)%Z.
Proof.
  intros Hb. unfold ceil_div.
  pose proof (Z.mul_div_le (- a) b Hb).
  pose proof (Z.mul_succ_div_gt (- a) b Hb). lia.
Qed.

Lemma take_nil_iff {A} (n : nat) (l : list A) : take n l = [] ↔ Nat.min n (length l) = 0%nat.
Proof.
  split.
  - intros H. apply (f_equal length) in H. by rewrite length_take in H.
  - intros H. apply length_zero_iff_nil. by rewrite length_take.
Qed.

Lemma batches_from_enough {A} (fuel fuel' n : nat) (l : list A) :
  (length l <= fuel)%nat → (length l <= fuel')%nat →
  batches_from fuel n l = batches_from fuel' n l.
Proof.
  revert fuel' l. induction fuel as [|fuel IH]; intros fuel' l Hlen Hlen'.
  - destruct l; [by destruct fuel', n|simpl in Hlen; lia].
  - destruct fuel' as [|fuel'].
    { destruct l; [by destruct n|simpl in Hlen'; lia]. }
    destruct l as [|x l]; [by destruct n|].
    destruct n as [|n]; [done|]. simpl in *. f_equal.
    apply IH; rewrite length_drop; lia.
Qed.

(** The loop of batches: more fuel than items changes nothing. *)
Lemma batches_from_fuel {A} (fuel n : nat) (l : list A) :
  (length l <= fuel)%nat → batches_from fuel n l = islice_batches n l.
Proof. intros Hlen. by apply batches_from_enough. Qed.

Lemma batches_from_concat {A} (fuel n : nat) (l : list A) :
  (0 < n)%nat → (length l <= fuel)%nat → concat (batches_from fuel n l) = l.
Proof.
  intros Hn. revert l. induction fuel as [|fuel IH]; intros l Hlen.
  - destruct l; [done|simpl in Hlen; lia].
  - destruct l as [|x l]; [by destruct n|].
    destruct n as [|n]; [lia|]. simpl. f_equal.
    rewrite IH by (rewrite length_drop; simpl in Hlen; lia).
    apply take_drop.
Qed.

Lemma batches_from_sizes {A} (fuel n : nat) (l : list A) :
  map length (batches_from fuel n l) = batch_sizes fuel n (length l).
Proof.
  revert l. induction fuel as [|fuel IH]; intros l; [done|]. simpl.
  destruct (take n l) as [|y ys] eqn:Htake.
  - apply take_nil_iff in Htake. by rewrite Htake.
  - assert (Hmin : Nat.min n (length l) = S (length ys)).
    { rewrite <- length_take, Htake. done. }
    rewrite Hmin. simpl. f_equal. by rewrite IH, length_drop.
Qed.

Lemma batch_sizes_bounds (fuel n len : nat) :
  Forall (fun k => (0 < k <= n)%nat) (batch_sizes fuel n len).
Proof.
  revert len. induction fuel as [|fuel IH]; intros len; simpl; [constructor|].
  destruct (Nat.min n len) as [|k] eqn:Hmin; constructor; [lia|apply IH].
Qed.

(** Every batch but the last holds [n] items. *)
Lemma batch_sizes_full (fuel n len : nat) (i k : nat) :
  batch_sizes fuel n len !! i = Some k →
  (S i < length (batch_sizes fuel n len))%nat → k = n.
Proof.
  revert len i. induction fuel as [|fuel IH]; intros len i; simpl; [done|].
  destruct (Nat.min n len) as [|m] eqn:Hmin; [done|].
  destruct i as [|i]; simpl.
  - intros [= <-] Hlen.
    destruct fuel as [|fuel]; simpl in Hlen; [lia|].
    destruct (Nat.min n (len - n)) eqn:Hmin'; simpl in Hlen; lia.
  - intros Hk Hlen. eapply IH; [done|lia].
Qed.

Lemma number_jobs_nums (i : nat) (bs : list (list sim)) :
  map job_num (number_jobs i bs) = seq i (length bs).
Proof.
  revert i. induction bs as [|b bs IH]; intros i; simpl; [done|]. by rewrite IH.
Qed.

Lemma number_jobs_batches (i : nat) (bs : list (list sim)) :
  map batch (number_jobs i bs) = bs.
Proof.
  revert i. induction bs as [|b bs IH]; intros i; simpl; [done|]. by rewrite IH.
Qed.

Lemma list_prod_NoDup {A B} (l : list A) (l' : list B) :
  NoDup l → NoDup l' → NoDup (list_prod l l').
Proof.
  intros Hl Hl'. induction Hl as [|x l Hx _ IH]; simpl; [constructor|].
  apply NoDup_app. split_and!; [|intros [a b] Ha Hb|done].
  - apply (NoDup_fmap_2 (pair x)); [..|done]. all: by intros y z [= ->].
  - apply list_elem_of_fmap in Ha as (y & [= -> ->] & _).
    apply list_elem_of_In, in_prod_iff in Hb as [Hb _].
    by apply Hx, list_elem_of_In.
Qed.

(** No unit occurs twice in the workload. *)
Lemma workload_NoDup (n_datapoints n_upgrades : nat) :
  NoDup (workload n_datapoints n_upgrades).
Proof.
  unfold workload, baseline_sims, upgrade_sims. apply NoDup_app. split_and!.
  - apply (NoDup_fmap_2 (fun i : nat => (i, @None nat))); [..|apply NoDup_seq].
    all: by intros i j [= ->].
  - intros [i [u|]] Hb Hu.
    + apply list_elem_of_fmap in Hb as (j & [=] & _).
    + apply list_elem_of_fmap in Hu as ([j v] & [=] & _).
  - assert (Inj (=) (=) (fun p : nat * nat => let '(i, u) := p in (i, Some u)))
      by (by intros [i u] [j v] [= -> ->]).
    apply (NoDup_fmap_2 _). apply list_prod_NoDup; apply NoDup_seq.
Qed.

(** ** The names of the job files *)

Lemma strip_prefix_app (p s : string) : strip_prefix p (p +:+ s) = Some s.
Proof.
  induction p as [|a p IH]; [done|].
  rewrite str_app_cons. simpl. by rewrite Ascii.eqb_refl.
Qed.

Lemma span_digits_app (ds rest : string) :
  only_digits ds = true → no_leading_digit rest = true →
  span_digits (ds +:+ rest) = (ds, rest).
Proof.
  intros Hds Hrest. induction ds as [|c ds IH].
  - rewrite str_app_nil_l. destruct rest as [|c rest]; [done|].
    simpl in *. by rewrite (negb_true_iff _) in Hrest; rewrite Hrest.
  - simpl in Hds. apply andb_true_iff in Hds as [Hc Hds].
    rewrite str_app_cons. simpl. by rewrite Hc, IH.
Qed.

Lemma string_of_uint_only_digits (d : Decimal.uint) :
  only_digits (NilEmpty.string_of_uint d) = true.
Proof. induction d; simpl; [done|by rewrite IHd..]. Qed.

Lemma str_of_nat_only_digits (i : nat) : only_digits (str_of_nat i) = true.
Proof.
  unfold str_of_nat, NilZero.string_of_uint.
  destruct (Nat.to_uint i) eqn:Hd; [done|rewrite <- Hd; apply string_of_uint_only_digits..].
Qed.

Lemma str_of_nat_nonempty (i : nat) : str_nonempty (str_of_nat i) = true.
Proof. unfold str_of_nat. by destruct (Nat.to_uint i). Qed.

(** Reading the digits of [str(i)] gives [i] back. *)
Lemma str_of_nat_read (i : nat) :
  Nat.of_uint <$> NilEmpty.uint_of_string (str_of_nat i) = Some i.
Proof.
  unfold str_of_nat, NilZero.string_of_uint.
  pose proof (DecimalNat.Unsigned.of_to i) as Hi.
  destruct (Nat.to_uint i) eqn:Hd; [by rewrite <- Hi|..];
    rewrite <- Hd, NilEmpty.usu; simpl; by rewrite Hd, Hi.
Qed.

Lemma zeros_only_digits (k : nat) : only_digits (zeros k) = true.
Proof. induction k as [|k IH]; simpl; [done|by rewrite IH]. Qed.

Lemma only_digits_app (a b : string) :
  only_digits a = true → only_digits b = true → only_digits (a +:+ b) = true.
Proof.
  intros Ha Hb. induction a as [|c a IH]; [done|].
  simpl in Ha. apply andb_true_iff in Ha as [Hc Ha].
  rewrite str_app_cons. simpl. by rewrite Hc, IH.
Qed.

(** Zeros in front do not change the number read. *)
Lemma zeros_read (k : nat) (s : string) :
  Nat.of_uint <$> NilEmpty.uint_of_string (zeros k +:+ s)
  = Nat.of_uint <$> NilEmpty.uint_of_string s.
Proof.
  induction k as [|k IH]; [done|].
  cbn [zeros]. rewrite str_app_cons. cbn [NilEmpty.uint_of_string].
  destruct (NilEmpty.uint_of_string (zeros k +:+ s)) as [d|],
           (NilEmpty.uint_of_string s) as [d'|]; simpl in *; try done.
Qed.

Lemma zfill_only_digits (width i : nat) : only_digits (zfill width (str_of_nat i)) = true.
Proof.
  apply only_digits_app; [apply zeros_only_digits|apply str_of_nat_only_digits].
Qed.

Lemma zfill_nonempty (width i : nat) : str_nonempty (zfill width (str_of_nat i)) = true.
Proof.
  unfold zfill. pose proof (str_of_nat_nonempty i) as H.
  destruct (str_of_nat i) as [|c s]; [done|].
  by destruct (zeros _).
Qed.

(** The name of a job file carries its number. *)
Lemma job_number_of_filename (i : nat) : job_number_of (job_json_filename i) = Some i.
Proof.
  unfold job_number_of, job_json_filename. rewrite strip_prefix_app.
  rewrite span_digits_app; [|apply zfill_only_digits|done]. simpl.
  unfold zfill. by rewrite zeros_read, str_of_nat_read.
Qed.

Lemma job_json_filename_inj (i j : nat) :
  job_json_filename i = job_json_filename j → i = j.
Proof.
  intros H. apply (f_equal job_number_of) in H.
  rewrite !job_number_of_filename in H. by injection H.
Qed.

Lemma write_jobs_other json_dump (jobs : list job_d) (fs : gmap string string) name :
  name ∉ map (fun job => job_json_filename (job_num job)) jobs →
  fold_left (write_job json_dump) jobs fs !! name = fs !! name.
Proof.
  revert fs. induction jobs as [|job jobs IH]; intros fs Hname; simpl; [done|].
  simpl in Hname. apply not_elem_of_cons in Hname as [Hne Hname].
  rewrite IH by done. unfold write_job. by rewrite lookup_insert_ne.
Qed.

(** Every descriptor of the loop is in its own file at the end. *)
Lemma write_jobs_lookup json_dump (jobs : list job_d) (fs : gmap string string) job :
  NoDup (map job_num jobs) → job ∈ jobs →
  fold_left (write_job json_dump) jobs fs !! job_json_filename (job_num job)
  = Some (json_dump job).
Proof.
  revert fs. induction jobs as [|x jobs IH]; intros fs Hnd Hin; simpl.
  - by apply not_elem_of_nil in Hin.
  - simpl in Hnd. apply NoDup_cons in Hnd as [Hx Hnd].
    apply elem_of_cons in Hin as [->|Hin]; [|by apply IH].
    rewrite write_jobs_other.
    + unfold write_job. by rewrite lookup_insert_eq.
    + intros Hname. apply list_elem_of_fmap in Hname as (y & Heq & Hy).
      apply job_json_filename_inj in Heq. apply Hx.
      apply list_elem_of_fmap. by exists y.
Qed.

Lemma plan_jobs_batches shuffle n_datapoints n_upgrades n_sims_per_job :
  map batch (plan_jobs shuffle n_datapoints n_upgrades n_sims_per_job) =
  islice_batches (Z.to_nat n_sims_per_job) (shuffle (workload n_datapoints n_upgrades)).
Proof. unfold plan_jobs. by rewrite number_jobs_batches. Qed.

(** The units of the workload: every building from 1 to [n_datapoints], as
    the baseline and with every upgrade index below [n_upgrades]. *)
Lemma elem_of_workload (n_datapoints n_upgrades i : nat) (upgrade_idx : option nat) :
  (i, upgrade_idx) ∈ workload n_datapoints n_upgrades
  ↔ (1 <= i <= n_datapoints)%nat
    ∧ match upgrade_idx with
      | None => True
      | Some u => (u < n_upgrades)%nat
      end.
Proof.
  unfold workload, baseline_sims, upgrade_sims. rewrite elem_of_app. split.
  - intros [H|H].
    + apply list_elem_of_fmap in H as (j & [= -> ->] & Hj).
      apply elem_of_seq in Hj. split; [lia|done].
    + apply list_elem_of_fmap in H as ([j v] & [= -> ->] & Hjv).
      apply list_elem_of_In, in_prod_iff in Hjv as [Hj Hv].
      apply list_elem_of_In, elem_of_seq in Hj, Hv. split; lia.
  - intros [Hi Hu]. destruct upgrade_idx as [u|].
    + right. apply list_elem_of_fmap. exists (i, u). split; [done|].
      apply list_elem_of_In, in_prod_iff.
      split; apply list_elem_of_In, elem_of_seq; lia.
    + left. apply list_elem_of_fmap. exists i. split; [done|].
      apply elem_of_seq. lia.
Qed.

(** C5. When the sampling step returns, for every job count other than
    zero, a scheduler that takes the submission and a shuffle that
    permutes, [run_batch] returns; the units per job are the larger of 48
    and the ceiling of the number of simulations over the job count; the
    batches it writes, one file per job, hold exactly the units [(i, None)]
    and [(i, Some u)] for [i] from 1 to [n_datapoints] and [u] below the
    number of upgrades, none of them twice; each batch is not empty and not
    above the units per job, every batch but the last is full, and the jobs
    are numbered 1, 2, ... in order. For 100 datapoints without upgrades
    and 200 jobs there are three batches, of 48, 48 and 4 units, which hold
    the baseline units of the buildings 1 to 100, each once. *)
Theorem run_batch_partitions_workload json_dump shuffle qsub output_dir peregrine_sh
    downselect singularity_sampling buildstock_dir singularity_image project_directory
    project_housing_characteristics downselect_in_cfg
    n_datapoints n_upgrades n_jobs nodetype queue allocation minutes_per_sim c fs :
  (∀ l, shuffle l ≡ₚ l) →
  sampling_step downselect singularity_sampling buildstock_dir singularity_image
                project_directory project_housing_characteristics downselect_in_cfg
                n_datapoints (files c) = Ok fs →
  n_jobs ≠ 0%Z →
  is_Some (dict_get nodetype nodes_per_nodetype) →
  (∀ args, ∃ jobid, qsub args = Ok jobid) →
  ∃ n_sims n_sims_per_job jobs c',
    n_sims = (Z.of_nat n_datapoints * (Z.of_nat n_upgrades + 1))%Z
    ∧ run_batch json_dump shuffle qsub output_dir peregrine_sh downselect
        singularity_sampling buildstock_dir singularity_image project_directory
        project_housing_characteristics downselect_in_cfg n_datapoints n_upgrades
        n_jobs nodetype queue allocation minutes_per_sim c = Ok c'
    ∧ sims_per_job n_sims n_jobs = Ok n_sims_per_job
    ∧ n_sims_per_job = Z.max (ceil_div n_sims n_jobs) 48
    ∧ ((0 < n_jobs)%Z →
         (n_jobs * (ceil_div n_sims n_jobs - 1) < n_sims)%Z
         ∧ (n_sims <= n_jobs * ceil_div n_sims n_jobs)%Z)
    ∧ jobs = plan_jobs shuffle n_datapoints n_upgrades n_sims_per_job
    ∧ (∀ i upgrade_idx,
         (i, upgrade_idx) ∈ concat (map batch jobs)
         ↔ (1 <= i <= n_datapoints)%nat
           ∧ match upgrade_idx with
             | None => True
             | Some u => (u < n_upgrades)%nat
             end)
    ∧ NoDup (concat (map batch jobs))
    ∧ map job_num jobs = seq 1 (length jobs)
    ∧ Forall (fun job => (0 < length (batch job) <= Z.to_nat n_sims_per_job)%nat) jobs
    ∧ (∀ i job, jobs !! i = Some job → (S i < length jobs)%nat →
         length (batch job) = Z.to_nat n_sims_per_job)
    ∧ (∀ job, job ∈ jobs →
         files c' !! job_json_filename (job_num job) = Some (json_dump job))
    ∧ (n_datapoints = 100%nat → n_upgrades = 0%nat → n_jobs = 200%Z →
         n_sims_per_job = 48%Z
         ∧ map (fun job => length (batch job)) jobs = [48; 48; 4]%nat
         ∧ concat (map batch jobs) ≡ₚ map (fun i => (i, None)) (seq 1 100)).
Proof.
  intros Hshuffle Hsampling Hjobs [nodes Hnodes] Hqsub.
  set (n_sims := (Z.of_nat n_datapoints * (Z.of_nat n_upgrades + 1))%Z).
  set (n := Z.max (ceil_div n_sims n_jobs) 48).
  set (jobs := plan_jobs shuffle n_datapoints n_upgrades n).
  assert (Hper : sims_per_job n_sims n_jobs = Ok n).
  { unfold sims_per_job. destruct (Z.eqb_spec n_jobs 0); [lia|done]. }
  assert (Hpos : (0 < Z.to_nat n)%nat) by (unfold n; lia).
  assert (Hbatches : map batch jobs =
            islice_batches (Z.to_nat n) (shuffle (workload n_datapoints n_upgrades)))
    by apply plan_jobs_batches.
  assert (Hconcat : concat (map batch jobs) = shuffle (workload n_datapoints n_upgrades)).
  { rewrite Hbatches. by apply batches_from_concat. }
  assert (Hnums : map job_num jobs = seq 1 (length jobs)).
  { unfold jobs, plan_jobs. rewrite number_jobs_nums. f_equal.
    rewrite <- (length_map batch (number_jobs _ _)). by rewrite number_jobs_batches. }
  assert (Hsizes : map (fun job => length (batch job)) jobs =
            batch_sizes (length (workload n_datapoints n_upgrades)) (Z.to_nat n)
                        (length (workload n_datapoints n_upgrades))).
  { rewrite <- (map_map batch length), Hbatches. unfold islice_batches.
    rewrite batches_from_sizes. by rewrite (Permutation_length (Hshuffle _)). }
  assert (Hrun : ∃ c',
    run_batch json_dump shuffle qsub output_dir peregrine_sh downselect
      singularity_sampling buildstock_dir singularity_image project_directory
      project_housing_characteristics downselect_in_cfg n_datapoints n_upgrades
      n_jobs nodetype queue allocation minutes_per_sim c = Ok c'
    ∧ files c' = fold_left (write_job json_dump) jobs fs).
  { unfold run_batch. rewrite Hsampling. cbn [mbind result_bind].
    fold n_sims. rewrite Hper. cbn [mbind result_bind]. fold jobs.
    unfold _queue_jobs, dict_item. rewrite Hnodes. cbn [mbind result_bind or_raise].
    match goal with |- context [qsub ?args] => destruct (Hqsub args) as [jobid ->] end.
    simpl. by eexists. }
  destruct Hrun as (c' & Hrun & Hfiles).
  exists n_sims, n, jobs, c'. split; [done|]. split; [done|].
  split; [done|]. split; [done|].
  split; [apply ceil_div_spec|].
  split; [done|]. split.
  { intros i upgrade_idx. rewrite Hconcat, (Hshuffle _). apply elem_of_workload. }
  split; [rewrite Hconcat, (Hshuffle _); apply workload_NoDup|].
  split; [done|]. split.
  { apply Forall_fmap with (f := fun job => length (batch job))
                           (P := fun k => (0 < k <= Z.to_nat n)%nat).
    change (fmap ?f ?l) with (map f l). rewrite Hsizes. apply batch_sizes_bounds. }
  split.
  { intros i job Hi Hlen.
    apply (batch_sizes_full (length (workload n_datapoints n_upgrades)) (Z.to_nat n)
             (length (workload n_datapoints n_upgrades)) i).
    - rewrite <- Hsizes. change (map ?f ?l) with (fmap f l).
      by rewrite list_lookup_fmap, Hi.
    - rewrite <- Hsizes. by rewrite length_map. }
  split.
  { intros job Hjob. rewrite Hfiles. apply write_jobs_lookup; [|done].
    rewrite Hnums. apply NoDup_seq. }
  intros -> -> ->. split; [done|]. split; [rewrite Hsizes; reflexivity|].
  rewrite Hconcat, (Hshuffle _).
  assert (workload 100 0 = map (fun i => (i, None)) (seq 1 100)) as ->
    by (vm_compute; reflexivity).
  done.
Qed.

(** 100 datapoints, 200 jobs asked for, the shuffle reversing the list, a
    container that writes buildstock.csv and a project with one table:
    three jobs of 48, 48 and 4 units that hold the buildings 1 to 100. *)
Lemma run_batch_partitions_workload_witness :
  (∀ l : list sim, rev l ≡ₚ l)
  ∧ (∃ fs,
       sampling_step (fun fs => Ok fs) (fun _ => Ok (Some "Building,Vintage"))
         "/opt/buildstock" "openstudio.simg" "project_national"
         (Some [("Vintage.tsv", "Option=1980s")]) false 100 ∅ = Ok fs)
  ∧ 200%Z ≠ 0%Z
  ∧ is_Some (dict_get "haswell" nodes_per_nodetype)
  ∧ (∀ args : list string, ∃ jobid, (fun _ => Ok "4242") args = Ok jobid)
  ∧ ∃ jobs c',
      run_batch (fun job => str_of_nat (job_num job)) (@rev sim) (fun _ => Ok "4242")
        "/scratch/out" "peregrine.sh" (fun fs => Ok fs)
        (fun _ => Ok (Some "Building,Vintage")) "/opt/buildstock" "openstudio.simg"
        "project_national" (Some [("Vintage.tsv", "Option=1980s")]) false
        100 0 200 "haswell" "batch-h" "res_stock" 3 (mkCluster ∅ []) = Ok c'
      ∧ jobs = plan_jobs (@rev sim) 100 0 48
      ∧ map (fun job => length (batch job)) jobs = [48; 48; 4]%nat
      ∧ concat (map batch jobs) ≡ₚ map (fun i => (i, None)) (seq 1 100)
      ∧ map job_num jobs = [1; 2; 3]%nat.
Proof.
  assert (H1 : ∀ l : list sim, rev l ≡ₚ l) by (intros l; symmetry; apply Permutation_rev).
  destruct (sampling_step (fun fs => Ok fs) (fun _ => Ok (Some "Building,Vintage"))
              "/opt/buildstock" "openstudio.simg" "project_national"
              (Some [("Vintage.tsv", "Option=1980s")]) false 100 ∅) as [fs|e] eqn:H0;
    [|vm_compute in H0; discriminate H0].
  assert (H2 : 200%Z ≠ 0%Z) by lia.
  assert (H3 : is_Some (dict_get "haswell" nodes_per_nodetype)) by (by eexists).
  assert (H4 : ∀ args : list string, ∃ jobid, (fun _ => Ok "4242") args = Ok jobid)
    by (intros; by eexists).
  split; [exact H1|]. split; [by exists fs|]. split; [exact H2|]. split; [exact H3|].
  split; [exact H4|].
  destruct (run_batch_partitions_workload
              (fun job => str_of_nat (job_num job)) (@rev sim) (fun _ => Ok "4242")
              "/scratch/out" "peregrine.sh" (fun fs => Ok fs)
              (fun _ => Ok (Some "Building,Vintage")) "/opt/buildstock" "openstudio.simg"
              "project_national" (Some [("Vintage.tsv", "Option=1980s")]) false
              100 0 200 "haswell" "batch-h" "res_stock" 3
              (mkCluster ∅ []) fs H1 H0 H2 H3 H4)
    as (n_sims & n & jobs & c' & _ & Hrun & _ & _ & _ & Hjobs & _ & _ & Hnums
        & _ & _ & _ & Hexample).
  destruct (Hexample eq_refl eq_refl eq_refl) as (Hn & Hsizes & Hunits).
  exists jobs, c'. split; [exact Hrun|]. split; [by rewrite <- Hn|].
  split; [exact Hsizes|]. split; [exact Hunits|].
  rewrite Hnums, <- (length_map (fun job => length (batch job)) jobs), Hsizes. reflexivity.
Defined.

(** ** The per-building runner *)

Lemma path_exists_true (entries : gmap string string) path :
  path_exists entries path = true ↔ is_Some (entries !! path).
Proof. unfold path_exists. apply bool_decide_eq_true. Qed.

Lemma path_exists_false (entries : gmap string string) path :
  path_exists entries path = false ↔ entries !! path = None.
Proof.
  unfold path_exists. rewrite bool_decide_eq_false. symmetry. apply eq_None_not_Some.
Qed.

(** What [simulate] leaves in the directory of the unit does not depend on
    what the results directory held before. *)
Lemma simulate_lookup osw_text singularity_exec cleanup_sim_dir weather_name
    (results : gmap string (gmap string string)) sim_id i upgrade_idx :
  simulate osw_text singularity_exec cleanup_sim_dir weather_name results sim_id i
           upgrade_idx !! sim_id
  = simulate osw_text singularity_exec cleanup_sim_dir weather_name ∅ sim_id i
             upgrade_idx !! sim_id.
Proof. unfold simulate. by rewrite !lookup_insert_eq. Qed.

(** C9. A unit whose simulation directory holds [run/finished.job] or
    [run/failed.job] makes [run_building] return at once: nothing is run
    and the results directory is as it was. A unit whose directory exists
    without either marker is redone from scratch: the directory is removed,
    then the unit is simulated, and what the directory holds afterwards is
    what the container and the clean-up make of a new directory that holds
    [in.osw] and an empty [singularity_output.log] and nothing of the
    stale one; the other directories stay, and the results are those of a
    first run of the unit. *)
Theorem run_building_skips_or_redoes osw_text singularity_exec cleanup_sim_dir
    weather_name (results : gmap string (gmap string string)) i upgrade_idx
    (sim_dir : gmap string string) :
  results !! sim_id_of i upgrade_idx = Some sim_dir →
  ((is_Some (sim_dir !! "run/finished.job") ∨ is_Some (sim_dir !! "run/failed.job")) →
     run_building osw_text singularity_exec cleanup_sim_dir weather_name results i
                  upgrade_idx = (results, []))
  ∧ (sim_dir !! "run/finished.job" = None → sim_dir !! "run/failed.job" = None →
     let sim_id := sim_id_of i upgrade_idx in
     let new_dir : gmap string string :=
       <["singularity_output.log" := ""]>
         (<["in.osw" := osw_text sim_id i upgrade_idx]> ∅) in
     let redone : gmap string string :=
       cleanup_sim_dir
         (delete "lib" (delete weather_name (delete "seeds" (delete "measures"
            (singularity_exec sim_id new_dir))))) in
     run_building osw_text singularity_exec cleanup_sim_dir weather_name results i
                  upgrade_idx
     = (<[sim_id := redone]> results, [Rmtree sim_id; Simulated sim_id])
     ∧ run_building osw_text singularity_exec cleanup_sim_dir weather_name
                    (delete sim_id results) i upgrade_idx
       = (<[sim_id := redone]> results, [Simulated sim_id])).
Proof.
  intros Hdir. split.
  - intros Hmarker. unfold run_building. rewrite Hdir.
    destruct (path_exists sim_dir "run/finished.job") eqn:Hfin; [done|].
    destruct (path_exists sim_dir "run/failed.job") eqn:Hfail; [done|].
    apply path_exists_false in Hfin, Hfail.
    destruct Hmarker as [[? H]|[? H]]; congruence.
  - intros Hfin Hfail. apply path_exists_false in Hfin, Hfail. cbv zeta.
    unfold run_building. rewrite Hdir, Hfin, Hfail, lookup_delete_eq.
    unfold simulate. simpl. by rewrite insert_delete_eq.
Qed.

(** A finished unit; and a unit whose directory holds a stale log and a
    stale input file only, with a container that leaves
    [run/finished.job]: the stale file is gone and the log is new. *)
Lemma run_building_skips_or_redoes_witness :
  (let results : gmap string (gmap string string) :=
     {[ "bldg0000007up00" := {[ "run/finished.job" := "" ]} ]} in
   results !! sim_id_of 7 None = Some {[ "run/finished.job" := "" ]}
   ∧ run_building (fun _ _ _ => "{}") (fun _ d => <["run/finished.job" := ""]> d)
       (fun d => d) "weather" results 7 None = (results, []))
  ∧ (let results : gmap string (gmap string string) :=
       {[ "bldg0000007up01" :=
            {[ "singularity_output.log" := "killed"; "run/in.idf" := "stale" ]} ]} in
     results !! sim_id_of 7 (Some 0%nat)
     = Some {[ "singularity_output.log" := "killed"; "run/in.idf" := "stale" ]}
     ∧ run_building (fun _ _ _ => "{}") (fun _ d => <["run/finished.job" := ""]> d)
         (fun d => d) "weather" results 7 (Some 0%nat)
       = ({[ "bldg0000007up01" :=
               {[ "in.osw" := "{}"; "singularity_output.log" := "";
                  "run/finished.job" := "" ]} ]},
          [Rmtree "bldg0000007up01"; Simulated "bldg0000007up01"])).
Proof.
  split.
  - intros results.
    assert (H : results !! sim_id_of 7 None = Some {[ "run/finished.job" := "" ]})
      by reflexivity.
    split; [exact H|].
    apply (proj1 (run_building_skips_or_redoes (fun _ _ _ => "{}")
             (fun _ d => <["run/finished.job" := ""]> d) (fun d => d) "weather"
             results 7 None _ H)).
    left. by eexists.
  - intros results.
    assert (H : results !! sim_id_of 7 (Some 0%nat)
                = Some {[ "singularity_output.log" := "killed"; "run/in.idf" := "stale" ]})
      by reflexivity.
    split; [exact H|].
    rewrite (proj1 (proj2 (run_building_skips_or_redoes (fun _ _ _ => "{}")
               (fun _ d => <["run/finished.job" := ""]> d) (fun d => d) "weather"
               results 7 (Some 0%nat) _ H) eq_refl eq_refl)).
    reflexivity.
Defined.

(** ** The file names of the resume scan *)

Lemma strip_prefix_Some (p s r : string) : strip_prefix p s = Some r → s = p +:+ r.
Proof.
  revert s. induction p as [|a p IH]; intros s H; simpl in H.
  - by injection H as ->.
  - destruct s as [|b s]; [done|].
    destruct (Ascii.eqb_spec a b) as [->|]; [|done].
    rewrite str_app_cons. f_equal. by apply IH.
Qed.

Lemma span_digits_app_r (s t ds tail : string) :
  span_digits s = (ds, tail) → no_leading_digit t = true →
  span_digits (s +:+ t) = (ds, tail +:+ t).
Proof.
  intros Hs Ht. revert ds tail Hs. induction s as [|c s IH]; intros ds tail Hs.
  - simpl in Hs. injection Hs as <- <-. rewrite !str_app_nil_l.
    destruct t as [|c t]; [done|]. simpl in *.
    by rewrite (negb_true_iff _) in Ht; rewrite Ht.
  - rewrite str_app_cons. simpl in *. destruct (is_digit c).
    + destruct (span_digits s) as [ds' tail']. injection Hs as <- <-.
      by rewrite (IH ds' tail').
    + injection Hs as <- <-. by rewrite str_app_cons.
Qed.

(** A name the first pattern matches, taken apart. *)
Lemma m_jobout_inv (f ds : string) :
  m_jobout f = Some ds →
  ∃ c rest tail,
    f = "job" +:+ String c ("out-" +:+ rest)
    ∧ is_newline c = false
    ∧ span_digits rest = (ds, tail)
    ∧ str_nonempty ds = true
    ∧ (tail = "" ∨ tail = newline).
Proof.
  unfold m_jobout. intros H.
  destruct (strip_prefix "job" f) as [[|c r]|] eqn:Hjob; [done| |done].
  destruct (is_newline c) eqn:Hc; [done|].
  destruct (strip_prefix "out-" r) as [rest|] eqn:Hout; [|done].
  destruct (span_digits rest) as [ds' tail] eqn:Hspan.
  destruct (str_nonempty ds') eqn:Hne; [|done].
  destruct (String.eqb_spec tail "") as [->|Hn1]; simpl in H.
  - injection H as <-. exists c, rest, "".
    apply strip_prefix_Some in Hjob, Hout. subst. by split_and!; [..|left].
  - destruct (String.eqb_spec tail newline) as [->|Hn2]; simpl in H; [|done].
    injection H as <-. exists c, rest, newline.
    apply strip_prefix_Some in Hjob, Hout. subst. by split_and!; [..|right].
Qed.

(** The archive of a log is matched by neither pattern of the scan. *)
Lemma bak_not_scanned (f ds : string) :
  m_jobout f = Some ds →
  m_jobout (f +:+ ".bak") = None ∧ m_jobjson (f +:+ ".bak") = false.
Proof.
  intros H. apply m_jobout_inv in H as (c & rest & tail & -> & Hc & Hspan & Hne & Htail).
  rewrite str_app_assoc, (str_app_cons c), str_app_assoc. split.
  - unfold m_jobout. rewrite strip_prefix_app, Hc, strip_prefix_app.
    rewrite (span_digits_app_r rest ".bak" ds tail Hspan eq_refl), Hne.
    by destruct Htail as [-> | ->].
  - unfold m_jobjson. rewrite strip_prefix_app.
    rewrite (str_app_cons _ "ut-"). cbn [span_digits].
    destruct (is_digit c); [|done].
    change (is_digit (Ascii.ascii_of_nat 111)) with false. cbv iota. cbv beta.
    rewrite (str_app_cons _ "t-"). reflexivity.
Qed.

Lemma str_length_app (a b : string) :
  String.length (a +:+ b) = (String.length a + String.length b)%nat.
Proof.
  induction a as [|c a IH]; [done|]. rewrite str_app_cons. simpl. by rewrite IH.
Qed.

Lemma str_app_inv_r (a b c : string) : a +:+ c = b +:+ c → a = b.
Proof.
  revert b. induction a as [|x a IH]; intros [|y b] H.
  - done.
  - apply (f_equal String.length) in H.
    rewrite str_app_nil_l, str_app_cons in H. simpl in H.
    rewrite str_length_app in H. lia.
  - apply (f_equal String.length) in H.
    rewrite str_app_nil_l, str_app_cons in H. simpl in H.
    rewrite str_length_app in H. lia.
  - rewrite !str_app_cons in H. injection H as -> H. f_equal. by apply IH.
Qed.

(** ** The resume scan *)

Lemma log_timed_out_Some fs0 f ds contents :
  log_timed_out fs0 f = Some (ds, contents) ↔
  m_jobout f = Some ds ∧ fs0 !! f = Some contents ∧ walltime_exceeded contents = true.
Proof.
  unfold log_timed_out. split.
  - destruct (m_jobout f) as [ds'|]; [|done].
    destruct (fs0 !! f) as [c|]; [|done].
    destruct (walltime_exceeded c) eqn:Hw; [|done]. by intros [= <- <-].
  - by intros (-> & -> & ->).
Qed.

Lemma restarts_cons fs0 f l :
  restarts fs0 (f :: l) =
  match log_timed_out fs0 f with
  | Some (ds, _) => int_of_digits ds :: restarts fs0 l
  | None => restarts fs0 l
  end.
Proof. unfold restarts. simpl. by destruct (log_timed_out fs0 f) as [[ds c]|]. Qed.

Lemma max_size_cons json_load fs0 f l n :
  max_size json_load fs0 (f :: l) n =
  match descriptor_size json_load fs0 f with
  | Some k => max_size json_load fs0 l (Nat.max k n)
  | None => max_size json_load fs0 l n
  end.
Proof. unfold max_size. simpl. by destruct (descriptor_size json_load fs0 f). Qed.

(** The loop of the scan, against the directory [fs0] it started from: it
    ends without an exception exactly when every file it opens can be
    read, and then it has archived the timed-out logs, collected their
    task numbers in the order of the listing, and taken the largest batch
    length of the descriptors. *)
Lemma scan_loop json_load fs0 l :
  NoDup l →
  ∀ st,
    (∀ g, g ∈ l → scanned g = true → scan_files st !! g = fs0 !! g) →
    match for_each (scan_file json_load) l st with
    | Ok st' =>
        st' = mkScan (archived fs0 l (scan_files st))
                     (jobs_to_restart st ++ restarts fs0 l)
                     (max_size json_load fs0 l (n_sims_per_job st))
        ∧ Forall (fun g => scanned g = true → readable json_load fs0 g = true) l
    | Raise _ =>
        ¬ Forall (fun g => scanned g = true → readable json_load fs0 g = true) l
    end.
Proof.
  induction 1 as [|f l Hf Hnd IH]; intros st Hagree.
  - simpl. destruct st as [fs jobs n]. simpl. by rewrite app_nil_r.
  - assert (Hrest : ∀ st1,
      (∀ g, g ∈ l → scanned g = true → scan_files st1 !! g = fs0 !! g) →
      readable json_load fs0 f = true ∨ scanned f = false →
      scan_files st1 = match log_timed_out fs0 f with
                       | Some (_, contents) => archive f contents (scan_files st)
                       | None => scan_files st
                       end →
      jobs_to_restart st1 = jobs_to_restart st ++
                            match log_timed_out fs0 f with
                            | Some (ds, _) => [int_of_digits ds]
                            | None => []
                            end →
      n_sims_per_job st1 = match descriptor_size json_load fs0 f with
                           | Some k => Nat.max k (n_sims_per_job st)
                           | None => n_sims_per_job st
                           end →
      match for_each (scan_file json_load) l st1 with
      | Ok st' =>
          st' = mkScan (archived fs0 (f :: l) (scan_files st))
                       (jobs_to_restart st ++ restarts fs0 (f :: l))
                       (max_size json_load fs0 (f :: l) (n_sims_per_job st))
          ∧ Forall (fun g => scanned g = true → readable json_load fs0 g = true) (f :: l)
      | Raise _ =>
          ¬ Forall (fun g => scanned g = true → readable json_load fs0 g = true) (f :: l)
      end).
    { intros st1 Hagree1 Hread Hfs Hjobs Hn. specialize (IH st1 Hagree1).
      destruct (for_each (scan_file json_load) l st1) as [st'|e].
      - destruct IH as [-> Hall]. split.
        + rewrite Hfs, Hjobs, Hn, restarts_cons, max_size_cons. cbn [archived].
          destruct (log_timed_out fs0 f) as [[ds c]|],
                   (descriptor_size json_load fs0 f);
            by rewrite <- ?app_assoc, ?app_nil_r.
        + constructor; [|done]. destruct Hread as [Hr|Hs]; [done|congruence].
      - intros Hall. apply IH. by inversion Hall. }
    assert (Hhere : scanned f = true → scan_files st !! f = fs0 !! f)
      by (apply Hagree; left).
    assert (Hagree' : ∀ g, g ∈ l → scanned g = true → scan_files st !! g = fs0 !! g)
      by (intros g Hg; apply Hagree; by right).
    cbn [for_each]. unfold scan_file.
    destruct (m_jobout f) as [ds|] eqn:Hout.
    + assert (Hs : scanned f = true) by (unfold scanned; by rewrite Hout).
      assert (Hd : is_descriptor f = false) by (unfold is_descriptor; by rewrite Hout).
      assert (Hsize : descriptor_size json_load fs0 f = None)
        by (unfold descriptor_size; by rewrite Hd).
      rewrite (Hhere Hs).
      destruct (fs0 !! f) as [contents|] eqn:Hfs; cbn.
      2:{ intros Hall. inversion Hall as [|?? Hr _]. specialize (Hr Hs).
          unfold readable in Hr. by rewrite Hfs in Hr. }
      assert (Hr : readable json_load fs0 f = true)
        by (unfold readable; by rewrite Hfs, Hd).
      destruct (walltime_exceeded contents) eqn:Hw.
      * assert (Hlog : log_timed_out fs0 f = Some (ds, contents))
          by (by apply log_timed_out_Some).
        apply Hrest; rewrite ?Hlog, ?Hsize; cbn [scan_files jobs_to_restart n_sims_per_job];
          [|by left|done..].
        intros g Hg Hgs. destruct (bak_not_scanned f ds Hout) as [Hb1 Hb2].
        unfold append_file. rewrite lookup_delete_ne, lookup_insert_ne.
        -- by apply Hagree'.
        -- intros <-. unfold scanned in Hgs. by rewrite Hb1, Hb2 in Hgs.
        -- intros <-. done.
      * assert (Hlog : log_timed_out fs0 f = None)
          by (unfold log_timed_out; by rewrite Hout, Hfs, Hw).
        apply Hrest; rewrite ?Hlog, ?Hsize, ?app_nil_r; [done|by left|done..].
    + assert (Hlog : log_timed_out fs0 f = None)
        by (unfold log_timed_out; by rewrite Hout).
      destruct (m_jobjson f) eqn:Hjson.
      * assert (Hs : scanned f = true) by (unfold scanned; by rewrite Hout).
        assert (Hd : is_descriptor f = true) by (unfold is_descriptor; by rewrite Hout).
        rewrite (Hhere Hs).
        destruct (fs0 !! f) as [contents|] eqn:Hfs; cbn.
        2:{ intros Hall. inversion Hall as [|?? Hr _]. specialize (Hr Hs).
            unfold readable in Hr. by rewrite Hfs in Hr. }
        destruct (json_load contents) as [job|e] eqn:Hjob; cbn.
        2:{ intros Hall. inversion Hall as [|?? Hr _]. specialize (Hr Hs).
            unfold readable in Hr. by rewrite Hfs, Hd, Hjob in Hr. }
        assert (Hsize : descriptor_size json_load fs0 f = Some (length (batch job)))
          by (unfold descriptor_size; by rewrite Hd, Hfs, Hjob).
        apply Hrest; rewrite ?Hlog, ?Hsize, ?app_nil_r;
          cbn [scan_files jobs_to_restart n_sims_per_job]; [done| |done..].
        left. unfold readable. by rewrite Hfs, Hd, Hjob.
      * assert (Hs : scanned f = false) by (unfold scanned; by rewrite Hout).
        assert (Hd : is_descriptor f = false) by (unfold is_descriptor; by rewrite Hout).
        assert (Hsize : descriptor_size json_load fs0 f = None)
          by (unfold descriptor_size; by rewrite Hd).
        apply Hrest; rewrite ?Hlog, ?Hsize, ?app_nil_r; [done|by right|done..].
Qed.

Lemma archive_lookup_other f contents (fs : gmap string string) g :
  g ≠ f → g ≠ f +:+ ".bak" → archive f contents fs !! g = fs !! g.
Proof.
  intros H1 H2. unfold archive, append_file.
  by rewrite lookup_delete_ne, lookup_insert_ne.
Qed.

(** Archiving touches the timed-out logs and their [.bak] files only. *)
Lemma archived_frame fs0 l (fs : gmap string string) g :
  (∀ f ds c, f ∈ l → log_timed_out fs0 f = Some (ds, c) → g ≠ f ∧ g ≠ f +:+ ".bak") →
  archived fs0 l fs !! g = fs !! g.
Proof.
  revert fs. induction l as [|f l IH]; intros fs Hg; simpl; [done|].
  assert (Hl : ∀ f' ds c, f' ∈ l → log_timed_out fs0 f' = Some (ds, c) →
                g ≠ f' ∧ g ≠ f' +:+ ".bak")
    by (intros f' ds c Hf'; apply Hg; by right).
  destruct (log_timed_out fs0 f) as [[ds c]|] eqn:Hlog; rewrite IH by done; [|done].
  destruct (Hg f ds c) as [H1 H2]; [by left|done|]. by apply archive_lookup_other.
Qed.

Lemma log_not_bak f ds f' ds' :
  m_jobout f = Some ds → m_jobout f' = Some ds' → f ≠ f' +:+ ".bak".
Proof.
  intros Hf Hf' ->. destruct (bak_not_scanned f' ds' Hf') as [Hb _]. congruence.
Qed.

Lemma archived_removed fs0 l (fs : gmap string string) f ds c :
  NoDup l → f ∈ l → log_timed_out fs0 f = Some (ds, c) →
  archived fs0 l fs !! f = None.
Proof.
  intros Hnd. revert fs. induction Hnd as [|f' l Hf' Hnd IH]; intros fs Hin Hlog.
  - by apply not_elem_of_nil in Hin.
  - apply elem_of_cons in Hin as [<-|Hin]; simpl.
    + rewrite Hlog, archived_frame.
      * unfold archive. apply lookup_delete_eq.
      * intros f'' ds'' c'' Hin'' Hlog''. split; [by intros <-|].
        apply log_timed_out_Some in Hlog as (Hm & _), Hlog'' as (Hm'' & _).
        by eapply log_not_bak.
    + destruct (log_timed_out fs0 f') as [[ds' c']|]; by apply IH.
Qed.

Lemma archived_bak fs0 l (fs : gmap string string) f ds c :
  NoDup l → f ∈ l → log_timed_out fs0 f = Some (ds, c) →
  archived fs0 l fs !! (f +:+ ".bak")
  = Some (default "" (fs !! (f +:+ ".bak")) +:+ newline +:+ c).
Proof.
  intros Hnd. revert fs. induction Hnd as [|f' l Hf' Hnd IH]; intros fs Hin Hlog.
  - by apply not_elem_of_nil in Hin.
  - pose proof Hlog as (Hm & _)%log_timed_out_Some.
    apply elem_of_cons in Hin as [<-|Hin]; simpl.
    + rewrite Hlog, archived_frame.
      * unfold archive, append_file. rewrite lookup_delete_ne, lookup_insert_eq; [done|].
        first [by eapply log_not_bak|symmetry; by eapply log_not_bak].
      * intros f'' ds'' c'' Hin'' Hlog''.
        apply log_timed_out_Some in Hlog'' as (Hm'' & _). split.
        -- first [by eapply log_not_bak|symmetry; by eapply log_not_bak].
        -- intros Heq. apply str_app_inv_r in Heq. by subst.
    + destruct (log_timed_out fs0 f') as [[ds' c']|] eqn:Hlog'; [|by apply IH].
      rewrite (IH _ Hin Hlog). do 3 f_equal.
      apply log_timed_out_Some in Hlog' as (Hm' & _).
      apply archive_lookup_other.
      * first [by eapply log_not_bak|symmetry; by eapply log_not_bak].
      * intros Heq. apply str_app_inv_r in Heq. by subst.
Qed.

Lemma archived_nothing fs0 l (fs : gmap string string) :
  (∀ g, g ∈ l → log_timed_out fs0 g = None) → archived fs0 l fs = fs.
Proof.
  induction l as [|f l IH]; intros Hnone; simpl; [done|].
  rewrite (Hnone f) by (by left). apply IH. intros g Hg. apply Hnone. by right.
Qed.

Lemma restarts_nothing fs0 l :
  (∀ g, g ∈ l → log_timed_out fs0 g = None) → restarts fs0 l = [].
Proof.
  induction l as [|f l IH]; intros Hnone; [done|].
  rewrite restarts_cons, (Hnone f) by (by left). apply IH. intros g Hg. apply Hnone. by right.
Qed.

Lemma elem_of_restarts fs0 l id :
  id ∈ restarts fs0 l ↔
  ∃ f ds c, f ∈ l ∧ log_timed_out fs0 f = Some (ds, c) ∧ id = int_of_digits ds.
Proof.
  unfold restarts. rewrite list_elem_of_omap. split.
  - intros (f & Hf & Hid). destruct (log_timed_out fs0 f) as [[ds c]|] eqn:Hlog; [|done].
    injection Hid as <-. by exists f, ds, c.
  - intros (f & ds & c & Hf & Hlog & ->). exists f. by rewrite Hlog.
Qed.

Lemma max_size_ge json_load fs0 l n : (n <= max_size json_load fs0 l n)%nat.
Proof.
  revert n. induction l as [|f l IH]; intros n; [done|]. rewrite max_size_cons.
  destruct (descriptor_size json_load fs0 f) as [k|]; [|done].
  etrans; [|apply IH]. lia.
Qed.

Lemma max_size_bound json_load fs0 l n g k :
  g ∈ l → descriptor_size json_load fs0 g = Some k → (k <= max_size json_load fs0 l n)%nat.
Proof.
  revert n. induction l as [|f l IH]; intros n Hg Hk.
  - by apply not_elem_of_nil in Hg.
  - rewrite max_size_cons. apply elem_of_cons in Hg as [<-|Hg].
    + rewrite Hk. etrans; [|apply max_size_ge]. lia.
    + destruct (descriptor_size json_load fs0 f); by apply IH.
Qed.

Lemma max_size_attained json_load fs0 l n :
  max_size json_load fs0 l n = n
  ∨ ∃ g, g ∈ l ∧ descriptor_size json_load fs0 g = Some (max_size json_load fs0 l n).
Proof.
  revert n. induction l as [|f l IH]; intros n; [by left|]. rewrite max_size_cons.
  destruct (descriptor_size json_load fs0 f) as [k|] eqn:Hk.
  - destruct (IH (Nat.max k n)) as [Heq|(g & Hg & Hsize)].
    + rewrite Heq. destruct (Nat.max_spec k n) as [[_ ->]|[_ ->]]; [by left|].
      right. exists f. split; [by left|done].
    + right. exists g. split; [by right|done].
  - destruct (IH n) as [Heq|(g & Hg & Hsize)]; [by left|].
    right. exists g. split; [by right|done].
Qed.

Lemma digit_not_newline c : is_digit c = true → is_newline c = false.
Proof.
  intros Hc. unfold is_newline. destruct (Ascii.eqb_spec c (Ascii.ascii_of_nat 10)); [|done].
  subst. discriminate.
Qed.

Lemma digit_not_out c s : is_digit c = true → strip_prefix "out-" (String c s) = None.
Proof.
  intros Hc. cbn [strip_prefix].
  match goal with |- context [Ascii.eqb ?o c] => destruct (Ascii.eqb_spec o c) end; [|done].
  subst. discriminate.
Qed.

(** The files [run_batch] writes are the descriptors the scan reads. *)
Lemma job_json_filename_is_descriptor (i : nat) : is_descriptor (job_json_filename i) = true.
Proof.
  unfold is_descriptor, job_json_filename.
  pose proof (zfill_only_digits 3 i) as Hds. pose proof (zfill_nonempty 3 i) as Hne.
  assert (Hout : m_jobout ("job" +:+ zfill 3 (str_of_nat i) +:+ ".json") = None).
  { unfold m_jobout. rewrite strip_prefix_app.
    destruct (zfill 3 (str_of_nat i)) as [|c ds]; [done|].
    simpl in Hds. apply andb_true_iff in Hds as [Hc Hds].
    rewrite str_app_cons, (digit_not_newline c Hc).
    destruct ds as [|c' ds]; [done|].
    simpl in Hds. apply andb_true_iff in Hds as [Hc' Hds].
    rewrite str_app_cons. by rewrite (digit_not_out c' _ Hc'). }
  rewrite Hout. unfold m_jobjson. rewrite strip_prefix_app.
  rewrite span_digits_app by done. by rewrite Hne.
Qed.

Lemma scan_output_dir_spec json_load (fs : gmap string string) l :
  NoDup l →
  match scan_output_dir json_load l fs with
  | Ok st =>
      st = mkScan (archived fs l fs) (merge_sort N.le (restarts fs l))
                  (max_size json_load fs l 0)
      ∧ Forall (fun g => scanned g = true → readable json_load fs g = true) l
  | Raise _ => ¬ Forall (fun g => scanned g = true → readable json_load fs g = true) l
  end.
Proof.
  intros Hnd. unfold scan_output_dir.
  pose proof (scan_loop json_load fs l Hnd (mkScan fs [] 0) (fun _ _ _ => eq_refl)) as H.
  destruct (for_each (scan_file json_load) l (mkScan fs [] 0)) as [st|e]; simpl; [|done].
  destruct H as [-> Hall]. done.
Qed.

(** After a scan no log of the directory is timed out any more, and every
    file the scan opens can still be read. *)
Lemma archived_settled json_load (fs : gmap string string) l1 l2 :
  listdir fs l1 →
  Forall (fun g => scanned g = true → readable json_load fs g = true) l1 →
  listdir (archived fs l1 fs) l2 →
  (∀ g, g ∈ l2 → log_timed_out (archived fs l1 fs) g = None)
  ∧ Forall (fun g => scanned g = true → readable json_load (archived fs l1 fs) g = true) l2.
Proof.
  intros [Hnd1 Hl1] Hread [Hnd2 Hl2]. split.
  - intros g Hg. destruct (log_timed_out (archived fs l1 fs) g) as [[ds c]|] eqn:Hlog; [|done].
    exfalso. apply log_timed_out_Some in Hlog as (Hm & Hc & Hw).
    assert (Hkeep : log_timed_out fs g = None → archived fs l1 fs !! g = fs !! g).
    { intros Hnone. apply archived_frame. intros f ds' c' Hf Hlog'. split.
      - intros <-. congruence.
      - apply log_timed_out_Some in Hlog' as (Hm' & _). by eapply log_not_bak. }
    destruct (log_timed_out fs g) as [[ds' c']|] eqn:Hlog'.
    + assert (g ∈ l1) as Hg1.
      { apply Hl1. apply log_timed_out_Some in Hlog' as (_ & Hfs & _). by eexists. }
      rewrite (archived_removed fs l1 fs g ds' c' Hnd1 Hg1 Hlog') in Hc. done.
    + rewrite (Hkeep eq_refl) in Hc.
      assert (log_timed_out fs g = Some (ds, c)) by (by apply log_timed_out_Some).
      congruence.
  - apply Forall_forall. intros g Hg Hs.
    assert (Hex : is_Some (archived fs l1 fs !! g)) by (by apply Hl2).
    destruct Hex as [c Hc]. unfold readable. rewrite Hc.
    destruct (is_descriptor g) eqn:Hd; [|done].
    assert (Hkeep : archived fs l1 fs !! g = fs !! g).
    { apply archived_frame. intros f ds' c' Hf Hlog'.
      apply log_timed_out_Some in Hlog' as (Hm' & _). unfold is_descriptor in Hd. split.
      - intros <-. by rewrite Hm' in Hd.
      - intros ->. destruct (bak_not_scanned f ds' Hm') as [Hb1 Hb2].
        by rewrite Hb1, Hb2 in Hd. }
    rewrite Hkeep in Hc.
    assert (g ∈ l1) as Hg1 by (apply Hl1; by eexists).
    rewrite Forall_forall in Hread. specialize (Hread g Hg1 Hs).
    unfold readable in Hread. by rewrite Hc, Hd in Hread.
Qed.

(** What a call of [pick_up_where_left_off] that returns has done. *)
Lemma pick_up_inv json_load qsub output_dir peregrine_sh l minutes_per_sim
    queue nodetype allocation c c' :
  pick_up_where_left_off json_load qsub output_dir peregrine_sh l minutes_per_sim
                         queue nodetype allocation c = Ok c' →
  ∃ st nodes jobid,
    scan_output_dir json_load l (files c) = Ok st
    ∧ dict_get nodetype nodes_per_nodetype = Some nodes
    ∧ qsub (queue_jobs_args output_dir peregrine_sh
              (ceil_div (Z.of_nat (n_sims_per_job st)) nodes * minutes_per_sim * 60)
              (str_join "," (map str_of_N (jobs_to_restart st)))
              queue nodetype allocation) = Ok jobid
    ∧ c' = mkCluster (scan_files st)
             (submitted c ++
              [queue_jobs_args output_dir peregrine_sh
                 (ceil_div (Z.of_nat (n_sims_per_job st)) nodes * minutes_per_sim * 60)
                 (str_join "," (map str_of_N (jobs_to_restart st)))
                 queue nodetype allocation;
               post_processing_args output_dir peregrine_sh jobid allocation]).
Proof.
  unfold pick_up_where_left_off. intros H.
  destruct (scan_output_dir json_load l (files c)) as [st|e]; simpl in H; [|done].
  unfold _queue_jobs, dict_item in H.
  destruct (dict_get nodetype nodes_per_nodetype) as [nodes|]; simpl in H; [|done].
  destruct (qsub _) as [jobid|e] eqn:Hq; simpl in H; [|done].
  injection H as <-. exists st, nodes, jobid. split_and!; try done.
  unfold _queue_post_processing. simpl. by rewrite <- app_assoc.
Qed.

(** C6. After a call of [pick_up_where_left_off] that returns, every log
    whose contents carry the wall-time signature is gone, its contents
    stand at the end of its [.bak] file after a newline, and that [.bak]
    name is not matched as a log; a second scan over the directory as the
    first call left it returns with an empty restart list and leaves the
    files as they are, so the second call submits the empty task list. *)
Theorem pick_up_twice_restarts_nothing json_load qsub output_dir peregrine_sh l1 l2
    minutes_per_sim queue nodetype allocation c c1 :
  listdir (files c) l1 →
  pick_up_where_left_off json_load qsub output_dir peregrine_sh l1 minutes_per_sim
                         queue nodetype allocation c = Ok c1 →
  listdir (files c1) l2 →
  (∀ f ds contents,
     m_jobout f = Some ds → files c !! f = Some contents →
     walltime_exceeded contents = true →
     files c1 !! f = None
     ∧ files c1 !! (f +:+ ".bak")
       = Some (default "" (files c !! (f +:+ ".bak")) +:+ newline +:+ contents)
     ∧ m_jobout (f +:+ ".bak") = None)
  ∧ ∃ n,
      scan_output_dir json_load l2 (files c1) = Ok (mkScan (files c1) [] n)
      ∧ pick_up_where_left_off json_load qsub output_dir peregrine_sh l2 minutes_per_sim
                               queue nodetype allocation c1
        = ('(jobid, c2) ← _queue_jobs qsub output_dir peregrine_sh (Z.of_nat n)
                            minutes_per_sim "" queue nodetype allocation c1;
           Ok (_queue_post_processing output_dir peregrine_sh jobid allocation c2)).
Proof.
  intros Hl1 Hrun Hl2.
  apply pick_up_inv in Hrun as (st & nodes & jobid & Hscan & _ & _ & ->).
  simpl in Hl2 |- *.
  pose proof (scan_output_dir_spec json_load (files c) l1 (proj1 Hl1)) as Hspec.
  rewrite Hscan in Hspec. destruct Hspec as [-> Hread]. simpl in Hl2 |- *.
  split.
  - intros f ds contents Hm Hf Hw.
    assert (Hlog : log_timed_out (files c) f = Some (ds, contents))
      by (by apply log_timed_out_Some).
    assert (Hin : f ∈ l1) by (apply Hl1; by eexists).
    split_and!.
    + by eapply archived_removed; [apply Hl1|..].
    + by eapply archived_bak; [apply Hl1|..].
    + by destruct (bak_not_scanned f ds Hm).
  - destruct (archived_settled json_load (files c) l1 l2 Hl1 Hread Hl2) as [Hnone Hread2].
    pose proof (scan_output_dir_spec json_load (archived (files c) l1 (files c)) l2
                  (proj1 Hl2)) as Hspec2.
    destruct (scan_output_dir json_load l2 (archived (files c) l1 (files c)))
      as [st2|e] eqn:Hscan2; [|done].
    destruct Hspec2 as [-> _].
    rewrite (archived_nothing _ _ _ Hnone), (restarts_nothing _ _ Hnone).
    eexists. split; [reflexivity|].
    unfold pick_up_where_left_off. simpl. rewrite Hscan2.
    rewrite (archived_nothing _ _ _ Hnone), (restarts_nothing _ _ Hnone). reflexivity.
Qed.

(** C7. A call of [pick_up_where_left_off] that returns has taken, as the
    units per job, the largest batch length over the job descriptors of the
    directory (0 when there is none), has left every descriptor as it was,
    and has submitted, first, the job array whose task list is the
    timed-out task numbers in ascending order joined by commas, then the
    post-processing job that depends on the job id the scheduler
    answered. *)
Theorem pick_up_recovers_size_and_resubmits json_load qsub output_dir peregrine_sh l
    minutes_per_sim queue nodetype allocation c c' :
  listdir (files c) l →
  pick_up_where_left_off json_load qsub output_dir peregrine_sh l minutes_per_sim
                         queue nodetype allocation c = Ok c' →
  ∃ st nodes jobid,
    scan_output_dir json_load l (files c) = Ok st
    ∧ (∀ g contents job,
         is_descriptor g = true → files c !! g = Some contents →
         json_load contents = Ok job →
         (length (batch job) <= n_sims_per_job st)%nat)
    ∧ (n_sims_per_job st = 0%nat
       ∨ ∃ g contents job,
           is_descriptor g = true ∧ files c !! g = Some contents
           ∧ json_load contents = Ok job
           ∧ length (batch job) = n_sims_per_job st)
    ∧ (∀ i, is_descriptor (job_json_filename i) = true)
    ∧ (∀ g, is_descriptor g = true → files c' !! g = files c !! g)
    ∧ Sorted N.le (jobs_to_restart st)
    ∧ (∀ id, id ∈ jobs_to_restart st ↔
         ∃ f ds contents,
           m_jobout f = Some ds ∧ files c !! f = Some contents
           ∧ walltime_exceeded contents = true ∧ id = int_of_digits ds)
    ∧ dict_get nodetype nodes_per_nodetype = Some nodes
    ∧ qsub (queue_jobs_args output_dir peregrine_sh
              (ceil_div (Z.of_nat (n_sims_per_job st)) nodes * minutes_per_sim * 60)
              (str_join "," (map str_of_N (jobs_to_restart st)))
              queue nodetype allocation) = Ok jobid
    ∧ submitted c' =
        submitted c ++
        [queue_jobs_args output_dir peregrine_sh
           (ceil_div (Z.of_nat (n_sims_per_job st)) nodes * minutes_per_sim * 60)
           (str_join "," (map str_of_N (jobs_to_restart st)))
           queue nodetype allocation;
         post_processing_args output_dir peregrine_sh jobid allocation].
Proof.
  intros Hl Hrun.
  apply pick_up_inv in Hrun as (st & nodes & jobid & Hscan & Hnodes & Hq & ->).
  exists st, nodes, jobid.
  pose proof (scan_output_dir_spec json_load (files c) l (proj1 Hl)) as Hspec.
  rewrite Hscan in Hspec. destruct Hspec as [Hst Hread].
  assert (Hn : n_sims_per_job st = max_size json_load (files c) l 0) by (by rewrite Hst).
  assert (Hjobs : jobs_to_restart st = merge_sort N.le (restarts (files c) l))
    by (by rewrite Hst).
  assert (Hfiles : scan_files st = archived (files c) l (files c)) by (by rewrite Hst).
  split; [done|]. split.
  { intros g contents job Hd Hg Hjob. rewrite Hn.
    apply (max_size_bound json_load (files c) l 0 g); [apply Hl; by eexists|].
    unfold descriptor_size. by rewrite Hd, Hg, Hjob. }
  split.
  { rewrite Hn. destruct (max_size_attained json_load (files c) l 0) as [H0|(g & Hg & Hsize)];
      [by left|right].
    unfold descriptor_size in Hsize. destruct (is_descriptor g) eqn:Hd; [|done].
    destruct (files c !! g) as [contents|] eqn:Hc; [|done].
    destruct (json_load contents) as [job|e] eqn:Hjob; [|done].
    injection Hsize as Hsize. by exists g, contents, job. }
  split; [apply job_json_filename_is_descriptor|]. split.
  { intros g Hd. simpl. rewrite Hfiles. apply archived_frame.
    intros f ds' c' Hf Hlog. apply log_timed_out_Some in Hlog as (Hm & _).
    unfold is_descriptor in Hd. split.
    - intros <-. by rewrite Hm in Hd.
    - intros ->. destruct (bak_not_scanned f ds' Hm) as [Hb1 Hb2]. by rewrite Hb1, Hb2 in Hd. }
  split; [rewrite Hjobs; apply Sorted_merge_sort; apply _|]. split.
  { intros id. rewrite Hjobs, merge_sort_Permutation, elem_of_restarts. split.
    - intros (f & ds & contents & _ & Hlog & ->).
      apply log_timed_out_Some in Hlog as (? & ? & ?). by exists f, ds, contents.
    - intros (f & ds & contents & Hm & Hf & Hw & ->). exists f, ds, contents.
      split_and!; [apply Hl; by eexists|by apply log_timed_out_Some|done]. }
  done.
Qed.

(** The keys of an association list without repeated keys list the
    directory it builds. *)
Lemma listdir_list_to_map (items : list (string * string)) :
  NoDup items.*1 → listdir (list_to_map items) items.*1.
Proof.
  intros Hnd. split; [done|]. intros name.
  rewrite <- not_eq_None_Some. split.
  - intros Hin Hnone. by apply not_elem_of_list_to_map_2 in Hnone.
  - intros Hsome. destruct (decide (name ∈ items.*1)) as [|Hnot]; [done|].
    exfalso. apply Hsome. by apply not_elem_of_list_to_map_1.
Qed.

Lemma example_logs_listed : listdir (files example_cluster) example_logs.*1.
Proof. apply listdir_list_to_map, (bool_decide_unpack _). vm_compute. exact I. Qed.

Lemma example_resumed_listed :
  listdir (files example_cluster_resumed) example_resumed.*1.
Proof. apply listdir_list_to_map, (bool_decide_unpack _). vm_compute. exact I. Qed.

Lemma example_pick_up :
  pick_up_where_left_off toy_json_load (fun _ => Ok "77") "/scratch/out" "peregrine.sh"
    example_logs.*1 3 "batch-h" "haswell" "res_stock" example_cluster
  = Ok example_cluster_resumed.
Proof. vm_compute. reflexivity. Qed.

(** The example directory: the logs of tasks 2 and 10 are archived by the
    first call, and the second scan restarts nothing. *)
Lemma pick_up_twice_restarts_nothing_witness :
  listdir (files example_cluster) example_logs.*1
  ∧ pick_up_where_left_off toy_json_load (fun _ => Ok "77") "/scratch/out" "peregrine.sh"
      example_logs.*1 3 "batch-h" "haswell" "res_stock" example_cluster
    = Ok example_cluster_resumed
  ∧ listdir (files example_cluster_resumed) example_resumed.*1
  ∧ files example_cluster_resumed !! "job.out-2" = None
  ∧ ∃ n, scan_output_dir toy_json_load example_resumed.*1 (files example_cluster_resumed)
         = Ok (mkScan (files example_cluster_resumed) [] n).
Proof.
  split; [exact example_logs_listed|]. split; [exact example_pick_up|].
  split; [exact example_resumed_listed|].
  destruct (pick_up_twice_restarts_nothing toy_json_load (fun _ => Ok "77")
              "/scratch/out" "peregrine.sh" example_logs.*1 example_resumed.*1
              3 "batch-h" "haswell" "res_stock" example_cluster example_cluster_resumed
              example_logs_listed example_pick_up example_resumed_listed)
    as [Harchived (n & Hscan & _)].
  split.
  - exact (proj1 (Harchived "job.out-2" "2"
             "=>> PBS: job killed: walltime 3611 exceeded limit 3600"
             eq_refl eq_refl eq_refl)).
  - exists n. exact Hscan.
Defined.

(** The example directory: the units per job are 3, the length of the
    batch of [job002.json], and the task list submitted is "2,10". *)
Lemma pick_up_recovers_size_and_resubmits_witness :
  listdir (files example_cluster) example_logs.*1
  ∧ pick_up_where_left_off toy_json_load (fun _ => Ok "77") "/scratch/out" "peregrine.sh"
      example_logs.*1 3 "batch-h" "haswell" "res_stock" example_cluster
    = Ok example_cluster_resumed
  ∧ ∃ st,
      scan_output_dir toy_json_load example_logs.*1 (files example_cluster) = Ok st
      ∧ Sorted N.le (jobs_to_restart st)
      ∧ (3 <= n_sims_per_job st)%nat
      ∧ files example_cluster_resumed !! "job002.json" = Some "abc".
Proof.
  split; [exact example_logs_listed|]. split; [exact example_pick_up|].
  destruct (pick_up_recovers_size_and_resubmits toy_json_load (fun _ => Ok "77")
              "/scratch/out" "peregrine.sh" example_logs.*1
              3 "batch-h" "haswell" "res_stock" example_cluster example_cluster_resumed
              example_logs_listed example_pick_up)
    as (st & nodes & jobid & Hscan & Hmax & _ & _ & Hsame & Hsorted & _).
  exists st. split; [exact Hscan|]. split; [exact Hsorted|]. split.
  - exact (Hmax "job002.json" "abc" (mkJob 0 (repeat (1%nat, None) 3))
             eq_refl eq_refl eq_refl).
  - rewrite (Hsame "job002.json" eq_refl). reflexivity.
Defined.

(** * Further properties of the sampler *)

Lemma dict_get_set_eq {V} k (v : V) (d : dict V) : dict_get k (dict_set k v d) = Some v.
Proof.
  induction d as [|[k' v'] d IH]; simpl; [by rewrite String.eqb_refl|].
  destruct (String.eqb_spec k k') as [->|Hne]; simpl.
  - by rewrite String.eqb_refl.
  - destruct (String.eqb_spec k k'); [done|apply IH].
Qed.

Lemma dict_get_set_ne {V} k k' (v : V) (d : dict V) :
  k ≠ k' → dict_get k (dict_set k' v d) = dict_get k d.
Proof.
  intros Hne. induction d as [|[k'' v''] d IH]; simpl.
  - by destruct (String.eqb_spec k k').
  - destruct (String.eqb_spec k' k'') as [->|Hne']; simpl.
    + by destruct (String.eqb_spec k k'').
    + destruct (String.eqb_spec k k''); [done|apply IH].
Qed.

Lemma build_dependency_hash_lookup tsv_hash attrs acc :
  (∀ attr, attr ∈ attrs → attr ∈ dict_keys tsv_hash) →
  ∃ dependency_hash,
    for_each
      (fun dependency_hash attr =>
         df ← dict_item attr tsv_hash;
         Ok (dict_set attr (tsv_dependencies df) dependency_hash))
      attrs acc = Ok dependency_hash
    ∧ ∀ attr,
        dict_get attr dependency_hash =
        if str_in attr attrs then tsv_dependencies <$> dict_get attr tsv_hash
        else dict_get attr acc.
Proof.
  revert acc. induction attrs as [|a attrs IH]; simpl; intros acc Hin.
  - by exists acc.
  - destruct (dict_get_key a tsv_hash) as [df Hdf]; [apply Hin; left|].
    unfold dict_item. rewrite Hdf. simpl.
    destruct (IH (dict_set a (tsv_dependencies df) acc)) as (d & Hd & Hget);
      [intros b Hb; apply Hin; by right|].
    exists d. split; [done|]. intros attr. rewrite Hget.
    destruct (str_in attr attrs) eqn:Hattr; [by rewrite orb_true_r|].
    rewrite orb_false_r. destruct (String.eqb_spec attr a) as [->|Hne].
    + by rewrite dict_get_set_eq, Hdf.
    + by rewrite dict_get_set_ne.
Qed.

Lemma filter_partition_Permutation {A} (f : A → bool) (l : list A) :
  List.filter f l ++ List.filter (fun a => negb (f a)) l ≡ₚ l.
Proof.
  induction l as [|a l IH]; simpl; [done|]. destruct (f a); simpl.
  - by rewrite IH.
  - by rewrite <- Permutation_middle, IH.
Qed.

(** X1. [_com_order_tsvs] returns for every set of tables; the dependency
    hash it returns maps each table name to the names of the [Dependency=]
    columns of its table, and the order it returns lists every key of that
    hash exactly once. *)
Theorem com_order_tsvs_lists_every_table tsv_hash :
  ∃ dependency_hash attr_order,
    _com_order_tsvs tsv_hash = Ok (dependency_hash, attr_order)
    ∧ (∀ attr, dict_get attr dependency_hash
               = tsv_dependencies <$> dict_get attr tsv_hash)
    ∧ attr_order ≡ₚ dict_keys dependency_hash
    ∧ NoDup attr_order.
Proof.
  destruct (com_order_tsvs_returns tsv_hash) as (d & Hd & Hret).
  destruct (build_dependency_hash_ok tsv_hash) as (d' & Hd' & Hnd).
  assert (d' = d) as -> by congruence.
  exists d, (dependents_first d). split; [done|].
  assert (Hperm : dependents_first d ≡ₚ dict_keys d).
  { unfold dependents_first, dict_keys. rewrite <- map_app.
    apply fmap_Permutation, filter_partition_Permutation. }
  split; [|split; [done|by rewrite Hperm]].
  intros attr. unfold build_dependency_hash in Hd.
  destruct (build_dependency_hash_lookup tsv_hash (dict_keys tsv_hash) [])
    as (d2 & Hd2 & Hget); [done|].
  assert (d2 = d) as -> by congruence. rewrite Hget.
  destruct (str_in attr (dict_keys tsv_hash)) eqn:Hin; [done|].
  apply str_in_false in Hin. simpl.
  destruct (dict_get attr tsv_hash) as [df|] eqn:Hdf; [|done].
  exfalso. apply Hin. apply dict_get_elem in Hdf.
  apply list_elem_of_fmap. by exists (attr, df).
Qed.

Lemma deepcopy_get (dependency_hash : dict (list string)) attr :
  dict_get attr (deepcopy dependency_hash) = PList <$> dict_get attr dependency_hash.
Proof.
  induction dependency_hash as [|[k v] d IH]; simpl; [done|].
  by destruct (String.eqb attr k).
Qed.

(** An attribute sampled before one of its dependencies: the dependency
    column is compared with the dependency list still held for the
    dependency, which pandas refuses unless the table has as many rows as
    that list has names. *)
Lemma execute_sample_unsampled_dependency tsv_hash dependency_hash attr rest df dep deps
    dep_deps j sample_matrix sample_index x xs io :
  dict_get attr tsv_hash = Some df →
  dict_get attr dependency_hash = Some (dep :: deps) →
  column_index ("Dependency=" +:+ dep) (df_columns df) = Some j →
  dict_get dep dependency_hash = Some dep_deps →
  length (df_values df) ≠ length dep_deps →
  sample_column sample_matrix sample_index = Ok (x :: xs) →
  _com_execute_sample tsv_hash dependency_hash (attr :: rest) sample_matrix sample_index io
  = Raise ValueError.
Proof.
  intros Hdf Hdeps Hcol Hdep Hlen Hsv.
  unfold _com_execute_sample. rewrite Hsv. cbn [mbind result_bind sample_attrs].
  unfold dict_item. rewrite Hdf, deepcopy_get, Hdeps. cbn.
  unfold filter_dependency. rewrite Hcol. cbn.
  unfold dict_item. rewrite deepcopy_get, Hdep. cbn.
  rewrite length_map. destruct (Nat.eqb_spec (length (df_values df)) (length dep_deps)); done.
Qed.

(** X2. The order of [_com_order_tsvs] and the sampling loop do not fit
    together: when the first attribute of the order has a table with at
    least one row and depends, first, on a table without dependencies,
    every sample raises [ValueError], so a run of [run_sampling] that takes
    any sample ends with that exception. *)
Theorem run_sampling_fails_on_dependent_tables gen tsv_hash n_samples dependency_hash
    attr rest df dep deps j index x xs others :
  _com_order_tsvs tsv_hash = Ok (dependency_hash, attr :: rest) →
  dict_get attr tsv_hash = Some df →
  dict_get attr dependency_hash = Some (dep :: deps) →
  column_index ("Dependency=" +:+ dep) (df_columns df) = Some j →
  dict_get dep dependency_hash = Some [] →
  df_values df ≠ [] →
  sample_column (_com_execute_sobol_sampling gen (length (attr :: rest)) n_samples) index
    = Ok (x :: xs) →
  run_sampling gen tsv_hash n_samples (index :: others) = Raise ValueError.
Proof.
  intros Horder Hdf Hdeps Hcol Hdep Hrows Hsv.
  unfold run_sampling. rewrite Horder. cbn [mbind result_bind].
  unfold run_samples. cbn [for_each].
  rewrite (execute_sample_unsampled_dependency tsv_hash dependency_hash attr rest df dep
             deps [] j _ index x xs _ Hdf Hdeps Hcol Hdep); [done| |done].
  destruct (df_values df); [done|]. simpl. lia.
Qed.

(** The tables "A" and "B" on the example points: "B" comes first in the
    order and its column [Dependency=A] is compared with the empty
    dependency list of "A". *)
Lemma run_sampling_fails_on_dependent_tables_witness :
  _com_order_tsvs [("A", tsv_A); ("B", tsv_B)] = Ok (example_dependency_hash, ["B"; "A"])
  ∧ dict_get "B" [("A", tsv_A); ("B", tsv_B)] = Some tsv_B
  ∧ column_index ("Dependency=" +:+ "A") (df_columns tsv_B) = Some 0%nat
  ∧ df_values tsv_B ≠ []
  ∧ run_sampling example_points [("A", tsv_A); ("B", tsv_B)] 2 [0; 1]%nat
    = Raise ValueError.
Proof.
  assert (H1 : _com_order_tsvs [("A", tsv_A); ("B", tsv_B)]
               = Ok (example_dependency_hash, ["B"; "A"])) by (vm_compute; reflexivity).
  assert (H2 : dict_get "B" [("A", tsv_A); ("B", tsv_B)] = Some tsv_B) by reflexivity.
  assert (H4 : column_index ("Dependency=" +:+ "A") (df_columns tsv_B) = Some 0%nat)
    by reflexivity.
  assert (H6 : df_values tsv_B ≠ []) by discriminate.
  split; [exact H1|]. split; [exact H2|]. split; [exact H4|]. split; [exact H6|].
  exact (run_sampling_fails_on_dependent_tables example_points
           [("A", tsv_A); ("B", tsv_B)] 2 example_dependency_hash "B" ["A"] tsv_B "A" [] 0
           0 0.999999%float [0.999999]%float [1%nat]
           H1 H2 eq_refl H4 eq_refl H6 eq_refl).
Defined.

Lemma elem_of_remove_nth {A} (j : nat) (l : list A) x : x ∈ remove_nth j l → x ∈ l.
Proof.
  revert j. induction l as [|y l IH]; intros j Hx; [by destruct j|].
  destruct j as [|j]; simpl in Hx; [by right|].
  apply elem_of_cons in Hx as [->|Hx]; [by left|right; by eapply IH].
Qed.

Lemma filter_dependency_columns ctx tsv_lkup dependency tsv_lkup' :
  filter_dependency ctx tsv_lkup dependency = Ok tsv_lkup' →
  ∀ name, name ∈ df_columns tsv_lkup' → name ∈ df_columns tsv_lkup.
Proof.
  unfold filter_dependency. intros H name Hname.
  destruct (column_index _ _) as [j|]; simpl in H; [|done].
  destruct (dict_item dependency ctx) as [v|]; simpl in H; [|done].
  destruct (series_eq _ v) as [mask|]; simpl in H; [|done].
  injection H as <-. simpl in Hname. by eapply elem_of_remove_nth.
Qed.

Lemma filter_dependencies_columns ctx dependencies tsv_lkup tsv_lkup' :
  for_each (filter_dependency ctx) dependencies tsv_lkup = Ok tsv_lkup' →
  ∀ name, name ∈ df_columns tsv_lkup' → name ∈ df_columns tsv_lkup.
Proof.
  revert tsv_lkup. induction dependencies as [|d ds IH]; intros t H name Hname; simpl in H.
  - by injection H as ->.
  - destruct (filter_dependency ctx t d) as [t1|] eqn:Ht1; simpl in H; [|done].
    eapply filter_dependency_columns; [done|]. by eapply IH.
Qed.

Lemma option_names_mono (t t' : DataFrame) v :
  (∀ name, name ∈ df_columns t' → name ∈ df_columns t) →
  v ∈ option_names t' → v ∈ option_names t.
Proof.
  unfold option_names. intros Hsub Hv.
  apply list_elem_of_fmap in Hv as (name & -> & Hname).
  apply list_elem_of_In, filter_In in Hname as [Hname Hopt].
  apply list_elem_of_fmap. exists name. split; [done|].
  apply list_elem_of_In, filter_In. split; [|done].
  by apply list_elem_of_In, Hsub, list_elem_of_In.
Qed.

Lemma elem_of_compress {A} (data : list A) (selectors : list bool) x :
  x ∈ compress data selectors → x ∈ data.
Proof.
  revert selectors. induction data as [|d data IH]; intros [|s selectors] Hx;
    simpl in Hx; try by apply not_elem_of_nil in Hx.
  destruct s.
  - apply elem_of_cons in Hx as [->|Hx]; [by left|right; by eapply IH].
  - right. by eapply IH.
Qed.

Lemma select_option_in tsv_lkup x v :
  select_option tsv_lkup x = Ok v → v ∈ option_names tsv_lkup.
Proof.
  unfold select_option, first_item, option_names. intros H.
  destruct (numbers _) as [weights|]; simpl in H; [|done].
  destruct (compress _ _) as [|v' l] eqn:Hc; simpl in H; [done|]. injection H as ->.
  eapply elem_of_compress. rewrite Hc. by left.
Qed.

Lemma sample_attrs_resolved tsv_hash sample_vector sample_index attrs :
  ∀ k ctx rv rv',
    sample_attrs tsv_hash sample_vector sample_index attrs k ctx rv = Ok (Resolved rv') →
    ∃ vs,
      rv' = rv ++ vs
      ∧ Forall2 (fun attr v =>
                   ∃ df, dict_get attr tsv_hash = Some df ∧ v ∈ option_names df)
                attrs vs.
Proof.
  induction attrs as [|attr attrs IH]; intros k ctx rv rv' H; simpl in H.
  - injection H as <-. exists []. by rewrite app_nil_r.
  - unfold dict_item in H.
    destruct (dict_get attr tsv_hash) as [df|] eqn:Hdf; simpl in H; [|done].
    destruct (sample_vector !! k) as [x|]; simpl in H; [|done].
    destruct (dict_get attr ctx) as [deps|]; simpl in H; [|done].
    destruct (for_each (filter_dependency ctx) (iter_items deps) df) as [t|] eqn:Ht;
      simpl in H; [|done].
    destruct (df_shape0 t) as [|[|n]]; [done| |done].
    destruct (select_option t x) as [v|] eqn:Hv; simpl in H; [|done].
    apply IH in H as (vs & -> & Hvs). exists (v :: vs). split; [by rewrite <- app_assoc|].
    constructor; [|done]. exists df. split; [done|].
    eapply option_names_mono; [by eapply filter_dependencies_columns|].
    by eapply select_option_in.
Qed.

(** X3. Whenever the loop of [_com_execute_sample] resolves a sample, the
    result vector holds one value per attribute of the order, and the value
    of an attribute is an option name of the table of that attribute: one of
    its headers that contain [Option=], with [Option=] removed. *)
Theorem sample_values_are_option_names tsv_hash sample_vector sample_index attr_order
    ctx result_vector :
  sample_attrs tsv_hash sample_vector sample_index attr_order 0 ctx []
    = Ok (Resolved result_vector) →
  length result_vector = length attr_order
  ∧ Forall2 (fun attr v => ∃ df, dict_get attr tsv_hash = Some df ∧ v ∈ option_names df)
            attr_order result_vector.
Proof.
  intros H. apply sample_attrs_resolved in H as (vs & -> & Hvs). simpl.
  split; [symmetry; by eapply Forall2_length|done].
Qed.

Lemma sample_values_are_option_names_witness :
  sample_attrs [("A", tsv_A); ("B", tsv_B)] [0.25; 0.5]%float 0 ["A"; "B"] 0
               (deepcopy example_dependency_hash) [] = Ok (Resolved ["x"; "q"])
  ∧ length ["x"; "q"] = length ["A"; "B"]
  ∧ Forall2 (fun attr v =>
               ∃ df, dict_get attr [("A", tsv_A); ("B", tsv_B)] = Some df
                     ∧ v ∈ option_names df)
            ["A"; "B"] ["x"; "q"].
Proof.
  assert (H : sample_attrs [("A", tsv_A); ("B", tsv_B)] [0.25; 0.5]%float 0 ["A"; "B"] 0
                (deepcopy example_dependency_hash) [] = Ok (Resolved ["x"; "q"]))
    by reflexivity.
  split; [exact H|].
  exact (sample_values_are_option_names _ _ _ _ _ _ H).
Defined.

Lemma str_join_leading_digits (n : nat) (fields : list string) :
  span_digits (str_join "," (str_of_nat n :: fields) +:+ newline)
  = (str_of_nat n,
     match fields with
     | [] => newline
     | _ :: _ => "," +:+ str_join "," fields +:+ newline
     end).
Proof.
  destruct fields as [|f fields].
  - cbn [str_join]. by apply span_digits_app; [apply str_of_nat_only_digits|].
  - change (str_join "," (str_of_nat n :: f :: fields))
      with (str_of_nat n +:+ "," +:+ str_join "," (f :: fields)).
    rewrite !str_app_assoc.
    by apply span_digits_app; [apply str_of_nat_only_digits|].
Qed.

(** X4. A line written by [_com_execute_sample] starts with the sample
    index plus one, and that number can be read back from the line:
    lines of different samples are different, whatever values they hold. *)
Theorem csv_row_carries_index (sample_index : nat) (result_vector : list string) :
  row_index_of (csv_row_of sample_index result_vector) = Some (sample_index + 1)%nat
  ∧ ∀ sample_index' result_vector',
      csv_row_of sample_index result_vector = csv_row_of sample_index' result_vector' →
      sample_index = sample_index'.
Proof.
  assert (Hread : ∀ i rv, row_index_of (csv_row_of i rv) = Some (i + 1)%nat).
  { intros i rv. unfold row_index_of.
    rewrite csv_row_of_join, str_join_leading_digits. simpl. apply str_of_nat_read. }
  split; [apply Hread|]. intros i' rv' Heq.
  pose proof (Hread sample_index result_vector) as H1. rewrite Heq, Hread in H1.
  injection H1. lia.
Qed.

(** X5. The header [run_sampling] writes is [Building] followed by the
    attribute names, separated by commas, without the trailing comma the
    loop leaves, and ended by a newline; with no attribute it is the line
    [Building]. *)
Theorem csv_header_join (attr_order : list string) :
  csv_header attr_order = str_join "," ("Building" :: attr_order) +:+ newline.
Proof.
  unfold csv_header. f_equal.
  change "Building," with ("Building" +:+ ",").
  generalize "Building" as h.
  induction attr_order as [|a attrs IH]; intros h.
  - simpl. apply str_drop_last_snoc.
  - cbn [fold_left]. rewrite <- str_join_cons_cons, <- IH.
    by rewrite !str_app_assoc.
Qed.

Lemma sample_attrs_warning_index tsv_hash sample_vector sample_index attrs :
  ∀ k ctx rv w,
    sample_attrs tsv_hash sample_vector sample_index attrs k ctx rv = Ok (ReducedToZero w) →
    warn_index w = sample_index ∧ warn_attr w ∈ attrs.
Proof.
  induction attrs as [|attr attrs IH]; intros k ctx rv w H; simpl in H; [done|].
  destruct (dict_item attr tsv_hash) as [df|]; simpl in H; [|done].
  destruct (sample_vector !! k) as [x|]; simpl in H; [|done].
  destruct (dict_item attr ctx) as [deps|]; simpl in H; [|done].
  destruct (for_each (filter_dependency ctx) (iter_items deps) df) as [t|];
    simpl in H; [|done].
  destruct (df_shape0 t) as [|[|n]]; [| |done].
  - injection H as <-. simpl. split; [done|by left].
  - destruct (select_option t x) as [v|]; simpl in H; [|done].
    apply IH in H as [? ?]. split; [done|by right].
Qed.

(** X6. In a run that returns, every sample of the schedule leaves exactly
    one trace, in the order of the schedule: either the one line of the
    values its loop resolved to, appended to the file, or the one warning
    of the attribute whose table was reduced to no row; never both and
    never none. The file at the end is the file at the start followed by
    those lines, and the warnings are those at the start followed by those
    warnings. *)
Theorem run_samples_one_trace_per_sample tsv_hash dependency_hash attr_order sample_matrix
    schedule io io' :
  run_samples tsv_hash dependency_hash attr_order sample_matrix schedule io = Ok io' →
  ∃ traces : list (list string * list Warning),
    Forall2
      (fun index trace =>
         ∃ sample_vector,
           sample_column sample_matrix index = Ok sample_vector
           ∧ ((∃ result_vector,
                 sample_attrs tsv_hash sample_vector index attr_order 0
                              (deepcopy dependency_hash) [] = Ok (Resolved result_vector)
                 ∧ trace = ([csv_row_of index result_vector], []))
              ∨ (∃ w,
                   sample_attrs tsv_hash sample_vector index attr_order 0
                                (deepcopy dependency_hash) [] = Ok (ReducedToZero w)
                   ∧ warn_index w = index ∧ warn_attr w ∈ attr_order
                   ∧ trace = ([], [w]))))
      schedule traces
    ∧ csv_file io' = csv_file io +:+ str_concat (concat (map fst traces))
    ∧ warnings io' = warnings io ++ concat (map snd traces).
Proof.
  unfold run_samples. revert io.
  induction schedule as [|index schedule IH]; intros io H; simpl in H.
  - injection H as <-. exists []. split; [constructor|].
    simpl. by rewrite str_app_nil_r, app_nil_r.
  - destruct (_com_execute_sample _ _ _ _ index io) as [io1|] eqn:Hstep; simpl in H; [|done].
    apply IH in H as (traces & Hall & Hcsv & Hw).
    unfold _com_execute_sample in Hstep.
    destruct (sample_column sample_matrix index) as [sv|] eqn:Hsv; simpl in Hstep; [|done].
    destruct (sample_attrs _ _ _ _ _ _ _) as [[rv|w]|] eqn:Hloop; simpl in Hstep; [| |done].
    + injection Hstep as <-. simpl in Hcsv, Hw.
      exists (([csv_row_of index rv], []) :: traces). split_and!.
      * constructor; [|done]. exists sv. split; [done|]. left. by exists rv.
      * rewrite Hcsv. simpl. by rewrite str_app_assoc.
      * by rewrite Hw.
    + injection Hstep as <-. simpl in Hcsv, Hw.
      destruct (sample_attrs_warning_index _ _ _ _ _ _ _ _ Hloop) as [Hidx Hattr].
      exists (([], [w]) :: traces). split_and!.
      * constructor; [|done]. exists sv. split; [done|]. right. by exists w.
      * by rewrite Hcsv.
      * rewrite Hw. simpl. by rewrite <- app_assoc.
Qed.

(** Two samples of the tables "A" and the gapped "B": sample 0 writes its
    line, sample 1 is rejected with a warning. *)
Lemma run_samples_one_trace_per_sample_witness :
  run_samples [("A", tsv_A); ("B", tsv_B_gap)] example_dependency_hash ["A"; "B"]
              example_matrix [0; 1]%nat (mkIO (csv_header ["A"; "B"]) [])
  = Ok (mkIO (csv_header ["A"; "B"] +:+ "1,x,q" +:+ newline)
             [mkWarning "B" 1 [("A", PStr "y"); ("B", PList ["A"])]])
  ∧ ∃ traces : list (list string * list Warning),
      length traces = 2%nat
      ∧ csv_header ["A"; "B"] +:+ "1,x,q" +:+ newline
        = csv_header ["A"; "B"] +:+ str_concat (concat (map fst traces))
      ∧ [mkWarning "B" 1 [("A", PStr "y"); ("B", PList ["A"])]]
        = [] ++ concat (map snd traces).
Proof.
  assert (H : run_samples [("A", tsv_A); ("B", tsv_B_gap)] example_dependency_hash
                ["A"; "B"] example_matrix [0; 1]%nat (mkIO (csv_header ["A"; "B"]) [])
              = Ok (mkIO (csv_header ["A"; "B"] +:+ "1,x,q" +:+ newline)
                         [mkWarning "B" 1 [("A", PStr "y"); ("B", PList ["A"])]]))
    by reflexivity.
  split; [exact H|].
  destruct (run_samples_one_trace_per_sample _ _ _ _ _ _ _ H)
    as (traces & Hall & Hcsv & Hw).
  exists traces. split; [symmetry; exact (Forall2_length _ _ _ Hall)|].
  split; [exact Hcsv|exact Hw].
Defined.

(** * Further properties of the batch driver *)

(** ** The number of jobs *)

Lemma batch_sizes_count (fuel n len : nat) :
  (0 < n)%nat → (len <= fuel)%nat →
  (length (batch_sizes fuel n len) * n < len + n)%nat
  ∧ (len <= length (batch_sizes fuel n len) * n)%nat.
Proof.
  intros Hn. revert len. induction fuel as [|fuel IH]; intros len Hlen; simpl; [lia|].
  destruct (Nat.min n len) as [|k] eqn:Hmin; simpl; [lia|].
  destruct (IH (len - n)%nat) as [H1 H2]; [lia|].
  destruct (Nat.le_gt_cases n len) as [Hle|Hgt]; [lia|].
  replace (len - n)%nat with 0%nat in * by lia.
  assert (length (batch_sizes fuel n 0) = 0%nat) as -> by nia. lia.
Qed.

Lemma workload_length (n_datapoints n_upgrades : nat) :
  length (workload n_datapoints n_upgrades) = (n_datapoints * (n_upgrades + 1))%nat.
Proof.
  unfold workload, baseline_sims, upgrade_sims.
  rewrite length_app, !length_map, length_prod, !length_seq. lia.
Qed.

Lemma plan_jobs_length shuffle n_datapoints n_upgrades n_sims_per_job :
  (∀ l : list sim, shuffle l ≡ₚ l) →
  length (plan_jobs shuffle n_datapoints n_upgrades n_sims_per_job)
  = length (batch_sizes (n_datapoints * (n_upgrades + 1)) (Z.to_nat n_sims_per_job)
                        (n_datapoints * (n_upgrades + 1))).
Proof.
  intros Hshuffle.
  rewrite <- (length_map batch), plan_jobs_batches.
  rewrite <- (length_map (@length sim)). unfold islice_batches.
  by rewrite batches_from_sizes, (Permutation_length (Hshuffle _)), workload_length.
Qed.

(** X7. The number of job files [run_batch] writes is the ceiling of the
    number of simulations over the units per job; for a positive [n_jobs]
    it is never above [n_jobs], as the comment of line 204 promises. *)
Theorem run_batch_job_count shuffle n_datapoints n_upgrades n_jobs n_sims_per_job :
  (∀ l : list sim, shuffle l ≡ₚ l) →
  sims_per_job (Z.of_nat n_datapoints * (Z.of_nat n_upgrades + 1)) n_jobs
    = Ok n_sims_per_job →
  Z.of_nat (length (plan_jobs shuffle n_datapoints n_upgrades n_sims_per_job))
    = ceil_div (Z.of_nat n_datapoints * (Z.of_nat n_upgrades + 1)) n_sims_per_job
  ∧ ((0 < n_jobs)%Z →
     (Z.of_nat (length (plan_jobs shuffle n_datapoints n_upgrades n_sims_per_job))
      <= n_jobs)%Z).
Proof.
  intros Hshuffle Hper. rewrite (plan_jobs_length _ _ _ _ Hshuffle).
  unfold sims_per_job in Hper. destruct (Z.eqb_spec n_jobs 0) as [|Hne]; [done|].
  injection Hper as <-.
  set (n_sims := (Z.of_nat n_datapoints * (Z.of_nat n_upgrades + 1))%Z).
  set (n := Z.max (ceil_div n_sims n_jobs) 48).
  assert (Hn : (48 <= n)%Z) by (unfold n; lia).
  assert (Hlen : Z.of_nat (n_datapoints * (n_upgrades + 1)) = n_sims)
    by (unfold n_sims; lia).
  destruct (batch_sizes_count (n_datapoints * (n_upgrades + 1)) (Z.to_nat n)
              (n_datapoints * (n_upgrades + 1))) as [H1 H2]; [lia|lia|].
  set (K := length (batch_sizes _ _ _)) in *.
  assert (H1' : (Z.of_nat K * n < n_sims + n)%Z) by (rewrite <- Hlen; nia).
  assert (H2' : (n_sims <= Z.of_nat K * n)%Z) by (rewrite <- Hlen; nia).
  split.
  - destruct (ceil_div_spec n_sims n) as [H3 H4]; [lia|]. nia.
  - intros Hpos. destruct (ceil_div_spec n_sims n_jobs Hpos) as [H3 H4].
    assert (Hge : (ceil_div n_sims n_jobs <= n)%Z) by (unfold n; lia).
    nia.
Qed.

Lemma run_batch_job_count_witness :
  Z.of_nat (length (plan_jobs (@rev sim) 100 0 48)) = 3%Z
  ∧ (Z.of_nat (length (plan_jobs (@rev sim) 100 0 48)) <= 200)%Z.
Proof.
  assert (H1 : ∀ l : list sim, rev l ≡ₚ l) by (intros l; symmetry; apply Permutation_rev).
  assert (H2 : sims_per_job (Z.of_nat 100 * (Z.of_nat 0 + 1)) 200 = Ok 48%Z)
    by reflexivity.
  destruct (run_batch_job_count (@rev sim) 100 0 200 48 H1 H2) as [Hcount Hmax].
  split; [exact Hcount|]. apply Hmax. lia.
Defined.

(** ** The sampling step of [run_batch] *)

Lemma prefix_app (p s : string) : String.prefix p (p +:+ s) = true.
Proof.
  induction p as [|a p IH]; [by destruct s|].
  rewrite str_app_cons. simpl. by destruct (Ascii.ascii_dec a a).
Qed.

Lemma str_app_inv_l (p a b : string) : p +:+ a = p +:+ b → a = b.
Proof.
  induction p as [|c p IH]; [by rewrite !str_app_nil_l|].
  rewrite !str_app_cons. intros [= H]. by apply IH.
Qed.

Lemma rmtree_lookup (dir : string) (fs : gmap string string) name :
  rmtree dir fs !! name = if String.prefix (dir +:+ "/") name then None else fs !! name.
Proof.
  unfold rmtree. destruct (String.prefix (dir +:+ "/") name) eqn:Hp.
  - apply map_lookup_filter_None. right. intros text _. simpl. congruence.
  - destruct (fs !! name) as [text|] eqn:Hname.
    + by apply map_lookup_filter_Some.
    + apply map_lookup_filter_None. by left.
Qed.

Lemma copytree_lookup (src_files : list (string * string)) (dst : string) :
  ∀ (fs : gmap string string) name text,
    copytree src_files dst fs !! name = Some text →
    (∃ rel, name = dst +:+ "/" +:+ rel ∧ (rel, text) ∈ src_files)
    ∨ fs !! name = Some text.
Proof.
  unfold copytree. induction src_files as [|[rel t] src_files IH]; intros fs name text H;
    simpl in H; [by right|].
  apply IH in H as [(rel' & -> & Hin)|H].
  - left. exists rel'. split; [done|by right].
  - destruct (decide (name = dst +:+ "/" +:+ rel)) as [->|Hne].
    + rewrite lookup_insert_eq in H. injection H as ->. left. exists rel.
      split; [done|by left].
    + rewrite lookup_insert_ne in H by done. by right.
Qed.

Lemma copytree_lookup_other (src_files : list (string * string)) (dst : string) :
  ∀ (fs : gmap string string) name,
    String.prefix (dst +:+ "/") name = false →
    copytree src_files dst fs !! name = fs !! name.
Proof.
  unfold copytree. induction src_files as [|[rel t] src_files IH]; intros fs name Hp;
    simpl; [done|].
  rewrite IH by done. apply lookup_insert_ne. intros <-.
  by rewrite <- str_app_assoc, prefix_app in Hp.
Qed.

Section RunBatchFacts.
Variable json_dump : job_d → string.
Variable shuffle : list sim → list sim.
Variable qsub : list string → result string.
Variable output_dir : string.
Variable peregrine_sh : string.
Variable downselect : gmap string string → result (gmap string string).
Variable singularity_sampling : list string → result (option string).
Variable buildstock_dir : string.
Variable singularity_image : string.
Variable project_directory : string.
Variable project_housing_characteristics : option (list (string * string)).

(** What a call of [run_sampling] that returns has done. *)
Lemma run_sampling_inv n_datapoints (fs fs' : gmap string string) :
  PeregrineBatch_run_sampling singularity_sampling buildstock_dir singularity_image
    project_directory project_housing_characteristics n_datapoints fs = Ok fs' →
  ∃ buildstock_csv src_files,
    singularity_sampling
      (run_sampling_args buildstock_dir singularity_image project_directory n_datapoints)
    = Ok (Some buildstock_csv)
    ∧ project_housing_characteristics = Some src_files
    ∧ fs' = <["housing_characteristics/buildstock.csv" := buildstock_csv]>
              (copytree src_files "housing_characteristics"
                 (rmtree "housing_characteristics" fs)).
Proof.
  unfold PeregrineBatch_run_sampling. intros H.
  destruct (singularity_sampling _) as [[csv|]|e] eqn:Hrun; simpl in H; try done;
    destruct (bool_decide (is_Some (fs !! "housing_characteristics"))); simpl in H;
    try done;
    destruct project_housing_characteristics as [src_files|]; simpl in H; try done;
    destruct (fs_exists _ _); try done.
  injection H as <-. by exists csv, src_files.
Qed.

(** [run_sampling] leaves alone what is not below [housing_characteristics]. *)
Lemma run_sampling_frame n_datapoints (fs fs' : gmap string string) name :
  PeregrineBatch_run_sampling singularity_sampling buildstock_dir singularity_image
    project_directory project_housing_characteristics n_datapoints fs = Ok fs' →
  String.prefix "housing_characteristics/" name = false →
  fs' !! name = fs !! name.
Proof.
  intros H Hp. apply run_sampling_inv in H as (csv & src_files & _ & _ & ->).
  rewrite lookup_insert_ne.
  2:{ intros <-. done. }
  rewrite copytree_lookup_other by done. rewrite rmtree_lookup.
  change ("housing_characteristics" +:+ "/") with "housing_characteristics/".
  by rewrite Hp.
Qed.

(** X22. A call of [run_sampling] that returns has run the container, which
    left a buildstock.csv, and has replaced [housing_characteristics] in
    the output directory: the files below it are afterwards the
    buildstock.csv of the container and files of the project's directory,
    whatever was there before; every file of the output directory that is
    not below [housing_characteristics] is as it was. *)
Theorem run_sampling_replaces_housing_characteristics n_datapoints
    (fs fs' : gmap string string) :
  PeregrineBatch_run_sampling singularity_sampling buildstock_dir singularity_image
    project_directory project_housing_characteristics n_datapoints fs = Ok fs' →
  ∃ buildstock_csv src_files,
    singularity_sampling
      (run_sampling_args buildstock_dir singularity_image project_directory n_datapoints)
    = Ok (Some buildstock_csv)
    ∧ project_housing_characteristics = Some src_files
    ∧ fs' !! "housing_characteristics/buildstock.csv" = Some buildstock_csv
    ∧ (∀ name text,
         fs' !! ("housing_characteristics/" +:+ name) = Some text →
         (name = "buildstock.csv" ∧ text = buildstock_csv) ∨ (name, text) ∈ src_files)
    ∧ (∀ name,
         String.prefix "housing_characteristics/" name = false →
         fs' !! name = fs !! name).
Proof.
  intros H. pose proof (fun name => run_sampling_frame _ _ _ name H) as Hframe.
  apply run_sampling_inv in H as (csv & src_files & Hrun & Hsrc & ->).
  exists csv, src_files. split_and!; [done|done|by rewrite lookup_insert_eq| |done].
  - intros name text H.
    destruct (decide (name = "buildstock.csv")) as [->|Hne].
    + left. split; [done|].
      change ("housing_characteristics/" +:+ "buildstock.csv")
        with "housing_characteristics/buildstock.csv" in H.
      rewrite lookup_insert_eq in H. by injection H.
    + right. rewrite lookup_insert_ne in H.
      2:{ change "housing_characteristics/buildstock.csv"
            with ("housing_characteristics/" +:+ "buildstock.csv").
          intros Heq. by apply str_app_inv_l in Heq. }
      apply copytree_lookup in H as [(rel & Heq & Hin)|H].
      * change ("housing_characteristics" +:+ "/" +:+ rel)
          with ("housing_characteristics/" +:+ rel) in Heq.
        apply str_app_inv_l in Heq. by subst.
      * rewrite rmtree_lookup in H.
        change ("housing_characteristics" +:+ "/") with "housing_characteristics/" in H.
        by rewrite prefix_app in H.
Qed.

(** ** What [run_batch] submits and what it leaves alone *)

(** What a call of [run_batch] that returns has done. *)
Lemma run_batch_inv downselect_in_cfg n_datapoints n_upgrades n_jobs nodetype queue
    allocation minutes_per_sim c c' :
  run_batch json_dump shuffle qsub output_dir peregrine_sh downselect singularity_sampling
            buildstock_dir singularity_image project_directory
            project_housing_characteristics downselect_in_cfg n_datapoints n_upgrades
            n_jobs nodetype queue allocation minutes_per_sim c = Ok c' →
  ∃ fs n_sims_per_job nodes jobid,
    sampling_step downselect singularity_sampling buildstock_dir singularity_image
                  project_directory project_housing_characteristics downselect_in_cfg
                  n_datapoints (files c) = Ok fs
    ∧ sims_per_job (Z.of_nat n_datapoints * (Z.of_nat n_upgrades + 1)) n_jobs
      = Ok n_sims_per_job
    ∧ dict_get nodetype nodes_per_nodetype = Some nodes
    ∧ qsub (queue_jobs_args output_dir peregrine_sh
              (ceil_div n_sims_per_job nodes * minutes_per_sim * 60)
              ("1-" +:+ str_of_nat
                 (length (plan_jobs shuffle n_datapoints n_upgrades n_sims_per_job)))
              queue nodetype allocation) = Ok jobid
    ∧ c' = mkCluster
             (fold_left (write_job json_dump)
                (plan_jobs shuffle n_datapoints n_upgrades n_sims_per_job) fs)
             (submitted c ++
              [queue_jobs_args output_dir peregrine_sh
                 (ceil_div n_sims_per_job nodes * minutes_per_sim * 60)
                 ("1-" +:+ str_of_nat
                    (length (plan_jobs shuffle n_datapoints n_upgrades n_sims_per_job)))
                 queue nodetype allocation;
               post_processing_args output_dir peregrine_sh jobid allocation]).
Proof.
  unfold run_batch. intros H.
  destruct (sampling_step _ _ _ _ _ _ _ _ _) as [fs|e]; cbn [mbind result_bind] in H;
    [|done].
  destruct (sims_per_job _ n_jobs) as [n|e]; cbn [mbind result_bind] in H; [|done].
  unfold _queue_jobs, dict_item in H.
  destruct (dict_get nodetype nodes_per_nodetype) as [nodes|];
    cbn [mbind result_bind or_raise] in H; [|done].
  rewrite Nat.add_comm, Nat.add_sub in H.
  destruct (qsub _) as [jobid|e] eqn:Hq; cbn [mbind result_bind] in H; [|done].
  injection H as <-. exists fs, n, nodes, jobid. split_and!; try done.
  unfold _queue_post_processing. simpl. by rewrite <- app_assoc.
Qed.

(** X8. A call of [run_batch] that returns has gone through the sampling
    step and has added two submissions and no other: the job array over
    the tasks 1 to the number of job files, with the wall time computed
    from the units per job, then the post-processing job that waits for
    the job id the scheduler answered. After the sampling step it has
    touched the job files of those numbers only; when the step is
    [run_sampling], every file that is neither below
    [housing_characteristics] nor one of those job files is what it was
    before the call. *)
Theorem run_batch_submits_array_then_post_processing downselect_in_cfg n_datapoints
    n_upgrades n_jobs nodetype queue allocation minutes_per_sim c c' :
  run_batch json_dump shuffle qsub output_dir peregrine_sh downselect singularity_sampling
            buildstock_dir singularity_image project_directory
            project_housing_characteristics downselect_in_cfg n_datapoints n_upgrades
            n_jobs nodetype queue allocation minutes_per_sim c = Ok c' →
  ∃ fs n_sims_per_job nodes jobid n_written,
    sampling_step downselect singularity_sampling buildstock_dir singularity_image
                  project_directory project_housing_characteristics downselect_in_cfg
                  n_datapoints (files c) = Ok fs
    ∧ sims_per_job (Z.of_nat n_datapoints * (Z.of_nat n_upgrades + 1)) n_jobs
      = Ok n_sims_per_job
    ∧ n_written = length (plan_jobs shuffle n_datapoints n_upgrades n_sims_per_job)
    ∧ dict_get nodetype nodes_per_nodetype = Some nodes
    ∧ qsub (queue_jobs_args output_dir peregrine_sh
              (ceil_div n_sims_per_job nodes * minutes_per_sim * 60)
              ("1-" +:+ str_of_nat n_written) queue nodetype allocation) = Ok jobid
    ∧ submitted c' =
        submitted c ++
        [queue_jobs_args output_dir peregrine_sh
           (ceil_div n_sims_per_job nodes * minutes_per_sim * 60)
           ("1-" +:+ str_of_nat n_written) queue nodetype allocation;
         post_processing_args output_dir peregrine_sh jobid allocation]
    ∧ (∀ name,
         (∀ k, (1 <= k <= n_written)%nat → name ≠ job_json_filename k) →
         files c' !! name = fs !! name)
    ∧ (downselect_in_cfg = false →
       ∀ name,
         String.prefix "housing_characteristics/" name = false →
         (∀ k, (1 <= k <= n_written)%nat → name ≠ job_json_filename k) →
         files c' !! name = files c !! name).
Proof.
  intros Hrun.
  apply run_batch_inv in Hrun as (fs & n & nodes & jobid & Hs & Hper & Hnodes & Hq & ->).
  exists fs, n, nodes, jobid, (length (plan_jobs shuffle n_datapoints n_upgrades n)).
  assert (Hframe : ∀ name,
    (∀ k, (1 <= k <= length (plan_jobs shuffle n_datapoints n_upgrades n))%nat →
          name ≠ job_json_filename k) →
    fold_left (write_job json_dump) (plan_jobs shuffle n_datapoints n_upgrades n) fs
      !! name = fs !! name).
  { intros name Hname. apply write_jobs_other.
    rewrite <- (map_map job_num job_json_filename).
    unfold plan_jobs at 1. rewrite number_jobs_nums.
    intros Hin. apply list_elem_of_fmap in Hin as (k & -> & Hk).
    apply elem_of_seq in Hk. apply (Hname k); [|done].
    unfold plan_jobs. rewrite <- (length_map batch (number_jobs _ _)), number_jobs_batches.
    lia. }
  split_and!; try done.
  intros -> name Hp Hname. simpl. rewrite Hframe by done.
  unfold sampling_step in Hs. by eapply run_sampling_frame.
Qed.

(** X9. The ways [run_batch] fails: the sampling step raises; or, after it,
    a job count of zero divides by zero; or, with another job count, a node
    type outside the table of [_queue_jobs] is a [KeyError] on that name;
    or, with both in order, the exception of the scheduler on the job
    array passes through. Nothing else makes it raise. *)
Theorem run_batch_failures downselect_in_cfg n_datapoints n_upgrades n_jobs nodetype queue
    allocation minutes_per_sim c e :
  run_batch json_dump shuffle qsub output_dir peregrine_sh downselect singularity_sampling
            buildstock_dir singularity_image project_directory
            project_housing_characteristics downselect_in_cfg n_datapoints n_upgrades
            n_jobs nodetype queue allocation minutes_per_sim c = Raise e
  ↔ sampling_step downselect singularity_sampling buildstock_dir singularity_image
                  project_directory project_housing_characteristics downselect_in_cfg
                  n_datapoints (files c) = Raise e
    ∨ ((∃ fs, sampling_step downselect singularity_sampling buildstock_dir
                singularity_image project_directory project_housing_characteristics
                downselect_in_cfg n_datapoints (files c) = Ok fs)
       ∧ ((n_jobs = 0%Z ∧ e = ZeroDivisionError)
          ∨ (n_jobs ≠ 0%Z ∧ dict_get nodetype nodes_per_nodetype = None
             ∧ e = KeyError nodetype)
          ∨ (∃ n_sims_per_job nodes,
               sims_per_job (Z.of_nat n_datapoints * (Z.of_nat n_upgrades + 1)) n_jobs
                 = Ok n_sims_per_job
               ∧ dict_get nodetype nodes_per_nodetype = Some nodes
               ∧ qsub (queue_jobs_args output_dir peregrine_sh
                         (ceil_div n_sims_per_job nodes * minutes_per_sim * 60)
                         ("1-" +:+ str_of_nat
                            (length (plan_jobs shuffle n_datapoints n_upgrades
                                       n_sims_per_job)))
                         queue nodetype allocation) = Raise e))).
Proof.
  unfold run_batch, _queue_jobs, dict_item.
  destruct (sampling_step _ _ _ _ _ _ _ _ _) as [fs|e0]; cbn [mbind result_bind].
  2:{ split; [intros [= <-]; by left|]. intros [[= <-]|[[fs ?] _]]; done. }
  assert (Hfs : ∃ fs0 : gmap string string, Ok fs = Ok fs0) by (by exists fs).
  destruct (sims_per_job _ n_jobs) as [n|e0] eqn:Hper.
  - assert (Hne : n_jobs ≠ 0%Z).
    { intros ->. unfold sims_per_job in Hper. done. }
    destruct (dict_get nodetype nodes_per_nodetype) as [nodes|] eqn:Hnodes.
    + cbn [mbind result_bind or_raise]. rewrite Nat.add_comm, Nat.add_sub.
      destruct (qsub _) as [jobid|e'] eqn:Hq; cbn [mbind result_bind].
      * split; [done|].
        intros [?|[_ [[? _]|[(_ & ? & _)|(n' & nodes' & Hn' & Hnodes' & Hq')]]]];
          try done.
        injection Hn' as <-. injection Hnodes' as <-. by rewrite Hq in Hq'.
      * split.
        -- intros [= <-]. right. split; [done|]. right. right. by exists n, nodes.
        -- intros [?|[_ [[? _]|[(_ & ? & _)|(n' & nodes' & Hn' & Hnodes' & Hq')]]]];
             try done.
           injection Hn' as <-. injection Hnodes' as <-.
           rewrite Hq in Hq'. by injection Hq' as ->.
    + cbn [mbind result_bind or_raise]. split.
      * intros [= <-]. right. split; [done|]. right. by left.
      * intros [?|[_ [[? _]|[(_ & _ & ->)|(n' & nodes' & _ & ? & _)]]]]; done.
  - assert (Hz : n_jobs = 0%Z ∧ e0 = ZeroDivisionError).
    { unfold sims_per_job in Hper. destruct (Z.eqb_spec n_jobs 0); [|done].
      by injection Hper as <-. }
    destruct Hz as [-> ->]. cbn [mbind result_bind]. split.
    + intros [= <-]. right. split; [done|]. by left.
    + intros [?|[_ [[_ ->]|[[? _]|(n & nodes & ? & _)]]]]; done.
Qed.

(** X10. With no datapoint the loop of [run_batch] writes nothing, so the
    files are those the sampling step left, and the call still submits a
    job array, over the tasks ["1-0"], for 48 units per job, and the
    post-processing job after it. *)
Theorem run_batch_without_datapoints downselect_in_cfg n_upgrades n_jobs nodetype queue
    allocation minutes_per_sim c c' :
  (∀ l : list sim, shuffle l ≡ₚ l) →
  run_batch json_dump shuffle qsub output_dir peregrine_sh downselect singularity_sampling
            buildstock_dir singularity_image project_directory
            project_housing_characteristics downselect_in_cfg 0 n_upgrades
            n_jobs nodetype queue allocation minutes_per_sim c = Ok c' →
  sampling_step downselect singularity_sampling buildstock_dir singularity_image
                project_directory project_housing_characteristics downselect_in_cfg
                0 (files c) = Ok (files c')
  ∧ ∃ nodes jobid,
      dict_get nodetype nodes_per_nodetype = Some nodes
      ∧ submitted c' =
          submitted c ++
          [queue_jobs_args output_dir peregrine_sh
             (ceil_div 48 nodes * minutes_per_sim * 60) "1-0" queue nodetype allocation;
           post_processing_args output_dir peregrine_sh jobid allocation].
Proof.
  intros Hshuffle Hrun.
  apply run_batch_inv in Hrun as (fs & n & nodes & jobid & Hs & Hper & Hnodes & Hq & ->).
  assert (Hn : n = 48%Z).
  { unfold sims_per_job in Hper. destruct (Z.eqb n_jobs 0); [done|].
    injection Hper as <-. unfold ceil_div. simpl. rewrite Zdiv_0_l. lia. }
  assert (Hjobs : plan_jobs shuffle 0 n_upgrades n = []).
  { unfold plan_jobs.
    change (baseline_sims 0 ++ upgrade_sims 0 n_upgrades) with (@nil sim).
    by rewrite (proj1 (Permutation_nil_r _) (Hshuffle [])). }
  rewrite Hjobs, Hn. simpl. split; [done|]. by exists nodes, jobid.
Qed.
End RunBatchFacts.

(** A project with one table, a container that writes buildstock.csv, and
    an output directory that holds a log and a stale table. *)
Lemma run_sampling_replaces_housing_characteristics_witness :
  PeregrineBatch_run_sampling (fun _ => Ok (Some "Building,Vintage")) "/opt/buildstock"
    "openstudio.simg" "project_national" (Some [("Vintage.tsv", "Option=1980s")]) 100
    {[ "job.out-7" := "log"; "housing_characteristics/Stale.tsv" := "old" ]}
  = Ok {[ "job.out-7" := "log";
          "housing_characteristics/Vintage.tsv" := "Option=1980s";
          "housing_characteristics/buildstock.csv" := "Building,Vintage" ]}
  ∧ ({[ "job.out-7" := "log";
        "housing_characteristics/Vintage.tsv" := "Option=1980s";
        "housing_characteristics/buildstock.csv" := "Building,Vintage" ]}
      : gmap string string) !! "job.out-7"
    = ({[ "job.out-7" := "log"; "housing_characteristics/Stale.tsv" := "old" ]}
        : gmap string string) !! "job.out-7".
Proof.
  assert (H : PeregrineBatch_run_sampling (fun _ => Ok (Some "Building,Vintage"))
                "/opt/buildstock" "openstudio.simg" "project_national"
                (Some [("Vintage.tsv", "Option=1980s")]) 100
                {[ "job.out-7" := "log"; "housing_characteristics/Stale.tsv" := "old" ]}
              = Ok {[ "job.out-7" := "log";
                      "housing_characteristics/Vintage.tsv" := "Option=1980s";
                      "housing_characteristics/buildstock.csv" := "Building,Vintage" ]})
    by (vm_compute; reflexivity).
  split; [exact H|].
  destruct (run_sampling_replaces_housing_characteristics _ _ _ _ _ _ _ _ H)
    as (csv & src_files & _ & _ & _ & _ & Hframe).
  by apply Hframe.
Defined.

Lemma run_batch_submits_array_then_post_processing_witness :
  ∃ c',
    run_batch (fun job => str_of_nat (job_num job)) (@rev sim) (fun _ => Ok "4242")
      "/scratch/out" "peregrine.sh" (fun fs => Ok fs)
      (fun _ => Ok (Some "Building,Vintage")) "/opt/buildstock" "openstudio.simg"
      "project_national" (Some [("Vintage.tsv", "Option=1980s")]) false
      100 0 200 "haswell" "batch-h" "res_stock" 3
      (mkCluster {[ "job.out-7" := "log" ]} []) = Ok c'
    ∧ submitted c' =
        [["qsub"; "-v"; "PROJECTFILE"; "-q"; "batch-h"; "-A"; "res_stock";
          "-l"; "feature=haswell"; "-l"; "walltime=360"; "-N"; "buildstock";
          "-t"; "1-3"; "-o"; "/scratch/out/job.out"; "peregrine.sh"];
         ["qsub"; "-v"; "PROJECTFILE,POSTPROCESS"; "-W"; "depend=afterokarray:4242";
          "-q"; "bigmem"; "-A"; "res_stock"; "-l"; "feature=256GB";
          "-l"; "walltime=1:30:00"; "-N"; "buildstock_post";
          "-o"; "/scratch/out/postprocessing.out"; "peregrine.sh"]]
    ∧ files c' !! "job.out-7" = Some "log".
Proof.
  destruct (run_batch (fun job => str_of_nat (job_num job)) (@rev sim) (fun _ => Ok "4242")
              "/scratch/out" "peregrine.sh" (fun fs => Ok fs)
              (fun _ => Ok (Some "Building,Vintage")) "/opt/buildstock" "openstudio.simg"
              "project_national" (Some [("Vintage.tsv", "Option=1980s")]) false
              100 0 200 "haswell" "batch-h" "res_stock" 3
              (mkCluster {[ "job.out-7" := "log" ]} [])) as [c'|e] eqn:Hrun;
    [|vm_compute in Hrun; discriminate Hrun].
  exists c'. split; [reflexivity|].
  destruct (run_batch_submits_array_then_post_processing _ _ _ _ _ _ _ _ _ _ _ _ _ _ _ _
              _ _ _ _ _ Hrun)
    as (fs & n & nodes & jobid & k & _ & Hper & Hk & Hnodes & Hq & Hsub & _ & Hframe).
  injection Hper as <-. injection Hnodes as <-. injection Hq as <-.
  split.
  - rewrite Hsub, Hk. vm_compute. reflexivity.
  - rewrite (Hframe eq_refl); [reflexivity|reflexivity|].
    intros j _ Heq. apply (f_equal is_descriptor) in Heq.
    rewrite job_json_filename_is_descriptor in Heq. discriminate Heq.
Defined.

Lemma run_batch_without_datapoints_witness :
  ∃ c',
    run_batch (fun job => str_of_nat (job_num job)) (@rev sim) (fun _ => Ok "4242")
      "/scratch/out" "peregrine.sh" (fun fs => Ok fs)
      (fun _ => Ok (Some "Building")) "/opt/buildstock" "openstudio.simg"
      "project_national" (Some []) false
      0 2 200 "haswell" "batch-h" "res_stock" 3 (mkCluster ∅ []) = Ok c'
    ∧ files c' = {[ "housing_characteristics/buildstock.csv" := "Building" ]}
    ∧ submitted c' =
      [["qsub"; "-v"; "PROJECTFILE"; "-q"; "batch-h"; "-A"; "res_stock";
        "-l"; "feature=haswell"; "-l"; "walltime=360"; "-N"; "buildstock";
        "-t"; "1-0"; "-o"; "/scratch/out/job.out"; "peregrine.sh"];
       ["qsub"; "-v"; "PROJECTFILE,POSTPROCESS"; "-W"; "depend=afterokarray:4242";
        "-q"; "bigmem"; "-A"; "res_stock"; "-l"; "feature=256GB";
        "-l"; "walltime=1:30:00"; "-N"; "buildstock_post";
        "-o"; "/scratch/out/postprocessing.out"; "peregrine.sh"]].
Proof.
  assert (H1 : ∀ l : list sim, rev l ≡ₚ l) by (intros l; symmetry; apply Permutation_rev).
  destruct (run_batch (fun job => str_of_nat (job_num job)) (@rev sim) (fun _ => Ok "4242")
              "/scratch/out" "peregrine.sh" (fun fs => Ok fs)
              (fun _ => Ok (Some "Building")) "/opt/buildstock" "openstudio.simg"
              "project_national" (Some []) false
              0 2 200 "haswell" "batch-h" "res_stock" 3 (mkCluster ∅ [])) as [c'|e] eqn:Hrun;
    [|vm_compute in Hrun; discriminate Hrun].
  exists c'. split; [reflexivity|].
  destruct (run_batch_without_datapoints _ _ _ _ _ _ _ _ _ _ _ _ _ _ _ _ _ _ _ _ H1 Hrun)
    as (Hfiles & nodes & jobid & Hnodes & Hsub).
  assert (Hs : sampling_step (fun fs => Ok fs) (fun _ => Ok (Some "Building"))
                 "/opt/buildstock" "openstudio.simg" "project_national" (Some []) false
                 0 (files (mkCluster ∅ []))
               = Ok {[ "housing_characteristics/buildstock.csv" := "Building" ]})
    by (vm_compute; reflexivity).
  split.
  - rewrite Hs in Hfiles. by injection Hfiles as <-.
  - vm_compute in Hrun. injection Hrun as <-. reflexivity.
Defined.

(** ** The wall time of [_queue_jobs] *)

Lemma nodes_per_nodetype_values nodetype nodes :
  dict_get nodetype nodes_per_nodetype = Some nodes → (nodes = 16 ∨ nodes = 24)%Z.
Proof.
  unfold nodes_per_nodetype. simpl.
  repeat (destruct (String.eqb nodetype _); [intros [= <-]; lia|]). done.
Qed.

(** X11. For a batch size and a time per simulation that are not negative,
    a submission of [_queue_jobs] that returns has asked for a wall time,
    in seconds, in which the cores of one node of the type (16 or 24) run
    every simulation of a job, and for less than one more round of
    simulations than that; the files are as they were. *)
Theorem queue_jobs_walltime_covers_batch qsub output_dir peregrine_sh
    n_sims_per_job minutes_per_sim array_spec queue nodetype allocation c jobid c' :
  (0 <= n_sims_per_job)%Z → (0 <= minutes_per_sim)%Z →
  _queue_jobs qsub output_dir peregrine_sh n_sims_per_job minutes_per_sim array_spec
              queue nodetype allocation c = Ok (jobid, c') →
  ∃ nodes walltime,
    dict_get nodetype nodes_per_nodetype = Some nodes
    ∧ (nodes = 16 ∨ nodes = 24)%Z
    ∧ files c' = files c
    ∧ submitted c' =
        submitted c ++
        [queue_jobs_args output_dir peregrine_sh walltime array_spec queue nodetype
                         allocation]
    ∧ (n_sims_per_job * (minutes_per_sim * 60) <= nodes * walltime)%Z
    ∧ (nodes * walltime < (n_sims_per_job + nodes) * (minutes_per_sim * 60)
       ∨ minutes_per_sim = 0)%Z.
Proof.
  intros Hn Hm. unfold _queue_jobs, dict_item. intros H.
  destruct (dict_get nodetype nodes_per_nodetype) as [nodes|] eqn:Hnodes;
    simpl in H; [|done].
  destruct (qsub _) as [jobid'|e]; simpl in H; [|done].
  injection H as <- <-.
  pose proof (nodes_per_nodetype_values _ _ Hnodes) as Hval.
  exists nodes, (ceil_div n_sims_per_job nodes * minutes_per_sim * 60)%Z.
  destruct (ceil_div_spec n_sims_per_job nodes) as [H1 H2]; [lia|].
  split_and!; try done.
  - nia.
  - destruct (Z.eq_dec minutes_per_sim 0%Z) as [|Hne]; [by right|left]. nia.
Qed.

Lemma queue_jobs_walltime_covers_batch_witness :
  (0 <= 48)%Z ∧ (0 <= 3)%Z
  ∧ _queue_jobs (fun _ => Ok "4242") "/scratch/out" "peregrine.sh" 48 3 "1-3"
      "batch-h" "16core" "res_stock" (mkCluster ∅ [])
    = Ok ("4242",
          mkCluster ∅
            [queue_jobs_args "/scratch/out" "peregrine.sh" 540 "1-3" "batch-h" "16core"
                             "res_stock"])
  ∧ ∃ nodes walltime,
      dict_get "16core" nodes_per_nodetype = Some nodes
      ∧ (48 * (3 * 60) <= nodes * walltime)%Z.
Proof.
  assert (H1 : (0 <= 48)%Z) by lia.
  assert (H2 : (0 <= 3)%Z) by lia.
  assert (H3 : _queue_jobs (fun _ => Ok "4242") "/scratch/out" "peregrine.sh" 48 3 "1-3"
                 "batch-h" "16core" "res_stock" (mkCluster ∅ [])
               = Ok ("4242",
                     mkCluster ∅
                       [queue_jobs_args "/scratch/out" "peregrine.sh" 540 "1-3" "batch-h"
                                        "16core" "res_stock"])) by reflexivity.
  split; [exact H1|]. split; [exact H2|]. split; [exact H3|].
  destruct (queue_jobs_walltime_covers_batch _ _ _ _ _ _ _ _ _ _ _ _ H1 H2 H3)
    as (nodes & walltime & Hnodes & _ & _ & _ & Hcover & _).
  by exists nodes, walltime.
Defined.

(** ** The names of the simulation directories and of the job files *)

Lemma span_digits_only_digits (ds : string) :
  only_digits ds = true → span_digits ds = (ds, "").
Proof.
  intros Hds. rewrite <- (str_app_nil_r ds) at 1. by apply span_digits_app.
Qed.

Lemma zfill_read (width i : nat) :
  Nat.of_uint <$> NilEmpty.uint_of_string (zfill width (str_of_nat i)) = Some i.
Proof. unfold zfill. by rewrite zeros_read, str_of_nat_read. Qed.

Lemma unit_of_sim_id_of (i : nat) (upgrade_idx : option nat) :
  unit_of_sim_id (sim_id_of i upgrade_idx) = Some (i, upgrade_idx).
Proof.
  unfold unit_of_sim_id, sim_id_of. rewrite strip_prefix_app.
  rewrite span_digits_app; [|apply zfill_only_digits|by rewrite (str_app_cons _ "p")].
  rewrite zfill_read, strip_prefix_app.
  rewrite span_digits_only_digits by apply zfill_only_digits.
  cbn [fst]. rewrite zfill_read.
  destruct upgrade_idx as [u|]; [|done]. by rewrite Nat.add_1_r.
Qed.

Lemma sim_id_of_inj (i i' : nat) (upgrade_idx upgrade_idx' : option nat) :
  sim_id_of i upgrade_idx = sim_id_of i' upgrade_idx' →
  i = i' ∧ upgrade_idx = upgrade_idx'.
Proof.
  intros H. apply (f_equal unit_of_sim_id) in H.
  rewrite !unit_of_sim_id_of in H. by injection H.
Qed.

(** X12. The name of a simulation directory determines its unit: the
    building number and the upgrade can be read back from it, so two
    different units never share a directory. *)
Theorem sim_id_names_one_unit (i : nat) (upgrade_idx : option nat) :
  unit_of_sim_id (sim_id_of i upgrade_idx) = Some (i, upgrade_idx)
  ∧ ∀ i' upgrade_idx',
      sim_id_of i upgrade_idx = sim_id_of i' upgrade_idx' →
      i = i' ∧ upgrade_idx = upgrade_idx'.
Proof.
  split; [apply unit_of_sim_id_of|]. intros i' upgrade_idx'. apply sim_id_of_inj.
Qed.

(** X13. The name of a job file determines the job: its number can be read
    back from the name, two different numbers never share a file, and the
    name is never taken for a log of the scheduler. *)
Theorem job_file_names_one_job (i : nat) :
  job_number_of (job_json_filename i) = Some i
  ∧ (∀ j, job_json_filename i = job_json_filename j → i = j)
  ∧ m_jobout (job_json_filename i) = None.
Proof.
  split; [apply job_number_of_filename|]. split; [apply job_json_filename_inj|].
  pose proof (job_json_filename_is_descriptor i) as H. unfold is_descriptor in H.
  by destruct (m_jobout (job_json_filename i)).
Qed.

(** ** [run_building] and the other directories *)

Section RunBuildingFacts.
Variable osw_text : string → nat → option nat → string.
Variable singularity_exec : string → gmap string string → gmap string string.
Variable cleanup_sim_dir : gmap string string → gmap string string.
Variable weather_name : string.

Lemma simulate_other (results : gmap string (gmap string string)) sim_id i upgrade_idx
    name :
  name ≠ sim_id → simulate osw_text singularity_exec cleanup_sim_dir weather_name results sim_id
      i upgrade_idx !! name = results !! name.
Proof. intros Hne. unfold simulate. by rewrite lookup_insert_ne. Qed.

Lemma run_building_other (results : gmap string (gmap string string)) i upgrade_idx name :
  name ≠ sim_id_of i upgrade_idx →
  (run_building osw_text singularity_exec cleanup_sim_dir weather_name results i upgrade_idx).1
      !! name = results !! name.
Proof.
  intros Hne. unfold run_building.
  destruct (results !! sim_id_of i upgrade_idx) as [sim_dir|]; simpl.
  - destruct (path_exists sim_dir "run/finished.job"); [done|].
    destruct (path_exists sim_dir "run/failed.job"); [done|]. simpl.
    rewrite simulate_other by done. by rewrite lookup_delete_ne.
  - by rewrite simulate_other.
Qed.

Lemma run_building_self (results results' : gmap string (gmap string string)) i
    upgrade_idx :
  results !! sim_id_of i upgrade_idx = results' !! sim_id_of i upgrade_idx →
  (run_building osw_text singularity_exec cleanup_sim_dir weather_name results i upgrade_idx).1
      !! sim_id_of i upgrade_idx
  = (run_building osw_text singularity_exec cleanup_sim_dir weather_name results' i
      upgrade_idx).1 !! sim_id_of i upgrade_idx.
Proof.
  intros H. unfold run_building. rewrite <- H.
  destruct (results !! sim_id_of i upgrade_idx) as [sim_dir|] eqn:Hdir; simpl.
  - destruct (path_exists sim_dir "run/finished.job"); [simpl; congruence|].
    destruct (path_exists sim_dir "run/failed.job"); [simpl; congruence|]. simpl.
    by rewrite simulate_lookup, (simulate_lookup _ _ _ _ (delete _ results')).
  - by rewrite simulate_lookup, (simulate_lookup _ _ _ _ results').
Qed.

Lemma run_building_exists (results : gmap string (gmap string string)) i upgrade_idx :
  is_Some ((run_building osw_text singularity_exec cleanup_sim_dir weather_name results i
      upgrade_idx).1 !! sim_id_of i upgrade_idx).
Proof.
  unfold run_building.
  destruct (results !! sim_id_of i upgrade_idx) as [sim_dir|] eqn:Hdir; simpl.
  - destruct (path_exists sim_dir "run/finished.job"); [by eexists|].
    destruct (path_exists sim_dir "run/failed.job"); [by eexists|]. simpl.
    unfold simulate. rewrite lookup_insert_eq. by eexists.
  - unfold simulate. rewrite lookup_insert_eq. by eexists.
Qed.

Lemma run_building_commute (results : gmap string (gmap string string)) i upgrade_idx
    i' upgrade_idx' :
  (run_building osw_text singularity_exec cleanup_sim_dir weather_name (run_building osw_text
      singularity_exec cleanup_sim_dir weather_name results i upgrade_idx).1 i' upgrade_idx').1
  = (run_building osw_text singularity_exec cleanup_sim_dir weather_name (run_building osw_text
      singularity_exec cleanup_sim_dir weather_name results i' upgrade_idx').1 i upgrade_idx).1.
Proof.
  destruct (decide (sim_id_of i upgrade_idx = sim_id_of i' upgrade_idx')) as [Heq|Hne].
  { apply sim_id_of_inj in Heq as [-> ->]. done. }
  apply map_eq. intros name.
  destruct (decide (name = sim_id_of i upgrade_idx)) as [->|Hn1].
  - rewrite run_building_other by done.
    apply run_building_self. symmetry. by apply run_building_other.
  - rewrite (run_building_other (run_building osw_text singularity_exec cleanup_sim_dir
      weather_name results i' upgrade_idx').1) by done.
    destruct (decide (name = sim_id_of i' upgrade_idx')) as [->|Hn2].
    + apply run_building_self. by apply run_building_other.
    + by rewrite !run_building_other.
Qed.

Lemma run_building_marked (results : gmap string (gmap string string)) i upgrade_idx
    sim_dir :
  results !! sim_id_of i upgrade_idx = Some sim_dir → has_marker sim_dir →
  run_building osw_text singularity_exec cleanup_sim_dir weather_name results i upgrade_idx =
      (results, []).
Proof.
  intros Hdir Hmarker. unfold run_building. rewrite Hdir.
  destruct (path_exists sim_dir "run/finished.job") eqn:Hfin; [done|].
  destruct (path_exists sim_dir "run/failed.job") eqn:Hfail; [done|].
  apply path_exists_false in Hfin, Hfail.
  destruct Hmarker as [[? H]|[? H]]; congruence.
Qed.

Lemma run_buildings_from (units : list sim) :
  ∀ (results : gmap string (gmap string string)) (events : list run_event),
    fold_left
      (fun (acc : gmap string (gmap string string) * list run_event) (unit : sim) =>
         let '(results, events) := acc in
         let '(i, upgrade_idx) := unit in
         let '(results', events') := run_building osw_text singularity_exec cleanup_sim_dir
             weather_name results i upgrade_idx in
         (results', events ++ events'))
      units (results, events)
    = ((run_buildings osw_text singularity_exec cleanup_sim_dir weather_name results units).1,
        events ++ (run_buildings osw_text singularity_exec cleanup_sim_dir weather_name results
        units).2).
Proof.
  unfold run_buildings. induction units as [|[i u] units IH]; intros results events.
  - simpl. by rewrite app_nil_r.
  - cbn [fold_left]. destruct (run_building osw_text singularity_exec cleanup_sim_dir
      weather_name results i u) as [r1 e1].
    rewrite IH, (IH r1 ([] ++ e1)). simpl. by rewrite app_assoc.
Qed.

Lemma run_buildings_cons (results : gmap string (gmap string string)) i upgrade_idx
    (units : list sim) :
  run_buildings osw_text singularity_exec cleanup_sim_dir weather_name results ((i, upgrade_idx)
      :: units)
  = ((run_buildings osw_text singularity_exec cleanup_sim_dir weather_name (run_building
      osw_text singularity_exec cleanup_sim_dir weather_name results i upgrade_idx).1 units).1,
     (run_building osw_text singularity_exec cleanup_sim_dir weather_name results i upgrade_idx).2
     ++ (run_buildings osw_text singularity_exec cleanup_sim_dir weather_name (run_building
         osw_text singularity_exec cleanup_sim_dir weather_name results i upgrade_idx).1
         units).2).
Proof.
  unfold run_buildings at 1. cbn [fold_left].
  destruct (run_building osw_text singularity_exec cleanup_sim_dir weather_name results i
      upgrade_idx) as [r1 e1]. simpl.
  by rewrite run_buildings_from.
Qed.

(** A property of a directory of the results that every call of
    [run_building] keeps holds after the batch. *)
Lemma run_buildings_keeps (P : gmap string (gmap string string) → Prop) (units : list sim) :
  (∀ results i upgrade_idx, P results → P (run_building osw_text singularity_exec
      cleanup_sim_dir weather_name results i upgrade_idx).1) →
  ∀ results, P results → P (run_buildings osw_text singularity_exec cleanup_sim_dir weather_name
      results units).1.
Proof.
  intros Hstep. induction units as [|[i u] units IH]; intros results HP; [done|].
  rewrite run_buildings_cons. simpl. by apply IH, Hstep.
Qed.

Lemma run_buildings_exists (units : list sim) :
  ∀ (results : gmap string (gmap string string)) i upgrade_idx,
    (i, upgrade_idx) ∈ units →
    is_Some ((run_buildings osw_text singularity_exec cleanup_sim_dir weather_name results
        units).1 !! sim_id_of i upgrade_idx).
Proof.
  induction units as [|[i' u'] units IH]; intros results i u Hin.
  - by apply not_elem_of_nil in Hin.
  - rewrite run_buildings_cons. simpl.
    apply elem_of_cons in Hin as [[= -> ->]|Hin]; [|by apply IH].
    apply (run_buildings_keeps (fun r => is_Some (r !! sim_id_of i' u'))).
    + intros r j v Hr.
      destruct (decide (sim_id_of i' u' = sim_id_of j v)) as [Heq|Hne].
      * rewrite Heq. apply run_building_exists.
      * by rewrite run_building_other.
    + apply run_building_exists.
Qed.

(** X14. [run_building] works in the directory of its unit and in no
    other: the directory of every other unit, and every other entry of the
    results, is after the call what it was before, and the directory of the
    unit exists. *)
Theorem run_building_touches_one_directory
    (results : gmap string (gmap string string)) (i : nat) (upgrade_idx : option nat) :
  is_Some ((run_building osw_text singularity_exec cleanup_sim_dir weather_name results i
                         upgrade_idx).1 !! sim_id_of i upgrade_idx)
  ∧ (∀ name, name ≠ sim_id_of i upgrade_idx →
       (run_building osw_text singularity_exec cleanup_sim_dir weather_name results i
                     upgrade_idx).1 !! name
       = results !! name)
  ∧ (∀ i' upgrade_idx', (i', upgrade_idx') ≠ (i, upgrade_idx) →
       (run_building osw_text singularity_exec cleanup_sim_dir weather_name results i
                     upgrade_idx).1 !! sim_id_of i' upgrade_idx'
       = results !! sim_id_of i' upgrade_idx').
Proof.
  split; [apply run_building_exists|]. split; [apply run_building_other|].
  intros i' u' Hne. apply run_building_other.
  intros Heq. apply sim_id_of_inj in Heq as [-> ->]. done.
Qed.

(** X15. The results a batch of units leaves do not depend on the order in
    which the worker pool takes the units: any two orders of the same
    units, repeated units included, end in the same results directory. *)
Theorem run_buildings_order_independent
    (results : gmap string (gmap string string)) (units units' : list sim) :
  units ≡ₚ units' →
  (run_buildings osw_text singularity_exec cleanup_sim_dir weather_name results units).1
  = (run_buildings osw_text singularity_exec cleanup_sim_dir weather_name results units').1.
Proof.
  intros Hperm. revert results.
  induction Hperm as [|[i u] l l' _ IH|[i u] [i' u'] l|l l' l'' _ IH1 _ IH2];
    intros results.
  - done.
  - rewrite !run_buildings_cons. simpl. apply IH.
  - rewrite !run_buildings_cons. simpl. by rewrite run_building_commute.
  - by rewrite IH1.
Qed.

(** X16. When every container run leaves one of the two markers behind, a
    batch that is run again simulates nothing and removes nothing: the
    second pass over the same units returns the results directory of the
    first with no event. *)
Theorem run_buildings_again_runs_nothing
    (results : gmap string (gmap string string)) (units : list sim) :
  (∀ r sim_id i upgrade_idx,
     ∃ sim_dir,
       simulate osw_text singularity_exec cleanup_sim_dir weather_name r sim_id i
                upgrade_idx !! sim_id = Some sim_dir
       ∧ has_marker sim_dir) →
  run_buildings osw_text singularity_exec cleanup_sim_dir weather_name
    (run_buildings osw_text singularity_exec cleanup_sim_dir weather_name results units).1
    units
  = ((run_buildings osw_text singularity_exec cleanup_sim_dir weather_name results units).1,
     []).
Proof.
  intros Hmark.
  set (marked := fun (r : gmap string (gmap string string)) (unit : sim) =>
                   ∃ sim_dir, r !! sim_id_of unit.1 unit.2 = Some sim_dir
                              ∧ has_marker sim_dir).
  assert (Hself : ∀ r i u, marked (run_building osw_text singularity_exec cleanup_sim_dir
      weather_name r i u).1 (i, u)).
  { intros r i u. unfold marked, run_building. simpl.
    destruct (r !! sim_id_of i u) as [d|] eqn:Hd; [|apply Hmark].
    destruct (path_exists d "run/finished.job") eqn:Hfin.
    { exists d. split; [done|]. left. by apply path_exists_true. }
    destruct (path_exists d "run/failed.job") eqn:Hfail.
    { exists d. split; [done|]. right. by apply path_exists_true. }
    apply Hmark. }
  assert (Hkeep : ∀ unit r i u, marked r unit → marked (run_building osw_text singularity_exec
      cleanup_sim_dir weather_name r i u).1 unit).
  { intros [j v] r i u Hm.
    destruct (decide (sim_id_of j v = sim_id_of i u)) as [Heq|Hne].
    - apply sim_id_of_inj in Heq as [-> ->]. apply Hself.
    - unfold marked. simpl. by rewrite run_building_other. }
  assert (Hall : ∀ l r, Forall (marked (run_buildings osw_text singularity_exec cleanup_sim_dir
      weather_name r l).1) l).
  { induction l as [|[i u] l IH]; intros r; [constructor|].
    rewrite run_buildings_cons. simpl. constructor; [|apply IH].
    apply (run_buildings_keeps (fun r' => marked r' (i, u))); [|apply Hself].
    intros r' j v. apply Hkeep. }
  assert (Hskip : ∀ l r, Forall (marked r) l → run_buildings osw_text singularity_exec
      cleanup_sim_dir weather_name r l = (r, [])).
  { induction l as [|[i u] l IH]; intros r Hl; [done|].
    apply Forall_cons in Hl as [(d & Hd & Hm) Hl]. simpl in Hd.
    rewrite run_buildings_cons, (run_building_marked r i u d Hd Hm). simpl.
    by rewrite IH. }
  apply Hskip, Hall.
Qed.
End RunBuildingFacts.

Lemma run_buildings_again_runs_nothing_witness :
  run_buildings (fun _ _ _ => "{}") (fun _ d => <["run/finished.job" := ""]> d)
    (fun d => d) "weather"
    (run_buildings (fun _ _ _ => "{}") (fun _ d => <["run/finished.job" := ""]> d)
       (fun d => d) "weather" ∅ [(1%nat, None); (1%nat, Some 0%nat)]).1
    [(1%nat, None); (1%nat, Some 0%nat)]
  = ((run_buildings (fun _ _ _ => "{}") (fun _ d => <["run/finished.job" := ""]> d)
        (fun d => d) "weather" ∅ [(1%nat, None); (1%nat, Some 0%nat)]).1, []).
Proof.
  apply (run_buildings_again_runs_nothing (fun _ _ _ => "{}")
           (fun _ d => <["run/finished.job" := ""]> d) (fun d => d) "weather").
  intros r sim_id i upgrade_idx. unfold simulate. rewrite lookup_insert_eq.
  eexists. split; [reflexivity|]. left. simpl.
  rewrite !lookup_delete_ne by done. rewrite lookup_insert_eq. by eexists.
Defined.

Lemma run_buildings_order_independent_witness :
  [(1%nat, None); (2%nat, Some 0%nat); (1%nat, None)]
    ≡ₚ [(2%nat, Some 0%nat); (1%nat, None); (1%nat, @None nat)]
  ∧ (run_buildings (fun _ _ _ => "{}") (fun _ d => d) (fun d => d) "weather" ∅
       [(1%nat, None); (2%nat, Some 0%nat); (1%nat, None)]).1
    = (run_buildings (fun _ _ _ => "{}") (fun _ d => d) (fun d => d) "weather" ∅
         [(2%nat, Some 0%nat); (1%nat, None); (1%nat, None)]).1.
Proof.
  assert (H : [(1%nat, None); (2%nat, Some 0%nat); (1%nat, None)]
                ≡ₚ [(2%nat, Some 0%nat); (1%nat, None); (1%nat, @None nat)])
    by apply perm_swap.
  split; [exact H|].
  exact (run_buildings_order_independent (fun _ _ _ => "{}") (fun _ d => d) (fun d => d)
           "weather" ∅ _ _ H).
Defined.

(** ** From [run_batch] to [run_job_batch] *)

(** X17. With a JSON codec that loads what it dumped and a shuffle that
    permutes, the array tasks find their work: after a call of
    [run_batch] that returns, [run_job_batch] on the number of any job
    written opens that job file and runs exactly the batch of the job, and
    every unit of the workload is in the batch of some job whose run leaves
    the directory of the unit in the results. *)
Theorem run_job_batch_runs_what_run_batch_wrote json_dump json_load shuffle qsub
    output_dir peregrine_sh downselect singularity_sampling buildstock_dir
    singularity_image project_directory project_housing_characteristics
    osw_text singularity_exec cleanup_sim_dir weather_name downselect_in_cfg
    n_datapoints n_upgrades n_jobs nodetype queue allocation minutes_per_sim c c' :
  (∀ job, json_load (json_dump job) = Ok job) →
  (∀ l : list sim, shuffle l ≡ₚ l) →
  run_batch json_dump shuffle qsub output_dir peregrine_sh downselect singularity_sampling
            buildstock_dir singularity_image project_directory
            project_housing_characteristics downselect_in_cfg n_datapoints n_upgrades
            n_jobs nodetype queue allocation minutes_per_sim c = Ok c' →
  ∃ n_sims_per_job,
    sims_per_job (Z.of_nat n_datapoints * (Z.of_nat n_upgrades + 1)) n_jobs
      = Ok n_sims_per_job
    ∧ (∀ job results,
         job ∈ plan_jobs shuffle n_datapoints n_upgrades n_sims_per_job →
         run_job_batch json_load osw_text singularity_exec cleanup_sim_dir weather_name
                       (files c') results (job_num job)
         = Ok (run_buildings osw_text singularity_exec cleanup_sim_dir weather_name
                             results (batch job)))
    ∧ (∀ i upgrade_idx results,
         (i, upgrade_idx) ∈ workload n_datapoints n_upgrades →
         ∃ job results' events,
           job ∈ plan_jobs shuffle n_datapoints n_upgrades n_sims_per_job
           ∧ (i, upgrade_idx) ∈ batch job
           ∧ run_job_batch json_load osw_text singularity_exec cleanup_sim_dir
                           weather_name (files c') results (job_num job)
             = Ok (results', events)
           ∧ is_Some (results' !! sim_id_of i upgrade_idx)).
Proof.
  intros Hjson Hshuffle Hrun.
  apply run_batch_inv in Hrun as (fs & n & nodes & jobid & _ & Hper & _ & _ & ->).
  exists n. split; [done|].
  set (jobs := plan_jobs shuffle n_datapoints n_upgrades n).
  assert (Hread : ∀ job results,
    job ∈ jobs →
    run_job_batch json_load osw_text singularity_exec cleanup_sim_dir weather_name
      (fold_left (write_job json_dump) jobs fs) results (job_num job)
    = Ok (run_buildings osw_text singularity_exec cleanup_sim_dir weather_name
                        results (batch job))).
  { intros job results Hjob. unfold run_job_batch.
    rewrite write_jobs_lookup; [|unfold jobs, plan_jobs; rewrite number_jobs_nums;
                                   apply NoDup_seq|done].
    simpl. by rewrite Hjson. }
  split; [exact Hread|].
  intros i u results Hunit.
  assert (Hn : (0 < Z.to_nat n)%nat).
  { unfold sims_per_job in Hper. destruct (Z.eqb n_jobs 0); [done|].
    injection Hper as <-. lia. }
  assert (Hconcat : concat (map batch jobs) = shuffle (workload n_datapoints n_upgrades)).
  { unfold jobs. rewrite plan_jobs_batches. by apply batches_from_concat. }
  assert (Hin : (i, u) ∈ concat (map batch jobs)).
  { rewrite Hconcat. by rewrite (Hshuffle _). }
  apply list_elem_of_In, in_concat in Hin as (b & Hb & Hib).
  apply in_map_iff in Hb as (job & <- & Hjob).
  apply list_elem_of_In in Hjob, Hib.
  exists job,
    (run_buildings osw_text singularity_exec cleanup_sim_dir weather_name results
                   (batch job)).1,
    (run_buildings osw_text singularity_exec cleanup_sim_dir weather_name results
                   (batch job)).2.
  split; [done|]. split; [done|]. split.
  - simpl. rewrite (Hread job results Hjob). by destruct (run_buildings _ _ _ _ _ _).
  - by apply run_buildings_exists.
Qed.

Lemma str_of_N_read (n : N) : int_of_digits (str_of_N n) = n.
Proof.
  unfold str_of_N, int_of_digits, NilZero.string_of_uint.
  pose proof (DecimalN.Unsigned.of_to n) as Hn.
  destruct (N.to_uint n) eqn:Hd; [by rewrite <- Hn|..];
    rewrite <- Hd, NilEmpty.usu; by rewrite Hd, Hn.
Qed.

Lemma example_json_round_trip (job : job_d) :
  example_json_load (example_json_dump job) = Ok job.
Proof.
  unfold example_json_load, example_json_dump.
  rewrite str_of_N_read, decode_encode. by destruct job.
Qed.

Lemma run_job_batch_runs_what_run_batch_wrote_witness :
  ∃ c',
    run_batch example_json_dump (@rev sim) (fun _ => Ok "4242")
      "/scratch/out" "peregrine.sh" (fun fs => Ok fs)
      (fun _ => Ok (Some "Building")) "/opt/buildstock" "openstudio.simg"
      "project_national" (Some []) false
      2 1 200 "haswell" "batch-h" "res_stock" 3 (mkCluster ∅ []) = Ok c'
    ∧ ∃ job results' events,
        (2%nat, Some 0%nat) ∈ batch job
        ∧ run_job_batch example_json_load
            (fun _ _ _ => "{}") (fun _ d => d) (fun d => d) "weather"
            (files c') ∅ (job_num job) = Ok (results', events)
        ∧ is_Some (results' !! sim_id_of 2 (Some 0%nat)).
Proof.
  assert (H1 : ∀ l : list sim, rev l ≡ₚ l) by (intros l; symmetry; apply Permutation_rev).
  destruct (run_batch example_json_dump (@rev sim) (fun _ => Ok "4242")
              "/scratch/out" "peregrine.sh" (fun fs => Ok fs)
              (fun _ => Ok (Some "Building")) "/opt/buildstock" "openstudio.simg"
              "project_national" (Some []) false
              2 1 200 "haswell" "batch-h" "res_stock" 3 (mkCluster ∅ [])) as [c'|e] eqn:Hrun;
    [|vm_compute in Hrun; discriminate Hrun].
  exists c'. split; [reflexivity|].
  destruct (run_job_batch_runs_what_run_batch_wrote example_json_dump example_json_load
              (@rev sim) (fun _ => Ok "4242") "/scratch/out" "peregrine.sh"
              (fun fs => Ok fs) (fun _ => Ok (Some "Building")) "/opt/buildstock"
              "openstudio.simg" "project_national" (Some [])
              (fun _ _ _ => "{}") (fun _ d => d) (fun d => d) "weather" false
              2 1 200 "haswell" "batch-h" "res_stock" 3 (mkCluster ∅ []) c'
              example_json_round_trip H1 Hrun) as (n & _ & _ & Hcover).
  destruct (Hcover 2%nat (Some 0%nat) ∅) as (job & results' & events & _ & Hin & Hjob & Hdir).
  { apply list_elem_of_In. vm_compute. tauto. }
  by exists job, results', events.
Defined.

(** * Further properties of the resume scan *)

Lemma str_of_N_only_digits (n : N) : only_digits (str_of_N n) = true.
Proof.
  unfold str_of_N, NilZero.string_of_uint.
  destruct (N.to_uint n) eqn:Hd; [done|rewrite <- Hd; apply string_of_uint_only_digits..].
Qed.

Lemma str_of_N_nonempty (n : N) : str_nonempty (str_of_N n) = true.
Proof. unfold str_of_N. by destruct (N.to_uint n). Qed.

(** X18. The log the scheduler names [job.out-] followed by the decimal
    digits of a task number is matched by the first pattern of the scan,
    the task number read from the name is that number, and the name is not
    taken for a job file. *)
Theorem log_name_carries_array_id (n : N) :
  m_jobout ("job.out-" +:+ str_of_N n) = Some (str_of_N n)
  ∧ int_of_digits (str_of_N n) = n
  ∧ is_descriptor ("job.out-" +:+ str_of_N n) = false.
Proof.
  assert (H : m_jobout ("job.out-" +:+ str_of_N n) = Some (str_of_N n)).
  { change ("job.out-" +:+ str_of_N n)
      with ("job" +:+ String (Ascii.ascii_of_nat 46) ("out-" +:+ str_of_N n)).
    unfold m_jobout. rewrite strip_prefix_app.
    change (is_newline (Ascii.ascii_of_nat 46)) with false. cbv iota.
    rewrite strip_prefix_app, span_digits_only_digits by apply str_of_N_only_digits.
    by rewrite str_of_N_nonempty. }
  split; [exact H|]. split; [apply str_of_N_read|].
  unfold is_descriptor. by rewrite H.
Qed.

(** ** The wall-time signature *)

Lemma span_digits_spec (s ds tail : string) :
  span_digits s = (ds, tail) → s = ds +:+ tail ∧ only_digits ds = true.
Proof.
  revert ds tail. induction s as [|c s IH]; intros ds tail H; simpl in H.
  - by injection H as <- <-.
  - destruct (is_digit c) eqn:Hc.
    + destruct (span_digits s) as [ds' tail']. injection H as <- <-.
      destruct (IH ds' tail' eq_refl) as [-> Hds].
      rewrite str_app_cons. simpl. by rewrite Hc, Hds.
    + by injection H as <- <-.
Qed.

Lemma span_digits_leading (b post : string) :
  only_digits b = true → str_nonempty b = true →
  str_nonempty (fst (span_digits (b +:+ post))) = true.
Proof.
  destruct b as [|c b]; [done|]. intros Hb _. simpl in Hb.
  apply andb_true_iff in Hb as [Hc _].
  rewrite str_app_cons. simpl. rewrite Hc. by destruct (span_digits (b +:+ post)).
Qed.

Lemma walltime_exceeded_unfold (s : string) :
  walltime_exceeded s
  = walltime_exceeded_here s
    || match s with
       | EmptyString => false
       | String _ s' => walltime_exceeded s'
       end.
Proof. by destruct s. Qed.

Lemma walltime_exceeded_here_inv (s : string) :
  walltime_exceeded_here s = true →
  ∃ a b post,
    s = "PBS: job killed: walltime " +:+ a +:+ " exceeded limit " +:+ b +:+ post
    ∧ only_digits a = true ∧ str_nonempty a = true
    ∧ only_digits b = true ∧ str_nonempty b = true.
Proof.
  unfold walltime_exceeded_here. intros H.
  destruct (strip_prefix "PBS: job killed: walltime " s) as [rest|] eqn:Hp; [|done].
  destruct (span_digits rest) as [a tail] eqn:Ha.
  apply andb_true_iff in H as [Hne H].
  destruct (strip_prefix " exceeded limit " tail) as [rest'|] eqn:He; [|done].
  destruct (span_digits rest') as [b post] eqn:Hb. simpl in H.
  apply strip_prefix_Some in Hp, He.
  apply span_digits_spec in Ha as [Ha Hda], Hb as [Hb Hdb].
  exists a, b, post. subst. by split_and!.
Qed.

(** X19. The search of [pick_up_where_left_off] in a log finds the
    wall-time message exactly when the log holds, at some place, the text
    [PBS: job killed: walltime], digits, [exceeded limit] and digits. *)
Theorem walltime_exceeded_iff_signature (s : string) :
  walltime_exceeded s = true ↔ has_walltime_signature s.
Proof.
  split.
  - induction s as [|c s IH]; rewrite walltime_exceeded_unfold; intros H;
      apply orb_true_iff in H as [H|H]; try done.
    + apply walltime_exceeded_here_inv in H as (a & b & post & H & ?).
      by exists "", a, b, post.
    + destruct (IH H) as (pre & a & b & post & -> & ?).
      exists (String c pre), a, b, post. by rewrite str_app_cons.
  - intros (pre & a & b & post & -> & Hda & Hna & Hdb & Hnb).
    induction pre as [|c pre IH].
    + rewrite str_app_nil_l, walltime_exceeded_unfold. apply orb_true_iff. left.
      unfold walltime_exceeded_here. rewrite strip_prefix_app.
      rewrite span_digits_app; [|done|by rewrite (str_app_cons _ "exceeded limit ")].
      rewrite Hna, strip_prefix_app. simpl. by apply span_digits_leading.
    + rewrite str_app_cons, walltime_exceeded_unfold, IH. apply orb_true_r.
Qed.

Lemma walltime_exceeded_iff_signature_witness :
  walltime_exceeded "=>> PBS: job killed: walltime 3605 exceeded limit 3600" = true
  ∧ has_walltime_signature "=>> PBS: job killed: walltime 3605 exceeded limit 3600".
Proof.
  assert (H : walltime_exceeded "=>> PBS: job killed: walltime 3605 exceeded limit 3600"
              = true) by reflexivity.
  split; [exact H|].
  exact (proj1 (walltime_exceeded_iff_signature _) H).
Defined.

(** ** What the scan fails on and what it leaves alone *)

Lemma descriptor_scanned (g : string) : is_descriptor g = true → scanned g = true.
Proof. unfold is_descriptor, scanned. by destruct (m_jobout g). Qed.



(** X21. A scan that returns has changed the timed-out logs and their
    archives and nothing else: every other name of the directory holds what
    it held, and a log without the wall-time message is still in place. *)
Theorem scan_leaves_other_files json_load (fs : gmap string string) l st :
  listdir fs l →
  scan_output_dir json_load l fs = Ok st →
  (∀ g,
     (∀ f ds contents,
        m_jobout f = Some ds → fs !! f = Some contents →
        walltime_exceeded contents = true → g ≠ f ∧ g ≠ f +:+ ".bak") →
     scan_files st !! g = fs !! g)
  ∧ (∀ g ds contents,
       m_jobout g = Some ds → fs !! g = Some contents →
       walltime_exceeded contents = false →
       scan_files st !! g = Some contents).
Proof.
  intros [Hnd Hl] Hscan.
  pose proof (scan_output_dir_spec json_load fs l Hnd) as Hspec.
  rewrite Hscan in Hspec. destruct Hspec as [-> _]. simpl.
  assert (Hframe : ∀ g,
    (∀ f ds contents,
       m_jobout f = Some ds → fs !! f = Some contents →
       walltime_exceeded contents = true → g ≠ f ∧ g ≠ f +:+ ".bak") →
    archived fs l fs !! g = fs !! g).
  { intros g Hg. apply archived_frame. intros f ds c _ Hlog.
    apply log_timed_out_Some in Hlog as (Hm & Hc & Hw). by eapply Hg. }
  split; [exact Hframe|].
  intros g ds contents Hm Hc Hw. rewrite Hframe; [done|].
  intros f ds' c' Hm' Hc' Hw'. split.
  - intros ->. congruence.
  - intros ->. destruct (bak_not_scanned f ds' Hm') as [Hnone _]. congruence.
Qed.

Lemma scan_leaves_other_files_witness :
  listdir (files example_cluster) example_logs.*1
  ∧ ∃ st,
      scan_output_dir toy_json_load example_logs.*1 (files example_cluster) = Ok st
      ∧ scan_files st !! "job.out-1" = Some "Simulation time: 41.50 minutes".
Proof.
  split; [exact example_logs_listed|].
  destruct (scan_output_dir toy_json_load example_logs.*1 (files example_cluster))
    as [st|e] eqn:Hscan; [|vm_compute in Hscan; discriminate Hscan].
  exists st. split; [reflexivity|].
  exact (proj2 (scan_leaves_other_files toy_json_load _ _ st example_logs_listed Hscan)
           "job.out-1" "1" "Simulation time: 41.50 minutes"
           eq_refl eq_refl eq_refl).
Defined.
